(** * friday-dashboard: the real-time voice bridge ([src/server/voice-realtime.ts])

    A shallow embedding of the signaling hub, the per-call session (voice
    activity detection, turn queue, turn worker, playback pacer), the chat
    log and the WAV packaging, with the properties the specification states
    about them.

    Conventions of the embedding.
    - A JavaScript string is a [string]; its characters are the code units
      below 256.
    - An [Int16Array] is a [list Z] whose elements lie in [-32768, 32767];
      a [Buffer] is a [list Z] of bytes.
    - Sample counts, sample rates and clock readings are integers ([Z]);
      [Date.now()] and [new Date()] are inputs of the operation that reads
      them.
    - Quotients the source computes in double precision
      ([utteranceSamples / utteranceSampleRate * 1000]) are exact
      rationals ([Q]).  With integer operands in the admitted range
      (rates between 8000 and 96000) the comparisons against 500 and 18000
      have the same outcome in both arithmetics.
    - A call that may throw returns a [Completion]. *)

From Stdlib Require Import ZArith QArith List String Ascii Lia Bool.
From stdpp Require Import gmap strings list fin_maps.

Close Scope Q_scope.
Open Scope Z_scope.

(** ** Completions: normal return or a thrown exception *)

Inductive Exn : Type :=
| RangeError
| TypeError
| Failure (msg : string).

Inductive Completion (A : Type) : Type :=
| Normal (a : A)
| Throw (e : Exn).
Arguments Normal {A} a.
Arguments Throw {A} e.

#[global] Instance completion_ret : MRet Completion := fun A a => Normal a.
#[global] Instance completion_bind : MBind Completion := fun A B k c =>
  match c with
  | Normal a => k a
  | Throw e => Throw e
  end.

(** [try { c } catch { h }] *)
Definition try_catch {A} (c : Completion A) (h : Exn -> A) : A :=
  match c with
  | Normal a => a
  | Throw e => h e
  end.

(** ** Audio utilities *)

Module Audio.

(** Bytes a string occupies when it is written into a [Buffer]. *)
Definition utf8 (s : string) : list Z :=
  map (fun c => Z.of_nat (nat_of_ascii c)) (list_ascii_of_string s).

(** Byte [k] (little-endian position) of the two's complement image of [v]. *)
Definition byteAt (v : Z) (k : nat) : Z :=
  Z.land (Z.shiftr v (8 * Z.of_nat k)) 255.

Definition le_bytes (n : nat) (v : Z) : list Z :=
  map (byteAt v) (seq 0 n).

(** Overwrite [buf] from offset [off] with [bs]. *)
Definition bufWrite (off : nat) (bs : list Z) (buf : list Z) : list Z :=
  take off buf ++ bs ++ drop (off + length bs) buf.

(** [Buffer.allocUnsafe(n)]: [n] bytes of unspecified content, taken as
    zeros here; [createWavInto] below is stated for any initial content. *)
Definition allocUnsafe (n : nat) : list Z := replicate n 0.

(** [buf.write(s, off)]: writes as many bytes of [s] as fit. *)
Definition write (s : string) (off : nat) (buf : list Z) : list Z :=
  bufWrite off (take (length buf - off) (utf8 s)) buf.

(** [buf.writeUInt32LE(v, off)] and [buf.writeUInt16LE(v, off)]: the value
    and the offset are range-checked. *)
Definition writeUIntLE (width : nat) (v : Z) (off : nat) (buf : list Z)
  : Completion (list Z) :=
  if (0 <=? v) && (v <? 2 ^ (8 * Z.of_nat width)) then
    if (off + width <=? length buf)%nat
    then Normal (bufWrite off (le_bytes width v) buf)
    else Throw RangeError
  else Throw RangeError.

Definition writeUInt32LE := writeUIntLE 4.
Definition writeUInt16LE := writeUIntLE 2.

(** [new DataView(out.buffer, out.byteOffset + base, viewLen)] followed by
    [view.setInt16(off, v, true)]. *)
Definition setInt16 (base viewLen off : nat) (v : Z) (buf : list Z)
  : Completion (list Z) :=
  if (off + 2 <=? viewLen)%nat
  then Normal (bufWrite (base + off) (le_bytes 2 v) buf)
  else Throw RangeError.

Fixpoint writeSamples (samples : list Z) (viewLen : nat) (indices : list nat)
    (out : list Z) : Completion (list Z) :=
  match indices with
  | [] => Normal out
  | index :: more =>
      out' ← setInt16 44 viewLen (index * 2) (default 0 (samples !! index)) out;
      writeSamples samples viewLen more out'
  end.

(** The body of [createWavFromPcm16Mono] once [out] is allocated. *)
Definition createWavInto (out : list Z) (samples : list Z) (sampleRate : Z)
  : Completion (list Z) :=
  let byteLength := (length samples * 2)%nat in
  let out := write "RIFF" 0 out in
  out ← writeUInt32LE (36 + Z.of_nat byteLength) 4 out;
  let out := write "WAVE" 8 out in
  let out := write "fmt " 12 out in
  out ← writeUInt32LE 16 16 out;
  out ← writeUInt16LE 1 20 out;
  out ← writeUInt16LE 1 22 out;
  out ← writeUInt32LE sampleRate 24 out;
  out ← writeUInt32LE (sampleRate * 2) 28 out;
  out ← writeUInt16LE 2 32 out;
  out ← writeUInt16LE 16 34 out;
  let out := write "data" 36 out in
  out ← writeUInt32LE (Z.of_nat byteLength) 40 out;
  writeSamples samples byteLength (seq 0 (length samples)) out.

Definition createWavFromPcm16Mono (samples : list Z) (sampleRate : Z)
  : Completion (list Z) :=
  createWavInto (allocUnsafe (44 + length samples * 2)) samples sampleRate.

(** [out.set(frame, offset)] on a typed array. *)
Definition typedSet (frame : list Z) (offset : nat) (out : list Z) : list Z :=
  bufWrite offset frame out.

Definition concatInt16 (frames : list (list Z)) : list Z :=
  let total := foldl (fun sum frame => (sum + length frame)%nat) 0%nat frames in
  let out := replicate total 0 in
  fst (foldl (fun '(out, offset) frame =>
               (typedSet frame offset out, (offset + length frame)%nat))
             (out, 0%nat) frames).

(** [Math.max(-32768, Math.min(32767, Math.round(sum / channelCount)))];
    [Math.round] rounds halves up. *)
Definition roundedMean (sum channelCount : Z) : Z :=
  Z.max (-32768) (Z.min 32767 ((2 * sum + channelCount) / (2 * channelCount))).

Definition downmixToMono (samples : list Z) (channelCount : Z) : list Z :=
  if channelCount <=? 1 then samples
  else
    let frameCount := Z.to_nat (Z.of_nat (length samples) / channelCount) in
    map (fun frameIndex =>
           let sum :=
             foldl (fun sum channel =>
                      sum + default 0 (samples !! (frameIndex * Z.to_nat channelCount + channel)%nat))
                   0 (seq 0 (Z.to_nat channelCount)) in
           roundedMean sum channelCount)
        (seq 0 frameCount).

(** The square of [rmsLevel(samples)]: the mean of the squared normalised
    samples, 0 for an empty frame. *)
Definition meanSquare (samples : list Z) : Q :=
  match samples with
  | [] => 0%Q
  | _ =>
      let sumSquares :=
        foldl (fun acc v => (acc + (inject_Z v / 32768) * (inject_Z v / 32768))%Q)
              0%Q samples in
      (sumSquares / inject_Z (Z.of_nat (length samples)))%Q
  end.

(** [rmsLevel(samples) >= threshold], for a non-negative threshold. *)
Definition rmsAtLeast (samples : list Z) (threshold : Q) : bool :=
  Qle_bool (threshold * threshold) (meanSquare samples).

(** [new Int16Array(buffer, byteOffset, Math.floor(byteLength / 2))] on a
    little-endian host: the 16-bit view of a byte buffer; an odd trailing
    byte is left out. *)
Definition readInt16LE (lo hi : Z) : Z :=
  let u := lo + 256 * hi in
  if 32768 <=? u then u - 65536 else u.

Fixpoint int16View (bs : list Z) : list Z :=
  match bs with
  | lo :: hi :: rest => readInt16LE lo hi :: int16View rest
  | _ => []
  end.

(** Modelled from the spec: an unsigned little-endian header field, as the
    reader of the round-trip law decodes it; the repository contains no
    WAV reader. *)
Definition readLE (bs : list Z) : Z :=
  foldr (fun b acc => b + 256 * acc) 0 bs.

(** Modelled from the spec: what the reader of the round-trip law returns. *)
Record WavFile : Type := {
  wavFormat : Z;
  wavChannels : Z;
  wavSampleRate : Z;
  wavBitsPerSample : Z;
  wavSamples : list Z;
}.

(** Modelled from the spec: the [len] bytes of a header field. *)
Definition field (off len : nat) (buf : list Z) : list Z :=
  take len (drop off buf).

(** Modelled from the spec: the reader of the round-trip law ("PCM-16 mono
    samples, WAV header prepend, parse"); the repository hands the file to
    the speech-to-text collaborator and contains no reader.  It accepts a
    canonical RIFF/WAVE file (44-byte header, one [fmt ] chunk of 16 bytes,
    one [data] chunk to the end of the file) and returns its fields and
    the samples as 16-bit little-endian integers. *)
Definition parseWav (buf : list Z) : option WavFile :=
  let dataLen := readLE (field 40 4 buf) in
  if bool_decide (field 0 4 buf = utf8 "RIFF")
     && bool_decide (field 8 4 buf = utf8 "WAVE")
     && bool_decide (field 12 4 buf = utf8 "fmt ")
     && bool_decide (field 36 4 buf = utf8 "data")
     && (readLE (field 4 4 buf) =? 36 + dataLen)
     && (readLE (field 16 4 buf) =? 16)
     && (Z.of_nat (length buf) =? 44 + dataLen)
  then Some {| wavFormat := readLE (field 20 2 buf);
               wavChannels := readLE (field 22 2 buf);
               wavSampleRate := readLE (field 24 4 buf);
               wavBitsPerSample := readLE (field 34 2 buf);
               wavSamples := int16View (drop 44 buf) |}
  else None.

Definition int16 (v : Z) : Prop := -32768 <= v <= 32767.

(** The 44 header bytes the source writes. *)
Definition wavHeader (byteLength : nat) (sampleRate : Z) : list Z :=
  utf8 "RIFF" ++ le_bytes 4 (36 + Z.of_nat byteLength) ++ utf8 "WAVE"
  ++ utf8 "fmt " ++ le_bytes 4 16 ++ le_bytes 2 1 ++ le_bytes 2 1
  ++ le_bytes 4 sampleRate ++ le_bytes 4 (sampleRate * 2)
  ++ le_bytes 2 2 ++ le_bytes 2 16 ++ utf8 "data"
  ++ le_bytes 4 (Z.of_nat byteLength).

Definition pcmBytes (samples : list Z) : list Z :=
  concat (map (le_bytes 2) samples).

End Audio.

(** ** JavaScript primitives *)

Module Js.

(** White space and line terminators that [String.prototype.trim] strips,
    among the code units below 256. *)
Definition isWhiteSpace (c : ascii) : bool :=
  bool_decide (nat_of_ascii c ∈ [9; 10; 11; 12; 13; 32; 160]%nat).

Fixpoint trimStartChars (cs : list ascii) : list ascii :=
  match cs with
  | [] => []
  | c :: rest => if isWhiteSpace c then trimStartChars rest else cs
  end.

Definition trimChars (cs : list ascii) : list ascii :=
  reverse (trimStartChars (reverse (trimStartChars cs))).

Definition trim (s : string) : string :=
  string_of_list_ascii (trimChars (list_ascii_of_string s)).

(** A string is truthy when it is not empty. *)
Definition truthy (s : string) : bool := negb (String.eqb s "").

Definition startsWith (s p : string) : bool := String.prefix p s.

(** Values of type [unknown]: what [JSON.parse] returns, and the objects
    the server builds as payloads. *)
#[warnings="-register-all"]
Inductive Value : Type :=
| VUndefined
| VNull
| VBool (b : bool)
| VNumber (n : Z)
| VString (s : string)
| VArray (items : list Value)
| VObject (fields : gmap string Value).

Definition nullish (v : Value) : bool :=
  match v with VUndefined | VNull => true | _ => false end.

(** [typeof v === 'object'] and [v] truthy. *)
Definition isObject (v : Value) : bool :=
  match v with VArray _ | VObject _ => true | _ => false end.

(** [v.name] for a [v] that is not nullish. *)
Definition getField (name : string) (v : Value) : Value :=
  match v with
  | VObject fields => default VUndefined (fields !! name)
  | _ => VUndefined
  end.

(** [v[0]] for a [v] that is not nullish. *)
Definition index0 (v : Value) : Value :=
  match v with
  | VArray items => default VUndefined (head items)
  | VObject fields => default VUndefined (fields !! "0"%string)
  | VString (String c _) => VString (String c "")
  | _ => VUndefined
  end.

End Js.

Import Js.

(** ** Constants *)

Definition BOT_PEER_PREFIX : string := "friday-voice-bot-".
Definition TURN_SILENCE_MS : Z := 2000.
Definition TURN_MIN_MS : Z := 500.
Definition TURN_MAX_MS : Z := 18000.
Definition PRE_ROLL_FRAMES : nat := 22.
Definition VAD_START_RMS : Q := (15 # 1000)%Q.
Definition VAD_HOLD_RMS : Q := (8 # 1000)%Q.
Definition MAX_CHAT_HISTORY : nat := 250.
Definition PLAYBACK_SAMPLE_RATE : Z := 48000.
Definition PLAYBACK_FRAME_MS : Z := 10.
Definition MAX_PENDING_SERVER_CANDIDATES : nat := 80.

(** ** Data model *)

Inductive EventType : Type :=
| Offer | Answer | Candidate | Bye | Chat | System | Assistant.

Inductive Role : Type := RoleUser | RoleAssistant | RoleSystem.

(** An ISO-8601 time stamp is represented by the clock reading (in
    milliseconds) it renders. *)
Record ChatEntry : Type := {
  role : Role;
  message : string;
  timestamp : Z;
}.

Record SignalEvent : Type := {
  evType : EventType;
  evFrom : string;
  evTo : option string;
  evRoomId : string;
  evPayload : Value;
  evAt : Z;
}.

Record AudioFrameLike : Type := {
  frameSamples : list Z;
  frameSampleRate : Z;
  frameChannelCount : option Z;
}.

Record TurnSegment : Type := {
  turnSamples : list Z;
  turnSampleRate : Z;
}.

Record PlaybackItem : Type := {
  itemSamples : list Z;
  itemSampleRate : Z;
  cursor : nat;
}.

Record VadState : Type := {
  inSpeech : bool;
  lastVoiceAt : Z;
  utteranceStartedAt : Z;
  utteranceSampleRate : Z;
  utteranceSamples : Z;
  utteranceFrames : list (list Z);
  preRollFrames : list (list Z);
}.

(** Calls into the WebRTC engine (peer connection, audio source, outbound
    track, audio sinks) and the interval timer, in the order they are made. *)
Inductive EngineCall : Type :=
| AddTrack
| SetRemoteDescription
| AddIceCandidate (candidate : Value)
| CreateAnswer
| SetLocalDescription
| NewSink (sink : nat)
| SinkStop (sink : nat)
| SetInterval
| ClearInterval
| OnData (frame : list Z) (accepted : bool)
| TrackStop
| PcClose.

(** The point at which the in-flight [drainTurnQueue] is suspended. *)
Inductive Worker : Type :=
| Idle
| AwaitTranscript (turn : TurnSegment)
| AwaitReply (transcript : string) (userEntry : ChatEntry)
| AwaitDecode (userEntry reply : ChatEntry) (audioBuffer : list Z) (audioFormat : string).

(** [pc], [source] and [sourceTrack] are handles of the engine; the calls
    made on them are recorded in [engineCalls].  [sink] is the identity of
    the attached sink, [playbackTimer] tells whether the interval handle is
    set, and [worker] is the continuation of [drainTurnQueue]. *)
Record ServerCallSession : Type := {
  roomId : string;
  userPeerId : string;
  botPeerId : string;
  engineCalls : list EngineCall;
  sink : option nat;
  nextSink : nat;
  vad : VadState;
  turnQueue : list TurnSegment;
  processingTurn : bool;
  lastTranscript : string;
  lastTranscriptAt : Z;
  playbackQueue : list PlaybackItem;
  playbackTimer : bool;
  worker : Worker;
}.

(** A line written to an event stream: [event: ready] with its data, or
    [data: JSON.stringify(event)]. *)
Inductive Line : Type :=
| ReadyLine (peerId roomId : string)
| DataLine (event : SignalEvent).

(** A stream controller: the peer and room it was opened for, whether the
    stream still accepts data, and the lines enqueued so far. *)
Record Controller : Type := {
  ctlPeerId : string;
  ctlRoomId : string;
  ctlOpen : bool;
  ctlLines : list Line;
}.

(** The module-level tables.  [subscribers] holds each [Set] of
    controllers in insertion order; [controllers] are the controller
    objects by identity; [emitted] records the calls of [emit];
    [sessions] are the session objects by identity, which closures keep
    alive after [serverSessions] has dropped them. *)
Record World : Type := {
  subscribers : gmap string (list nat);
  controllers : gmap nat Controller;
  emitted : list SignalEvent;
  roomChat : gmap string (list ChatEntry);
  serverSessions : gmap string nat;
  pendingServerCandidates : gmap string (list Value);
  sessions : gmap nat ServerCallSession;
}.

(** ** Field updates *)

Definition set_lastVoiceAt (x : Z) (r : VadState) : VadState :=
  {| inSpeech := inSpeech r; lastVoiceAt := x; utteranceStartedAt :=
     utteranceStartedAt r; utteranceSampleRate := utteranceSampleRate r;
     utteranceSamples := utteranceSamples r; utteranceFrames :=
     utteranceFrames r; preRollFrames := preRollFrames r |}.

Definition set_utteranceSamples (x : Z) (r : VadState) : VadState :=
  {| inSpeech := inSpeech r; lastVoiceAt := lastVoiceAt r;
     utteranceStartedAt := utteranceStartedAt r; utteranceSampleRate :=
     utteranceSampleRate r; utteranceSamples := x; utteranceFrames :=
     utteranceFrames r; preRollFrames := preRollFrames r |}.

Definition set_utteranceFrames (x : list (list Z)) (r : VadState) : VadState :=
  {| inSpeech := inSpeech r; lastVoiceAt := lastVoiceAt r;
     utteranceStartedAt := utteranceStartedAt r; utteranceSampleRate :=
     utteranceSampleRate r; utteranceSamples := utteranceSamples r;
     utteranceFrames := x; preRollFrames := preRollFrames r |}.

Definition set_preRollFrames (x : list (list Z)) (r : VadState) : VadState :=
  {| inSpeech := inSpeech r; lastVoiceAt := lastVoiceAt r;
     utteranceStartedAt := utteranceStartedAt r; utteranceSampleRate :=
     utteranceSampleRate r; utteranceSamples := utteranceSamples r;
     utteranceFrames := utteranceFrames r; preRollFrames := x |}.

Definition set_engineCalls (x : list EngineCall) (r : ServerCallSession) : ServerCallSession :=
  {| roomId := roomId r; userPeerId := userPeerId r; botPeerId := botPeerId
     r; engineCalls := x; sink := sink r; nextSink := nextSink r; vad := vad
     r; turnQueue := turnQueue r; processingTurn := processingTurn r;
     lastTranscript := lastTranscript r; lastTranscriptAt :=
     lastTranscriptAt r; playbackQueue := playbackQueue r; playbackTimer :=
     playbackTimer r; worker := worker r |}.

Definition set_sink (x : option nat) (r : ServerCallSession) : ServerCallSession :=
  {| roomId := roomId r; userPeerId := userPeerId r; botPeerId := botPeerId
     r; engineCalls := engineCalls r; sink := x; nextSink := nextSink r; vad
     := vad r; turnQueue := turnQueue r; processingTurn := processingTurn r;
     lastTranscript := lastTranscript r; lastTranscriptAt :=
     lastTranscriptAt r; playbackQueue := playbackQueue r; playbackTimer :=
     playbackTimer r; worker := worker r |}.

Definition set_nextSink (x : nat) (r : ServerCallSession) : ServerCallSession :=
  {| roomId := roomId r; userPeerId := userPeerId r; botPeerId := botPeerId
     r; engineCalls := engineCalls r; sink := sink r; nextSink := x; vad :=
     vad r; turnQueue := turnQueue r; processingTurn := processingTurn r;
     lastTranscript := lastTranscript r; lastTranscriptAt :=
     lastTranscriptAt r; playbackQueue := playbackQueue r; playbackTimer :=
     playbackTimer r; worker := worker r |}.

Definition set_vad (x : VadState) (r : ServerCallSession) : ServerCallSession :=
  {| roomId := roomId r; userPeerId := userPeerId r; botPeerId := botPeerId
     r; engineCalls := engineCalls r; sink := sink r; nextSink := nextSink
     r; vad := x; turnQueue := turnQueue r; processingTurn := processingTurn
     r; lastTranscript := lastTranscript r; lastTranscriptAt :=
     lastTranscriptAt r; playbackQueue := playbackQueue r; playbackTimer :=
     playbackTimer r; worker := worker r |}.

Definition set_turnQueue (x : list TurnSegment) (r : ServerCallSession) : ServerCallSession :=
  {| roomId := roomId r; userPeerId := userPeerId r; botPeerId := botPeerId
     r; engineCalls := engineCalls r; sink := sink r; nextSink := nextSink
     r; vad := vad r; turnQueue := x; processingTurn := processingTurn r;
     lastTranscript := lastTranscript r; lastTranscriptAt :=
     lastTranscriptAt r; playbackQueue := playbackQueue r; playbackTimer :=
     playbackTimer r; worker := worker r |}.

Definition set_processingTurn (x : bool) (r : ServerCallSession) : ServerCallSession :=
  {| roomId := roomId r; userPeerId := userPeerId r; botPeerId := botPeerId
     r; engineCalls := engineCalls r; sink := sink r; nextSink := nextSink
     r; vad := vad r; turnQueue := turnQueue r; processingTurn := x;
     lastTranscript := lastTranscript r; lastTranscriptAt :=
     lastTranscriptAt r; playbackQueue := playbackQueue r; playbackTimer :=
     playbackTimer r; worker := worker r |}.

Definition set_lastTranscript (x : string) (r : ServerCallSession) : ServerCallSession :=
  {| roomId := roomId r; userPeerId := userPeerId r; botPeerId := botPeerId
     r; engineCalls := engineCalls r; sink := sink r; nextSink := nextSink
     r; vad := vad r; turnQueue := turnQueue r; processingTurn :=
     processingTurn r; lastTranscript := x; lastTranscriptAt :=
     lastTranscriptAt r; playbackQueue := playbackQueue r; playbackTimer :=
     playbackTimer r; worker := worker r |}.

Definition set_lastTranscriptAt (x : Z) (r : ServerCallSession) : ServerCallSession :=
  {| roomId := roomId r; userPeerId := userPeerId r; botPeerId := botPeerId
     r; engineCalls := engineCalls r; sink := sink r; nextSink := nextSink
     r; vad := vad r; turnQueue := turnQueue r; processingTurn :=
     processingTurn r; lastTranscript := lastTranscript r; lastTranscriptAt
     := x; playbackQueue := playbackQueue r; playbackTimer := playbackTimer
     r; worker := worker r |}.

Definition set_playbackQueue (x : list PlaybackItem) (r : ServerCallSession) : ServerCallSession :=
  {| roomId := roomId r; userPeerId := userPeerId r; botPeerId := botPeerId
     r; engineCalls := engineCalls r; sink := sink r; nextSink := nextSink
     r; vad := vad r; turnQueue := turnQueue r; processingTurn :=
     processingTurn r; lastTranscript := lastTranscript r; lastTranscriptAt
     := lastTranscriptAt r; playbackQueue := x; playbackTimer :=
     playbackTimer r; worker := worker r |}.

Definition set_playbackTimer (x : bool) (r : ServerCallSession) : ServerCallSession :=
  {| roomId := roomId r; userPeerId := userPeerId r; botPeerId := botPeerId
     r; engineCalls := engineCalls r; sink := sink r; nextSink := nextSink
     r; vad := vad r; turnQueue := turnQueue r; processingTurn :=
     processingTurn r; lastTranscript := lastTranscript r; lastTranscriptAt
     := lastTranscriptAt r; playbackQueue := playbackQueue r; playbackTimer
     := x; worker := worker r |}.

Definition set_worker (x : Worker) (r : ServerCallSession) : ServerCallSession :=
  {| roomId := roomId r; userPeerId := userPeerId r; botPeerId := botPeerId
     r; engineCalls := engineCalls r; sink := sink r; nextSink := nextSink
     r; vad := vad r; turnQueue := turnQueue r; processingTurn :=
     processingTurn r; lastTranscript := lastTranscript r; lastTranscriptAt
     := lastTranscriptAt r; playbackQueue := playbackQueue r; playbackTimer
     := playbackTimer r; worker := x |}.

Definition set_subscribers (x : gmap string (list nat)) (r : World) : World :=
  {| subscribers := x; controllers := controllers r; emitted := emitted r;
     roomChat := roomChat r; serverSessions := serverSessions r;
     pendingServerCandidates := pendingServerCandidates r; sessions :=
     sessions r |}.

Definition set_controllers (x : gmap nat Controller) (r : World) : World :=
  {| subscribers := subscribers r; controllers := x; emitted := emitted r;
     roomChat := roomChat r; serverSessions := serverSessions r;
     pendingServerCandidates := pendingServerCandidates r; sessions :=
     sessions r |}.

Definition set_emitted (x : list SignalEvent) (r : World) : World :=
  {| subscribers := subscribers r; controllers := controllers r; emitted :=
     x; roomChat := roomChat r; serverSessions := serverSessions r;
     pendingServerCandidates := pendingServerCandidates r; sessions :=
     sessions r |}.

Definition set_roomChat (x : gmap string (list ChatEntry)) (r : World) : World :=
  {| subscribers := subscribers r; controllers := controllers r; emitted :=
     emitted r; roomChat := x; serverSessions := serverSessions r;
     pendingServerCandidates := pendingServerCandidates r; sessions :=
     sessions r |}.

Definition set_serverSessions (x : gmap string nat) (r : World) : World :=
  {| subscribers := subscribers r; controllers := controllers r; emitted :=
     emitted r; roomChat := roomChat r; serverSessions := x;
     pendingServerCandidates := pendingServerCandidates r; sessions :=
     sessions r |}.

Definition set_pendingServerCandidates (x : gmap string (list Value)) (r : World) : World :=
  {| subscribers := subscribers r; controllers := controllers r; emitted :=
     emitted r; roomChat := roomChat r; serverSessions := serverSessions r;
     pendingServerCandidates := x; sessions := sessions r |}.

Definition set_sessions (x : gmap nat ServerCallSession) (r : World) : World :=
  {| subscribers := subscribers r; controllers := controllers r; emitted :=
     emitted r; roomChat := roomChat r; serverSessions := serverSessions r;
     pendingServerCandidates := pendingServerCandidates r; sessions := x |}.

(** ** Signaling hub *)

Definition roomPeerKey (roomId peerId : string) : string :=
  roomId +:+ "::" +:+ peerId.

Definition subscriberKey (peerId roomId : string) : string :=
  roomId +:+ "::" +:+ peerId.

(** [controller.enqueue(line)]: throws once the stream is closed or broken. *)
Definition enqueue (line : Line) (c : Controller) : Completion Controller :=
  if ctlOpen c
  then Normal {| ctlPeerId := ctlPeerId c; ctlRoomId := ctlRoomId c;
                 ctlOpen := true; ctlLines := ctlLines c ++ [line] |}
  else Throw TypeError.

(** One turn of the loop over [sinks] in [emit]: a dead stream is ignored. *)
Definition enqueueTo (line : Line) (w : World) (sink : nat) : World :=
  match controllers w !! sink with
  | Some c =>
      try_catch
        (c' ← enqueue line c; Normal (set_controllers (<[sink := c']> (controllers w)) w))
        (fun _ => w)
  | None => w
  end.

Definition emit (peerId roomId : string) (event : SignalEvent) (w : World) : World :=
  let w := set_emitted (emitted w ++ [event]) w in
  match subscribers w !! subscriberKey peerId roomId with
  | None | Some [] => w
  | Some sinks => foldl (enqueueTo (DataLine event)) w sinks
  end.

Definition systemPayload (message : string) : Value :=
  VObject {[ "message"%string := VString message ]}.

(** [now] is the reading of [new Date()]. *)
Definition emitSystem (peerId roomId message : string) (now : Z) (w : World) : World :=
  emit peerId roomId
       {| evType := System; evFrom := "server"; evTo := Some peerId;
          evRoomId := roomId; evAt := now; evPayload := systemPayload message |}
       w.

(** [createSignalEventStream(peerId, roomId)] and the [start] callback of
    the stream; [ctl] is the identity of the new controller. *)
Definition createSignalEventStream (ctl : nat) (peerId roomId : string) (now : Z)
    (w : World) : World :=
  let key := subscriberKey peerId roomId in
  let set := default [] (subscribers w !! key) in
  let set := if bool_decide (ctl ∈ set) then set else set ++ [ctl] in
  let w := set_subscribers (<[key := set]> (subscribers w)) w in
  let controller :=
    {| ctlPeerId := peerId; ctlRoomId := roomId; ctlOpen := true;
       ctlLines := [ReadyLine peerId roomId] |} in
  let w := set_controllers (<[ctl := controller]> (controllers w)) w in
  emitSystem peerId roomId "signaling_connected" now w.

(** The [cancel] callback of the stream whose controller is [ctl]. *)
Definition cancelStream (ctl : nat) (w : World) : World :=
  match controllers w !! ctl with
  | None => w
  | Some c =>
      let key := subscriberKey (ctlPeerId c) (ctlRoomId c) in
      match subscribers w !! key with
      | None => w
      | Some set =>
          let set := filter (fun x => x ≠ ctl) set in
          match set with
          | [] => set_subscribers (delete key (subscribers w)) w
          | _ => set_subscribers (<[key := set]> (subscribers w)) w
          end
      end
  end.

Definition isServerBotPeer (peerId : string) : bool :=
  startsWith peerId BOT_PEER_PREFIX.

Record SessionDescription : Type := {
  sdType : string;
  sdp : string;
}.

Definition asSessionDescription (payload : Value) : option SessionDescription :=
  if negb (isObject payload) then None
  else
    match getField "type" payload, getField "sdp" payload with
    | VString ty, VString sd =>
        if negb (String.eqb ty "offer") && negb (String.eqb ty "answer")
           && negb (String.eqb ty "pranswer")
        then None
        else Some {| sdType := ty; sdp := sd |}
    | _, _ => None
    end.

Definition asIceCandidate (payload : Value) : option Value :=
  if negb (isObject payload) then None
  else
    match getField "candidate" payload with
    | VString _ => Some payload
    | _ => None
    end.

(** ** Chat log *)

(** [list.slice(-n)], for a positive [n] *)
Definition sliceLast {A} (n : nat) (l : list A) : list A :=
  drop (length l - n) l.

Definition addChatEntry (roomId : string) (entry : ChatEntry) (w : World) : World :=
  let existing := default [] (roomChat w !! roomId) in
  let next := sliceLast MAX_CHAT_HISTORY (existing ++ [entry]) in
  set_roomChat (<[roomId := next]> (roomChat w)) w.

Definition getChatHistory (roomId : string) (w : World) : list ChatEntry :=
  default [] (roomChat w !! roomId).

(** ** Collaborators of the turn pipeline *)

(** The local speech-to-text binary: it fails (missing, non-zero exit,
    30 s timeout, unwritable input file) or prints [stdout]. *)
Inductive LocalStt : Type :=
| SttFailed
| SttStdout (stdout : string).

(** One request to the remote transcription service: the request or the
    decoding of its body throws, the status is not ok, or the body is
    [body]. *)
Inductive RemoteStt : Type :=
| RemoteThrows
| RemoteNotOk
| RemoteBody (body : Value).

Record SttCollaborators : Type := {
  sttLocal : LocalStt;
  sttApiKey : bool;
  sttRemote : nat -> RemoteStt;
}.

(** One turn of the loop over [models] in [transcribeWithOpenAi]. *)
Definition remoteAttempt (r : RemoteStt) : option string :=
  match r with
  | RemoteBody body =>
      if nullish body then None
      else
        match getField "text" body with
        | VString text => if truthy (trim text) then Some (trim text) else None
        | _ => None
        end
  | _ => None
  end.

Definition transcribeWithOpenAi (c : SttCollaborators) : option string :=
  if negb (sttApiKey c) then None
  else
    match remoteAttempt (sttRemote c 0%nat) with
    | Some text => Some text
    | None => remoteAttempt (sttRemote c 1%nat)
    end.

Definition transcribeAudioBuffer (c : SttCollaborators) : option string :=
  match sttLocal c with
  | SttStdout stdout =>
      let transcript := trim stdout in
      if truthy transcript then Some transcript else transcribeWithOpenAi c
  | SttFailed => transcribeWithOpenAi c
  end.

Definition transcribePcmTurn (turn : TurnSegment) (c : SttCollaborators)
  : Completion (option string) :=
  wavBuffer ← Audio.createWavFromPcm16Mono (turnSamples turn) (turnSampleRate turn);
  Normal (transcribeAudioBuffer c).

(** The language-model endpoint: the request fails (network error, 30 s
    abort), or a response arrives whose body is JSON or not. *)
Inductive LlmResponse : Type :=
| LlmUnreachable
| LlmHttp (ok : bool) (body : option Value).

(** [json.output?.[0]?.content?.[0]?.text?.trim()] *)
Definition replyTextOf (json : Value) : Completion (option string) :=
  if nullish json then Throw TypeError
  else
    let v := getField "output" json in
    if nullish v then Normal None else
    let v := index0 v in
    if nullish v then Normal None else
    let v := getField "content" v in
    if nullish v then Normal None else
    let v := index0 v in
    if nullish v then Normal None else
    let v := getField "text" v in
    if nullish v then Normal None else
    match v with
    | VString text => Normal (Some (trim text))
    | _ => Throw TypeError
    end.

Definition requestLlmReply (input : string) (res : LlmResponse) : Completion string :=
  match res with
  | LlmUnreachable => Throw (Failure "fetch failed")
  | LlmHttp ok body =>
      if negb ok then Throw (Failure "OpenClaw brain failed")
      else
        match body with
        | None => Throw (Failure "invalid JSON")
        | Some json =>
            replyText ← replyTextOf json;
            Normal (match replyText with
                    | Some text => if truthy text then text else "Proceeding."
                    | None => "Proceeding."
                    end)
        end
  end%string.

(** The speech synthesisers and the language model, as functions of the
    text they are given: the local binary yields the file it wrote or
    fails; the remote service yields the bytes of a successful response. *)
Record ReplyCollaborators : Type := {
  llm : string -> LlmResponse;
  ttsLocal : string -> option (list Z);
  ttsApiKey : bool;
  ttsFormat : string;
  ttsRemote : string -> option (list Z);
}.

Inductive CollaboratorCall : Type :=
| CallLlm (input : string)
| CallLocalTts (text : string)
| CallRemoteTts (text : string).

Definition tryJarvisTtsBuffer (text : string) (c : ReplyCollaborators) : option (list Z) :=
  ttsLocal c text.

Definition tryOpenAiTtsBuffer (text : string) (c : ReplyCollaborators)
  : option (list Z * string) :=
  if negb (ttsApiKey c) then None
  else
    match ttsRemote c text with
    | Some buffer => Some (buffer, ttsFormat c)
    | None => None
    end.

(** [audioBase64] holds the bytes whose base64 rendering is returned. *)
Record SynthResult : Type := {
  text : string;
  audioBuffer : option (list Z);
  audioFormat : string;
  audioBase64 : option (list Z);
}.

(** The result, and the collaborators called on the way, in order. *)
Definition synthesizeAssistantReply (input : string) (c : ReplyCollaborators)
  : Completion (SynthResult * list CollaboratorCall) :=
  let text := "Proceeding."%string in
  let text :=
    try_catch (requestLlmReply input (llm c input))
              (fun _ => "Comms degraded. Retry in a moment."%string) in
  let calls := [CallLlm input; CallLocalTts text] in
  let audioBuffer := tryJarvisTtsBuffer text c in
  let audioFormat := "ogg"%string in
  let '(audioBuffer, audioFormat, calls) :=
    match audioBuffer with
    | Some _ => (audioBuffer, audioFormat, calls)
    | None =>
        let openAiTts := tryOpenAiTtsBuffer text c in
        (fst <$> openAiTts, default audioFormat (snd <$> openAiTts),
         if ttsApiKey c then calls ++ [CallRemoteTts text] else calls)
    end in
  Normal ({| text := text; audioBuffer := audioBuffer; audioFormat := audioFormat;
             audioBase64 := audioBuffer |}, calls).

(** [ffmpeg] is the media decoder as a function of the input file and its
    extension: it fails, or leaves raw bytes in the output file. *)
Definition decodeAudioToPcm16Mono (audioBuffer : list Z) (inputExt : string)
    (ffmpeg : list Z -> string -> option (list Z)) : option (list Z) :=
  Audio.int16View <$> ffmpeg audioBuffer inputExt.

(** ** Per-session state: voice activity detection and the turn queue *)

Definition logCall (c : EngineCall) (s : ServerCallSession) : ServerCallSession :=
  set_engineCalls (engineCalls s ++ [c]) s.

Definition pushVadFrame (vad : VadState) (frame : list Z) : VadState :=
  let pre := preRollFrames vad ++ [frame] in
  set_preRollFrames (if (PRE_ROLL_FRAMES <? length pre)%nat then drop 1 pre else pre) vad.

Definition resetVad (vad : VadState) : VadState :=
  {| inSpeech := false; lastVoiceAt := 0; utteranceStartedAt := 0;
     utteranceSampleRate := 0; utteranceSamples := 0; utteranceFrames := [];
     preRollFrames := preRollFrames vad |}.

(** The [finally] block of [drainTurnQueue]; the worker is gone. *)
Definition drainFinally (s : ServerCallSession) : ServerCallSession :=
  set_worker Idle (set_processingTurn false s).

(** The head of the [while] loop of [drainTurnQueue]: leave the loop when
    the queue is empty, otherwise take the oldest turn and suspend on
    [await transcribePcmTurn(turn)]. *)
Definition drainNext (s : ServerCallSession) : ServerCallSession :=
  match turnQueue s with
  | [] => drainFinally s
  | turn :: rest => set_worker (AwaitTranscript turn) (set_turnQueue rest s)
  end.

(** [drainTurnQueue(session)] up to its first suspension. *)
Definition drainTurnQueue (s : ServerCallSession) : ServerCallSession :=
  if processingTurn s then s
  else drainNext (set_processingTurn true s).

Definition enqueueTurn (s : ServerCallSession) (turn : TurnSegment) : ServerCallSession :=
  let queue := turnQueue s ++ [turn] in
  let s := set_turnQueue (if (3 <? length queue)%nat then drop 1 queue else queue) s in
  drainTurnQueue s.

Definition utteranceMs (vad : VadState) : Q :=
  (inject_Z (utteranceSamples vad) / inject_Z (utteranceSampleRate vad) * 1000)%Q.

Definition Qltb (a b : Q) : bool := negb (Qle_bool b a).

Definition maybeFinalizeUtterance (now : Z) (ws : World * ServerCallSession)
  : World * ServerCallSession :=
  let '(w, session) := ws in
  let vad0 := vad session in
  if negb (inSpeech vad0) then ws
  else if (utteranceSampleRate vad0 =? 0) || (utteranceSamples vad0 =? 0) then ws
  else
    let utteranceMs := utteranceMs vad0 in
    let silenceMs := now - lastVoiceAt vad0 in
    if Qltb utteranceMs (inject_Z TURN_MAX_MS)
       && ((silenceMs <? TURN_SILENCE_MS) || Qltb utteranceMs (inject_Z TURN_MIN_MS))
    then ws
    else
      let samples := Audio.concatInt16 (utteranceFrames vad0) in
      let sampleRate := utteranceSampleRate vad0 in
      let session := set_vad (resetVad vad0) session in
      if (length samples =? 0)%nat || Qltb utteranceMs (inject_Z TURN_MIN_MS)
      then (w, session)
      else
        (emitSystem (userPeerId session) (roomId session) "voice_turn_detected" now w,
         enqueueTurn session {| turnSamples := samples; turnSampleRate := sampleRate |}).

Definition handleInboundAudioFrame (frame : AudioFrameLike) (now : Z)
    (ws : World * ServerCallSession) : World * ServerCallSession :=
  let '(w, session) := ws in
  let sampleRate := frameSampleRate frame in
  if (sampleRate <? 8000) || (96000 <? sampleRate) then ws
  else
    let channelCount := default 1 (frameChannelCount frame) in
    let monoFrame := Audio.downmixToMono (frameSamples frame) channelCount in
    let session := set_vad (pushVadFrame (vad session) monoFrame) session in
    let session :=
      if Audio.rmsAtLeast monoFrame VAD_START_RMS && negb (inSpeech (vad session))
      then
        let frames := preRollFrames (vad session) in
        set_vad {| inSpeech := true; lastVoiceAt := now; utteranceStartedAt := now;
                   utteranceSampleRate := sampleRate;
                   utteranceFrames := frames;
                   utteranceSamples :=
                     foldl (fun sum item => sum + Z.of_nat (length item)) 0 frames;
                   preRollFrames := preRollFrames (vad session) |}
                session
      else session in
    if inSpeech (vad session) then
      let v := vad session in
      let v := set_utteranceFrames (utteranceFrames v ++ [monoFrame]) v in
      let v := set_utteranceSamples (utteranceSamples v + Z.of_nat (length monoFrame)) v in
      let v := if Audio.rmsAtLeast monoFrame VAD_HOLD_RMS then set_lastVoiceAt now v else v in
      maybeFinalizeUtterance now (w, set_vad v session)
    else (w, session).

(** ** Playback pacer *)

(** [Math.round((PLAYBACK_SAMPLE_RATE * PLAYBACK_FRAME_MS) / 1000)] *)
Definition frameSize : nat :=
  Z.to_nat ((2 * (PLAYBACK_SAMPLE_RATE * PLAYBACK_FRAME_MS) + 1000) / (2 * 1000)).

Definition startPlaybackLoop (s : ServerCallSession) : ServerCallSession :=
  if playbackTimer s then s
  else set_playbackTimer true (logCall SetInterval s).

Definition enqueueAssistantAudio (s : ServerCallSession) (samples : list Z)
  : ServerCallSession :=
  match samples with
  | [] => s
  | _ =>
      let item := {| itemSamples := samples; itemSampleRate := PLAYBACK_SAMPLE_RATE;
                     cursor := 0 |} in
      startPlaybackLoop (set_playbackQueue (playbackQueue s ++ [item]) s)
  end.

(** [samples.subarray(from, to)] *)
Definition subarray (samples : list Z) (from to : nat) : list Z :=
  take (to - from) (drop from samples).

Definition stopPlaybackTimer (s : ServerCallSession) : ServerCallSession :=
  if playbackTimer s then set_playbackTimer false (logCall ClearInterval s) else s.

(** The interval callback of [startPlaybackLoop]; [accepted] tells whether
    [source.onData] returns or throws. *)
Definition playbackTick (accepted : bool) (s : ServerCallSession) : ServerCallSession :=
  match playbackQueue s with
  | [] => stopPlaybackTimer s
  | current :: rest =>
      if (length (itemSamples current) <=? cursor current)%nat
      then set_playbackQueue rest s
      else
        let nextEnd := Nat.min (length (itemSamples current)) (cursor current + frameSize) in
        let frame := subarray (itemSamples current) (cursor current) nextEnd in
        let current := {| itemSamples := itemSamples current;
                          itemSampleRate := itemSampleRate current;
                          cursor := nextEnd |} in
        let s := set_playbackQueue (current :: rest) s in
        let frame :=
          if (length frame <? frameSize)%nat
          then Audio.typedSet frame 0 (replicate frameSize 0)
          else frame in
        let s := logCall (OnData frame accepted) s in
        if accepted then s
        else stopPlaybackTimer (set_playbackQueue [] s)
  end.

(** ** Turn worker *)

(** What the worker is resumed with: the collaborators' answers to the
    pending call, or the rejection of the pending [await]. *)
Inductive Resumption : Type :=
| Transcribed (c : SttCollaborators)
| Replied (c : ReplyCollaborators)
| Decoded (ffmpeg : list Z -> string -> option (list Z))
| Rejected (e : Exn).

Definition roleName (r : Role) : string :=
  match r with
  | RoleUser => "user"
  | RoleAssistant => "assistant"
  | RoleSystem => "system"
  end.

Definition chatEntryValue (e : ChatEntry) : Value :=
  VObject {[ "role"%string := VString (roleName (role e));
             "message"%string := VString (message e);
             "timestamp"%string := VNumber (timestamp e) ]}.

Definition assistantTurnPayload (turnId : string) (userEntry reply : ChatEntry) : Value :=
  VObject {[ "turnId"%string := VString turnId;
             "userEntry"%string := chatEntryValue userEntry;
             "reply"%string := chatEntryValue reply;
             "audioBase64"%string := VNull;
             "audioMimeType"%string := VNull ]}.

(** The end of one turn of the loop: publish the assistant event, then go
    back to the head of the loop. *)
Definition publishTurn (userEntry reply : ChatEntry) (now : Z) (turnId : string)
    (ws : World * ServerCallSession) : World * ServerCallSession :=
  let '(w, session) := ws in
  (emit (userPeerId session) (roomId session)
        {| evType := Assistant; evFrom := "server"; evTo := Some (userPeerId session);
           evRoomId := roomId session;
           evPayload := assistantTurnPayload turnId userEntry reply; evAt := now |}
        w,
   drainNext session).

(** [drainTurnQueue] from the pending [await] to the next one (or to its
    end); [now] is the clock reading and [turnId] the value of
    [generateId()] in this stretch. *)
Definition resumeWorker (r : Resumption) (now : Z) (turnId : string)
    (ws : World * ServerCallSession) : World * ServerCallSession :=
  let '(w, session) := ws in
  match worker session, r with
  | Idle, _ => ws
  | _, Rejected _ => (w, drainFinally session)
  | AwaitTranscript turn, Transcribed c =>
      match transcribePcmTurn turn c with
      | Throw _ => (w, drainFinally session)
      | Normal result =>
          match trim <$> result with
          | None =>
              (emitSystem (userPeerId session) (roomId session) "transcription_empty" now w,
               drainNext session)
          | Some transcript =>
              if negb (truthy transcript) then
                (emitSystem (userPeerId session) (roomId session) "transcription_empty" now w,
                 drainNext session)
              else if String.eqb transcript (lastTranscript session)
                      && (now - lastTranscriptAt session <? 2500)
              then (w, drainNext session)
              else
                let session := set_lastTranscript transcript session in
                let session := set_lastTranscriptAt now session in
                let userEntry :=
                  {| role := RoleUser; message := transcript; timestamp := now |} in
                (addChatEntry (roomId session) userEntry w,
                 set_worker (AwaitReply transcript userEntry) session)
          end
      end
  | AwaitReply transcript userEntry, Replied c =>
      match synthesizeAssistantReply transcript c with
      | Throw _ => (w, drainFinally session)
      | Normal (result, _) =>
          let reply :=
            {| role := RoleAssistant; message := text result; timestamp := now |} in
          let w := addChatEntry (roomId session) reply w in
          match audioBuffer result with
          | Some buffer =>
              (w, set_worker (AwaitDecode userEntry reply buffer (audioFormat result)) session)
          | None => publishTurn userEntry reply now turnId (w, session)
          end
      end
  | AwaitDecode userEntry reply buffer format, Decoded ffmpeg =>
      let pcm := decodeAudioToPcm16Mono buffer format ffmpeg in
      let session :=
        match pcm with
        | Some ((_ :: _) as pcm) => enqueueAssistantAudio session pcm
        | _ => session
        end in
      publishTurn userEntry reply now turnId (w, session)
  | _, _ => ws
  end.

(** ** Session manager *)

(** What [closeSession] does to the session object it found; stopping a
    sink is taken not to throw, and what [sourceTrack.stop()] and
    [pc.close()] throw is swallowed. *)
Definition teardown (session : ServerCallSession) : ServerCallSession :=
  let session := set_vad (resetVad (vad session)) session in
  let session :=
    match sink session with
    | Some k => logCall (SinkStop k) session
    | None => session
    end in
  let session := set_sink None session in
  let session := stopPlaybackTimer session in
  let session := set_playbackQueue [] session in
  let session := logCall TrackStop session in
  logCall PcClose session.

(** Run [f] on the session object [ref] and store what it leaves. *)
Definition onSession (ref : nat)
    (f : World * ServerCallSession -> World * ServerCallSession) (w : World) : World :=
  match sessions w !! ref with
  | None => w
  | Some session =>
      let '(w', session') := f (w, session) in
      set_sessions (<[ref := session']> (sessions w')) w'
  end.

Definition closeSession (roomId userPeerId : string) (w : World) : World :=
  let key := roomPeerKey roomId userPeerId in
  match serverSessions w !! key with
  | None => w
  | Some ref =>
      let w := set_pendingServerCandidates (delete key (pendingServerCandidates w)) w in
      let w := set_serverSessions (delete key (serverSessions w)) w in
      onSession ref (fun '(w, session) => (w, teardown session)) w
  end.

Definition newSession (roomId userPeerId botPeerId : string) : ServerCallSession :=
  {| roomId := roomId; userPeerId := userPeerId; botPeerId := botPeerId;
     engineCalls := [AddTrack]; sink := None; nextSink := 0;
     vad := {| inSpeech := false; lastVoiceAt := 0; utteranceStartedAt := 0;
               utteranceSampleRate := 0; utteranceSamples := 0;
               utteranceFrames := []; preRollFrames := [] |};
     turnQueue := []; processingTurn := false;
     lastTranscript := ""; lastTranscriptAt := 0;
     playbackQueue := []; playbackTimer := false; worker := Idle |}.

(** [createServerSession] up to [await loadWrtc()]. *)
Definition createServerSession (roomId userPeerId botPeerId : string) (w : World) : World :=
  closeSession roomId userPeerId w.

(** [createServerSession] after [loadWrtc()] has yielded the runtime; [ref]
    is the identity of the new session object.  The caller then starts
    [setRemoteDescription]. *)
Definition sessionCreated (ref : nat) (roomId userPeerId botPeerId : string) (w : World)
  : World :=
  let session := logCall SetRemoteDescription (newSession roomId userPeerId botPeerId) in
  let w := set_sessions (<[ref := session]> (sessions w)) w in
  set_serverSessions (<[roomPeerKey roomId userPeerId := ref]> (serverSessions w)) w.

Definition getServerSession (roomId userPeerId : string) (w : World) : option nat :=
  serverSessions w !! roomPeerKey roomId userPeerId.

(** [handleServerBotSignal(event)] up to its first suspension. *)
Definition handleServerBotSignal (event : SignalEvent) (now : Z) (w : World) : World :=
  let key := roomPeerKey (evRoomId event) (evFrom event) in
  match evType event with
  | Bye => closeSession (evRoomId event) (evFrom event) w
  | Candidate =>
      match asIceCandidate (evPayload event) with
      | None => w
      | Some candidate =>
          match getServerSession (evRoomId event) (evFrom event) w with
          | None =>
              let queue := default [] (pendingServerCandidates w !! key) ++ [candidate] in
              let queue :=
                if (MAX_PENDING_SERVER_CANDIDATES <? length queue)%nat
                then drop 1 queue else queue in
              set_pendingServerCandidates (<[key := queue]> (pendingServerCandidates w)) w
          | Some ref =>
              onSession ref (fun '(w, s) => (w, logCall (AddIceCandidate candidate) s)) w
          end
      end
  | Offer =>
      match asSessionDescription (evPayload event) with
      | Some offer =>
          if String.eqb (sdType offer) "offer"
          then createServerSession (evRoomId event) (evFrom event)
                 (default (BOT_PEER_PREFIX +:+ "server") (evTo event)) w
          else emitSystem (evFrom event) (evRoomId event) "invalid_offer_payload" now w
      | None => emitSystem (evFrom event) (evRoomId event) "invalid_offer_payload" now w
      end
  | _ => w
  end.

(** The rest of the offer handling, one stretch between suspensions each. *)

(** [loadWrtc()] yielded no runtime. *)
Definition wrtcUnavailable (roomId userPeerId : string) (now : Z) (w : World) : World :=
  emitSystem userPeerId roomId "wrtc_unavailable" now w.

(** The buffered candidates are handed to the peer connection of [ref]. *)
Definition applyQueuedCandidates (ref : nat) (roomId from : string) (w : World) : World :=
  match pendingServerCandidates w !! roomPeerKey roomId from with
  | Some ((_ :: _) as queued) =>
      onSession ref
        (fun '(w, s) => (w, foldl (fun s c => logCall (AddIceCandidate c) s) s queued)) w
  | _ => w
  end.

(** [pendingServerCandidates.delete(key)] after the loop over [queued]. *)
Definition forgetQueuedCandidates (roomId from : string) (w : World) : World :=
  set_pendingServerCandidates
    (delete (roomPeerKey roomId from) (pendingServerCandidates w)) w.

(** [createAnswer], [setLocalDescription] and the [answer] event. *)
Definition sendAnswer (ref : nat) (roomId from : string) (description : Value) (now : Z)
    (w : World) : World :=
  onSession ref
    (fun '(w, s) =>
       (emit from roomId
             {| evType := Answer; evFrom := botPeerId s; evTo := Some from;
                evRoomId := roomId; evPayload := description; evAt := now |} w,
        logCall SetLocalDescription (logCall CreateAnswer s))) w.

(** The [catch] block of the offer handling. *)
Definition offerFailed (roomId from : string) (now : Z) (w : World) : World :=
  closeSession roomId from (emitSystem from roomId "offer_handling_failed" now w).

(** ** Callbacks of the peer connection *)

Inductive ConnectionState : Type :=
| StateNew | StateConnecting | StateConnected | StateDisconnected | StateFailed | StateClosed.

Definition onicecandidate (ref : nat) (candidate : option Value) (now : Z) (w : World) : World :=
  match candidate with
  | None => w
  | Some candidate =>
      onSession ref
        (fun '(w, s) =>
           (emit (userPeerId s) (roomId s)
                 {| evType := Candidate; evFrom := botPeerId s; evTo := Some (userPeerId s);
                    evRoomId := roomId s; evPayload := candidate; evAt := now |} w, s)) w
  end.

Definition onconnectionstatechange (ref : nat) (state : ConnectionState) (now : Z)
    (w : World) : World :=
  match sessions w !! ref with
  | None => w
  | Some s =>
      match state with
      | StateFailed | StateClosed => closeSession (roomId s) (userPeerId s) w
      | StateDisconnected =>
          emitSystem (userPeerId s) (roomId s) "connection_disconnected" now w
      | _ => w
      end
  end.

Definition ontrack (ref : nat) (isAudio : bool) (w : World) : World :=
  if negb isAudio then w
  else
    onSession ref
      (fun '(w, s) =>
         let s := match sink s with Some k => logCall (SinkStop k) s | None => s end in
         let k := nextSink s in
         (w, set_nextSink (S k) (set_sink (Some k) (logCall (NewSink k) s)))) w.

(** The [ended] listener of the track whose sink is [k]. *)
Definition ontrackended (ref : nat) (k : nat) (w : World) : World :=
  onSession ref
    (fun '(w, s) =>
       let s := logCall (SinkStop k) s in
       (w, if bool_decide (sink s = Some k) then set_sink None s else s)) w.

(** [verifyVoiceTooling], given what the probes found. *)
Definition verifyVoiceTooling (ref : nat) (sttReady ttsReady ffmpegReady apiKey : bool)
    (now : Z) (w : World) : World :=
  match sessions w !! ref with
  | None => w
  | Some s =>
      let w := if negb sttReady && negb apiKey
               then emitSystem (userPeerId s) (roomId s) "stt_binary_missing" now w else w in
      let w := if negb ttsReady && negb apiKey
               then emitSystem (userPeerId s) (roomId s) "tts_binary_missing" now w else w in
      if negb ffmpegReady
      then emitSystem (userPeerId s) (roomId s) "ffmpeg_missing" now w else w
  end.

(** ** Relay *)

(** [relaySignal(event)] up to its first suspension. *)
Definition relaySignal (event : SignalEvent) (now : Z) (w : World) : World :=
  let w :=
    match evType event with
    | Bye =>
        let w := closeSession (evRoomId event) (evFrom event) w in
        match evTo event with
        | Some to => if truthy to then closeSession (evRoomId event) to w else w
        | None => w
        end
    | _ => w
    end in
  match evTo event with
  | Some to =>
      if truthy to && isServerBotPeer to then handleServerBotSignal event now w
      else if negb (truthy to) then w
      else emit to (evRoomId event) event w
  | None => w
  end.

(** ** The server as a transition system *)

(** Every stretch of code that runs without suspension is one operation;
    an execution of the server is a sequence of operations. *)
Inductive Op : Type :=
| OpenEventStream (ctl : nat) (peerId roomId : string) (now : Z)
| CancelEventStream (ctl : nat)
| StreamBroken (ctl : nat)
| RelaySignal (event : SignalEvent) (now : Z)
| PostChat (roomId : string) (entry : ChatEntry)
| WrtcUnavailable (roomId userPeerId : string) (now : Z)
| SessionCreated (ref : nat) (roomId userPeerId botPeerId : string)
| QueuedCandidatesApplied (ref : nat) (roomId from : string)
| QueuedCandidatesForgotten (roomId from : string)
| AnswerSent (ref : nat) (roomId from : string) (description : Value) (now : Z)
| OfferFailed (roomId from : string) (now : Z)
| IceCandidateFound (ref : nat) (candidate : option Value) (now : Z)
| ConnectionStateChanged (ref : nat) (state : ConnectionState) (now : Z)
| TrackArrived (ref : nat) (isAudio : bool)
| TrackEnded (ref : nat) (k : nat)
| ToolingVerified (ref : nat) (sttReady ttsReady ffmpegReady apiKey : bool) (now : Z)
| AudioFrame (ref : nat) (frame : AudioFrameLike) (now : Z)
| PlaybackTick (ref : nat) (accepted : bool)
| WorkerResumed (ref : nat) (r : Resumption) (now : Z) (turnId : string).

Definition breakStream (ctl : nat) (w : World) : World :=
  match controllers w !! ctl with
  | None => w
  | Some c =>
      set_controllers
        (<[ctl := {| ctlPeerId := ctlPeerId c; ctlRoomId := ctlRoomId c;
                     ctlOpen := false; ctlLines := ctlLines c |}]> (controllers w)) w
  end.

Definition step (w : World) (op : Op) : World :=
  match op with
  | OpenEventStream ctl peerId roomId now =>
      match controllers w !! ctl with
      | None => createSignalEventStream ctl peerId roomId now w
      | Some _ => w
      end
  | CancelEventStream ctl => cancelStream ctl w
  | StreamBroken ctl => breakStream ctl w
  | RelaySignal event now => relaySignal event now w
  | PostChat roomId entry => addChatEntry roomId entry w
  | WrtcUnavailable roomId userPeerId now => wrtcUnavailable roomId userPeerId now w
  | SessionCreated ref roomId userPeerId botPeerId =>
      match sessions w !! ref with
      | None => sessionCreated ref roomId userPeerId botPeerId w
      | Some _ => w
      end
  | QueuedCandidatesApplied ref roomId from => applyQueuedCandidates ref roomId from w
  | QueuedCandidatesForgotten roomId from => forgetQueuedCandidates roomId from w
  | AnswerSent ref roomId from description now => sendAnswer ref roomId from description now w
  | OfferFailed roomId from now => offerFailed roomId from now w
  | IceCandidateFound ref candidate now => onicecandidate ref candidate now w
  | ConnectionStateChanged ref state now => onconnectionstatechange ref state now w
  | TrackArrived ref isAudio => ontrack ref isAudio w
  | TrackEnded ref k => ontrackended ref k w
  | ToolingVerified ref sttReady ttsReady ffmpegReady apiKey now =>
      verifyVoiceTooling ref sttReady ttsReady ffmpegReady apiKey now w
  | AudioFrame ref frame now =>
      onSession ref
        (fun '(w, s) =>
           match sink s with
           | Some _ => handleInboundAudioFrame frame now (w, s)
           | None => (w, s)
           end) w
  | PlaybackTick ref accepted =>
      onSession ref
        (fun '(w, s) => (w, if playbackTimer s then playbackTick accepted s else s)) w
  | WorkerResumed ref r now turnId => onSession ref (resumeWorker r now turnId) w
  end.

Definition emptyWorld : World :=
  {| subscribers := ∅; controllers := ∅; emitted := []; roomChat := ∅;
     serverSessions := ∅; pendingServerCandidates := ∅; sessions := ∅ |}.

Definition run (ops : list Op) : World := foldl step emptyWorld ops.

(** ** Observations, invariants and sample states *)

#[global] Instance EventType_eq_dec : EqDecision EventType.
Proof. solve_decision. Defined.

(** The assistant events among the calls of [emit]. *)
Definition assistantEvents (w : World) : list SignalEvent :=
  filter (fun e => evType e = Assistant) (emitted w).

(** The frames among the engine calls. *)
Definition framesOf (calls : list EngineCall) : list (list Z) :=
  omap (fun c => match c with OnData frame _ => Some frame | _ => None end) calls.

(** The frames one timer tick hands to [source.onData]. *)
Definition tickFrames (accepted : bool) (s : ServerCallSession) : list (list Z) :=
  framesOf (drop (length (engineCalls s)) (engineCalls (playbackTick accepted s))).

(** [k] timer ticks in a row, each accepted by the audio source. *)
Fixpoint tickTimes (k : nat) (s : ServerCallSession) : ServerCallSession :=
  match k with
  | O => s
  | S k => tickTimes k (playbackTick true s)
  end.

(** The frames of [samples] from position [from] on: 480 samples each, the
    last one filled up with zeros. *)
Fixpoint framesFrom (fuel : nat) (samples : list Z) (from : nat) : list (list Z) :=
  match fuel with
  | O => []
  | S fuel =>
      if (length samples <=? from)%nat then []
      else take 480 (drop from samples ++ replicate 480 0)
             :: framesFrom fuel samples (from + 480)
  end.

Definition itemFrames (item : PlaybackItem) : list (list Z) :=
  framesFrom (length (itemSamples item)) (itemSamples item) (cursor item).

(** The ticks the pacer spends on a queue: one per frame and one more per
    item to discard it. *)
Definition ticksFor (queue : list PlaybackItem) : nat :=
  foldr (fun item k => (S (length (itemFrames item)) + k)%nat) 0%nat queue.

(** The entries of [calls] that were added to [roomId], in call order. *)
Definition addedTo (roomId : string) (calls : list (string * ChatEntry)) : list ChatEntry :=
  (filter (fun c => c.1 = roomId) calls).*2.

(** A sequence of [addChatEntry] calls. *)
Definition addAll (calls : list (string * ChatEntry)) (w : World) : World :=
  foldl (fun w c => addChatEntry c.1 c.2 w) w calls.

(** The condition under which the specification finalises an utterance. *)
Definition finaliseDue (vad : VadState) (now : Z) : Prop :=
  (18000 <= utteranceMs vad)%Q
  \/ (2000 <= now - lastVoiceAt vad /\ (500 <= utteranceMs vad)%Q).

Definition fallbackReply : string := "Comms degraded. Retry in a moment.".

(** The bound on the turn queue and the meaning of the guard: the flag is
    set exactly while a worker is in flight. *)
Definition sessionOk (s : ServerCallSession) : Prop :=
  (length (turnQueue s) <= 3)%nat
  /\ (worker s = Idle <-> processingTurn s = false).


(** The tables a session-level stretch of code never touches. *)
Definition tables (w : World) :=
  (serverSessions w, pendingServerCandidates w, sessions w).


(** Sample states and inputs. *)

(** A language model that cannot be reached, a local synthesiser that
    yields nothing and a remote one that answers. *)
Definition silentCollaborators : ReplyCollaborators :=
  {| llm := fun _ => LlmUnreachable;
     ttsLocal := fun _ => None;
     ttsApiKey := true;
     ttsFormat := "mp3";
     ttsRemote := fun text => Some (Audio.utf8 text) |}.

(** A session 600 ms into an utterance at 8 kHz, last voice at 1000. *)
Definition speakingSession : ServerCallSession :=
  set_vad {| inSpeech := true; lastVoiceAt := 1000; utteranceStartedAt := 400;
             utteranceSampleRate := 8000; utteranceSamples := 4800;
             utteranceFrames := [replicate 4800 9]; preRollFrames := [] |}
          (newSession "room" "user" "friday-voice-bot-user").

(** A session whose queue holds one item of three samples, after the tick
    that played them. *)
Definition pacedSession : ServerCallSession :=
  playbackTick true (enqueueAssistantAudio (newSession "room" "user" "bot") [1; 2; 3]).

(** A world with one live session that has a sink, and a candidate
    buffered for another peer. *)
Definition liveWorld : World :=
  run [SessionCreated 0 "room" "user" "friday-voice-bot-user";
       TrackArrived 0 true;
       RelaySignal {| evType := Candidate; evFrom := "other";
                      evTo := Some "friday-voice-bot-other"; evRoomId := "room";
                      evPayload := VObject {[ "candidate"%string := VString "c1" ]};
                      evAt := 5 |} 5].

(** A candidate for peer [c] of room [a::b]. *)
Definition strayEvent : SignalEvent :=
  {| evType := Candidate; evFrom := "x"; evTo := Some "c"; evRoomId := "a::b";
     evPayload := VObject {[ "candidate"%string := VString "candidate:1" ]};
     evAt := 2 |}.

(** Peer [b::c] of room [a] listens; then [strayEvent] is relayed. *)
Definition strayRelay : World :=
  run [OpenEventStream 0 "b::c" "a" 1; RelaySignal strayEvent 2].

(** The [n]-th of a series of chat entries. *)
Definition numbered (n : nat) : ChatEntry :=
  {| role := RoleUser; message := "m"; timestamp := Z.of_nat n |}.

(** Two utterances that both transcribe to [hello]. *)
Definition helloTurn : TurnSegment :=
  {| turnSamples := [12; -7; 300]; turnSampleRate := 16000 |}.

Definition helloStt : SttCollaborators :=
  {| sttLocal := SttStdout " hello "; sttApiKey := false;
     sttRemote := fun _ => RemoteThrows |}.

(** A session whose worker transcribes the first utterance while the
    second waits in the queue. *)
Definition waitingSession : ServerCallSession :=
  enqueueTurn
    (enqueueTurn (newSession "room" "user" "friday-voice-bot-user") helloTurn)
    helloTurn.
(** ** Routes ([src/routes/api/webrtc]) *)

Definition DEFAULT_ROOM : string := "friday-default-room".

(** [typeof v === 'string' && v ? v : null] *)
Definition nonEmptyString (v : Value) : option string :=
  match v with
  | VString s => if truthy s then Some s else None
  | _ => None
  end.

(** [typeof v === 'string' ? v.trim() : ''] *)
Definition trimmedString (v : Value) : string :=
  match v with
  | VString s => trim s
  | _ => ""%string
  end.

(** [role] when it is one of the three role names. *)
Definition roleOf (v : Value) : option Role :=
  match v with
  | VString s =>
      if String.eqb s "user" then Some RoleUser
      else if String.eqb s "assistant" then Some RoleAssistant
      else if String.eqb s "system" then Some RoleSystem
      else None
  | _ => None
  end.

Inductive ChatResponse : Type :=
| ChatBadRequest (error : string)
| ChatPosted (entry : ChatEntry).

(** [GET /api/webrtc/chat]; [room] is [searchParams.get('roomId')]. *)
Definition chatGet (room : option string) (w : World) : list ChatEntry :=
  getChatHistory (default DEFAULT_ROOM room) w.

(** [POST /api/webrtc/chat]; [body] is what [request.json()] yields, [None]
    when it throws.  Reading a property of [null] throws. *)
Definition chatPost (body : option Value) (now : Z) (w : World)
  : Completion (World * ChatResponse) :=
  match body with
  | None => Normal (w, ChatBadRequest "Invalid JSON payload")
  | Some candidate =>
      if nullish candidate then Throw TypeError
      else
        match roleOf (getField "role" candidate), getField "message" candidate with
        | Some role, VString message =>
            if negb (truthy (trim message))
            then Normal (w, ChatBadRequest "Invalid chat payload")
            else
              let roomId :=
                default DEFAULT_ROOM (nonEmptyString (getField "roomId" candidate)) in
              let entry := {| role := role; message := message; timestamp := now |} in
              Normal (addChatEntry roomId entry w, ChatPosted entry)
        | _, _ => Normal (w, ChatBadRequest "Invalid chat payload")
        end
  end.

(** [GET /api/webrtc/events]: the world, and whether a stream was opened
    (otherwise the response is 400); [ctl] is the identity of the
    controller of the new stream. *)
Definition eventsGet (ctl : nat) (peerId room : option string) (now : Z) (w : World)
  : World * bool :=
  match peerId with
  | Some peerId =>
      if truthy peerId
      then (createSignalEventStream ctl peerId (default DEFAULT_ROOM room) now w, true)
      else (w, false)
  | None => (w, false)
  end.

(** [base64] is [Buffer.from(_, 'base64')], which does not throw on a
    string. *)
Definition safeBufferFromBase64 (base64 : string -> list Z) (audioBase64 : string)
  : option (list Z) :=
  Some (base64 audioBase64).

Definition transcribeAudioInput (base64 : string -> list Z) (audioBase64 : string)
    (c : SttCollaborators) : option string :=
  match safeBufferFromBase64 base64 audioBase64 with
  | None | Some [] => None
  | Some _ => transcribeAudioBuffer c
  end.

Record AssistantAnswer : Type := {
  answerTranscript : string;
  answerReply : ChatEntry;
  answerAudioBase64 : option (list Z);
  answerAudioMimeType : option string;
}.

Inductive AssistantResponse : Type :=
| AssistantBadRequest (error : string)
| AssistantOk (answer : AssistantAnswer).

(** [POST /api/webrtc/assistant] *)
Definition assistantPost (base64 : string -> list Z) (body : option Value)
    (stt : SttCollaborators) (c : ReplyCollaborators) (now : Z) (w : World)
  : Completion (World * AssistantResponse) :=
  match body with
  | None => Normal (w, AssistantBadRequest "Invalid JSON payload")
  | Some candidate =>
      if nullish candidate then Throw TypeError
      else
        let transcriptFromBody := trimmedString (getField "transcript" candidate) in
        let fallbackTranscript := trimmedString (getField "fallbackTranscript" candidate) in
        let inputAudioBase64 := nonEmptyString (getField "inputAudioBase64" candidate) in
        let transcript :=
          match inputAudioBase64 with
          | Some audio => default ""%string (transcribeAudioInput base64 audio stt)
          | None => ""%string
          end in
        let transcript :=
          if negb (truthy transcript)
          then (if truthy transcriptFromBody then transcriptFromBody else fallbackTranscript)
          else transcript in
        if negb (truthy transcript)
        then Normal (w, AssistantBadRequest
                          "inputAudioBase64 required for server STT; fallback transcript can be provided")
        else
          let roomId :=
            default DEFAULT_ROOM (nonEmptyString (getField "roomId" candidate)) in
          '(result, _) ← synthesizeAssistantReply transcript c;
          let entry :=
            {| role := RoleAssistant; message := text result; timestamp := now |} in
          Normal (addChatEntry roomId entry w,
                  AssistantOk {| answerTranscript := transcript; answerReply := entry;
                                 answerAudioBase64 := audioBase64 result;
                                 answerAudioMimeType :=
                                   match audioBase64 result with
                                   | Some _ => Some "audio/ogg"%string
                                   | None => None
                                   end |})
  end.

(** ** Further invariants *)

(** What holds of every turn the detector hands to the worker. *)
Definition turnOk (turn : TurnSegment) : Prop :=
  turnSamples turn <> []
  /\ 8000 <= turnSampleRate turn <= 96000
  /\ TURN_MIN_MS * turnSampleRate turn <= 1000 * Z.of_nat (length (turnSamples turn)).

(** The turn the worker is transcribing, if any. *)
Definition inFlight (s : ServerCallSession) : list TurnSegment :=
  match worker s with
  | AwaitTranscript turn => [turn]
  | _ => []
  end.

Definition itemOk (item : PlaybackItem) : Prop :=
  itemSamples item <> []
  /\ itemSampleRate item = PLAYBACK_SAMPLE_RATE
  /\ (cursor item <= length (itemSamples item))%nat.

Definition vadOk (v : VadState) : Prop :=
  (length (preRollFrames v) <= PRE_ROLL_FRAMES)%nat
  /\ utteranceSamples v = Z.of_nat (length (concat (utteranceFrames v)))
  /\ (inSpeech v = true ->
        8000 <= utteranceSampleRate v <= 96000
        /\ 1000 * utteranceSamples v < TURN_MAX_MS * utteranceSampleRate v)
  /\ (inSpeech v = false ->
        utteranceSampleRate v = 0 /\ utteranceFrames v = []).

(** The detector before [maybeFinalizeUtterance] has looked at the frame
    just appended: the cap of 18 s may be exceeded. *)
Definition vadFed (v : VadState) : Prop :=
  (length (preRollFrames v) <= PRE_ROLL_FRAMES)%nat
  /\ utteranceSamples v = Z.of_nat (length (concat (utteranceFrames v)))
  /\ (inSpeech v = true -> 8000 <= utteranceSampleRate v <= 96000)
  /\ (inSpeech v = false ->
        utteranceSampleRate v = 0 /\ utteranceFrames v = []).

Definition turnsOk (s : ServerCallSession) : Prop :=
  Forall turnOk (turnQueue s ++ inFlight s).

Definition pacerOk (s : ServerCallSession) : Prop :=
  Forall itemOk (playbackQueue s)
  /\ (playbackQueue s <> [] -> playbackTimer s = true).

Definition sessionSound (s : ServerCallSession) : Prop :=
  vadOk (vad s) /\ turnsOk s /\ pacerOk s.

(** The calls the signalling code and the track callbacks make. *)
Definition signallingCall (c : EngineCall) : Prop :=
  match c with
  | AddIceCandidate _ | CreateAnswer | SetLocalDescription | NewSink _ | SinkStop _ => True
  | _ => False
  end.

(** The calls the playback pacer makes; a frame has [frameSize] samples. *)
Definition pacerCall (c : EngineCall) : Prop :=
  match c with
  | SetInterval | ClearInterval => True
  | OnData frame _ => length frame = frameSize
  | _ => False
  end.

(** The ways one stretch of code changes a session object. *)
Inductive sessionMove (s : ServerCallSession) : ServerCallSession -> Prop :=
| move_teardown : sessionMove s (teardown s)
| move_engine calls sk ns :
    Forall signallingCall calls ->
    sessionMove s (set_nextSink ns (set_sink sk (set_engineCalls (engineCalls s ++ calls) s)))
| move_frame frame now w :
    sessionMove s (handleInboundAudioFrame frame now (w, s)).2
| move_tick accepted :
    playbackTimer s = true -> sessionMove s (playbackTick accepted s)
| move_worker r now turnId w :
    sessionMove s (resumeWorker r now turnId (w, s)).2.

(** Every session object of [w'] is one of [w] after some moves. *)
Definition movesTo (w w' : World) : Prop :=
  forall ref s', sessions w' !! ref = Some s' ->
    exists s, sessions w !! ref = Some s /\ rtc sessionMove s s'.

(** The subscriber table: no empty set, no controller twice, every
    controller under the key of the peer and room it was opened for. *)
Definition hubOk (w : World) : Prop :=
  forall key set, subscribers w !! key = Some set ->
    set <> [] /\ NoDup set
    /\ forall ctl, ctl ∈ set ->
         exists c, controllers w !! ctl = Some c
                   /\ subscriberKey (ctlPeerId c) (ctlRoomId c) = key.

(** A session object that has been through [closeSession]. *)
Definition closed (s : ServerCallSession) : Prop := PcClose ∈ engineCalls s.

(** The session table: every registered session is a live object filed
    under the key of its own room and peer, and has not been closed. *)
Definition registryOk (w : World) : Prop :=
  forall key ref, serverSessions w !! key = Some ref ->
    exists s, sessions w !! ref = Some s
              /\ roomPeerKey (roomId s) (userPeerId s) = key
              /\ ~ closed s.

(** A move that leaves the identity of the session and closes nothing. *)
Definition quietMove (s s' : ServerCallSession) : Prop :=
  roomId s' = roomId s /\ userPeerId s' = userPeerId s /\ botPeerId s' = botPeerId s
  /\ (closed s' -> closed s).

(** The identity of a session and the calls a stretch of code adds. *)
Definition grows (ok : EngineCall -> Prop) (s s' : ServerCallSession) : Prop :=
  roomId s' = roomId s /\ userPeerId s' = userPeerId s /\ botPeerId s' = botPeerId s
  /\ exists calls, engineCalls s' = engineCalls s ++ calls /\ Forall ok calls.

(** What the subscriber table and the identity of the controllers look
    like: everything about the hub but the lines and the state of the
    streams. *)
Definition hubShape (w : World) : gmap string (list nat) * gmap nat (string * string) :=
  (subscribers w, (fun c => (ctlPeerId c, ctlRoomId c)) <$> controllers w).

(** What holds of every call on the engine: a frame handed to the audio
    source has 480 samples. *)
Definition frameCallOk (c : EngineCall) : Prop :=
  match c with
  | OnData frame _ => length frame = 480%nat
  | _ => True
  end.

(** What [emit] leaves of a controller it reaches: the line is appended
    to an open stream, a dead stream is left as it is. *)
Definition deliver (line : Line) (c : Controller) : Controller :=
  if ctlOpen c
  then {| ctlPeerId := ctlPeerId c; ctlRoomId := ctlRoomId c; ctlOpen := true;
          ctlLines := ctlLines c ++ [line] |}
  else c.

(** The [signaling_connected] event of a new stream. *)
Definition connectedEvent (peerId roomId : string) (now : Z) : SignalEvent :=
  {| evType := System; evFrom := "server"; evTo := Some peerId; evRoomId := roomId;
     evAt := now; evPayload := systemPayload "signaling_connected" |}.

(** The [invalid_offer_payload] notice sent back to the sender of
    [event]. *)
Definition invalidOfferNotice (event : SignalEvent) (now : Z) : SignalEvent :=
  {| evType := System; evFrom := "server"; evTo := Some (evFrom event);
     evRoomId := evRoomId event; evAt := now;
     evPayload := systemPayload "invalid_offer_payload" |}.

(** A candidate signal from [from] to the server bot [bot]. *)
Definition candidateSignal (room from bot : string) (now : Z) (candidate : Value)
  : SignalEvent :=
  {| evType := Candidate; evFrom := from; evTo := Some bot; evRoomId := room;
     evPayload := candidate; evAt := now |}.

(** The room a request body names, or the default room. *)
Definition roomOfBody (candidate : Value) : string :=
  default DEFAULT_ROOM (nonEmptyString (getField "roomId" candidate)).

(** What the assistant route takes as the transcript of a request. *)
Definition heardTranscript (base64 : string -> list Z) (candidate : Value)
    (stt : SttCollaborators) : string :=
  match nonEmptyString (getField "inputAudioBase64" candidate) with
  | Some audio => default ""%string (transcribeAudioInput base64 audio stt)
  | None => ""%string
  end.

(** Further sample states. *)

(** A loud frame of 4 samples at 16 kHz. *)
Definition loudFrame : AudioFrameLike :=
  {| frameSamples := replicate 4 8000; frameSampleRate := 16000;
     frameChannelCount := Some 1 |}.

Definition quietFrame : AudioFrameLike :=
  {| frameSamples := replicate 4 0; frameSampleRate := 16000;
     frameChannelCount := None |}.

(** A call in which the user has started to speak. *)
Definition talkingOps : list Op :=
  [SessionCreated 0 "room" "user" "friday-voice-bot-user";
   TrackArrived 0 true;
   AudioFrame 0 quietFrame 10;
   AudioFrame 0 loudFrame 20;
   AudioFrame 0 loudFrame 30].

(** Two listeners of one peer, the first of them broken. *)
Definition listeningOps : list Op :=
  [OpenEventStream 0 "user" "room" 1;
   OpenEventStream 1 "user" "room" 2;
   StreamBroken 0].

Definition listeningWorld : World := run listeningOps.

(** The operations that lead to [liveWorld]. *)
Definition liveOps : list Op :=
  [SessionCreated 0 "room" "user" "friday-voice-bot-user";
   TrackArrived 0 true;
   RelaySignal {| evType := Candidate; evFrom := "other";
                  evTo := Some "friday-voice-bot-other"; evRoomId := "room";
                  evPayload := VObject {[ "candidate"%string := VString "c1" ]};
                  evAt := 5 |} 5].

(** A loud frame of 10 samples at 8 kHz. *)
Definition shortFrame : AudioFrameLike :=
  {| frameSamples := replicate 10 8000; frameSampleRate := 8000;
     frameChannelCount := Some 1 |}.

(** A call in which the user spoke for half a second and then fell
    silent: the utterance is cut and the worker is transcribing it. *)
Definition turnOps : list Op :=
  [SessionCreated 0 "room" "user" "friday-voice-bot-user"; TrackArrived 0 true]
  ++ replicate 400 (AudioFrame 0 shortFrame 0)
  ++ [AudioFrame 0 {| frameSamples := [0]; frameSampleRate := 8000;
                      frameChannelCount := None |} 3000].

(** The turn cut in [run turnOps]: the first frame twice, the 399 frames
    after it and the silent frame that ends the utterance. *)
Definition turnSegment : TurnSegment :=
  {| turnSamples := replicate 4010 8000 ++ [0]; turnSampleRate := 8000 |}.

(** The session of [run turnOps]. *)
Definition turnSession : ServerCallSession :=
  {| roomId := "room"; userPeerId := "user"; botPeerId := "friday-voice-bot-user";
     engineCalls := [AddTrack; SetRemoteDescription; NewSink 0];
     sink := Some 0%nat; nextSink := 1;
     vad := {| inSpeech := false; lastVoiceAt := 0; utteranceStartedAt := 0;
               utteranceSampleRate := 0; utteranceSamples := 0;
               utteranceFrames := [];
               preRollFrames := replicate 21 (replicate 10 8000) ++ [[0]] |};
     turnQueue := []; processingTurn := true;
     lastTranscript := ""; lastTranscriptAt := 0;
     playbackQueue := []; playbackTimer := false;
     worker := AwaitTranscript turnSegment |}.

(** That turn transcribed, answered and decoded: the reply is being
    played. *)
Definition playingOps : list Op :=
  ((turnOps ++ [WorkerResumed 0 (Transcribed helloStt) 3100 "t1"])
   ++ [WorkerResumed 0 (Replied silentCollaborators) 3200 "t1"])
  ++ [WorkerResumed 0 (Decoded (fun buffer _ => Some buffer)) 3300 "t1"].

(** The session of [run playingOps]: the worker is done, the reply waits
    in the playback queue and the timer runs. *)
Definition playingSession : ServerCallSession :=
  {| roomId := "room"; userPeerId := "user"; botPeerId := "friday-voice-bot-user";
     engineCalls := [AddTrack; SetRemoteDescription; NewSink 0; SetInterval];
     sink := Some 0%nat; nextSink := 1;
     vad := vad turnSession;
     turnQueue := []; processingTurn := false;
     lastTranscript := "hello"; lastTranscriptAt := 3100;
     playbackQueue := [{| itemSamples := Audio.int16View (Audio.utf8 fallbackReply);
                          itemSampleRate := 48000; cursor := 0 |}];
     playbackTimer := true;
     worker := Idle |}.

(** The payload of a well-formed offer. *)
Definition offerDescription : Value :=
  VObject {[ "type"%string := VString "offer"; "sdp"%string := VString "v=0" ]}.

(** A second offer of the same peer replaces the session of the first. *)
Definition replacedOps : list Op :=
  [SessionCreated 0 "room" "user" "friday-voice-bot-user";
   RelaySignal {| evType := Offer; evFrom := "user";
                  evTo := Some "friday-voice-bot-user"; evRoomId := "room";
                  evPayload := offerDescription;
                  evAt := 4 |} 4;
   SessionCreated 1 "room" "user" "friday-voice-bot-user"].

(** An offer whose payload carries an answer. *)
Definition answerAsOffer : SignalEvent :=
  {| evType := Offer; evFrom := "user"; evTo := Some "friday-voice-bot-user";
     evRoomId := "room";
     evPayload := VObject {[ "type"%string := VString "answer";
                             "sdp"%string := VString "v=0" ]};
     evAt := 7 |}.

Definition byeEvent : SignalEvent :=
  {| evType := Bye; evFrom := "user"; evTo := Some "friday-voice-bot-user";
     evRoomId := "room"; evPayload := VNull; evAt := 8 |}.


(** * Properties *)

(** ** WAV packaging *)

Section WavFacts.
Import Audio.

Lemma byteAt_div_mod v k : byteAt v k = (v / 2 ^ (8 * Z.of_nat k)) mod 256.
Proof.
  unfold byteAt. rewrite Z.shiftr_div_pow2 by lia.
  change 255 with (Z.ones 8). rewrite Z.land_ones by lia. reflexivity.
Qed.

Lemma readLE_le_bytes4 v : 0 <= v < 2 ^ 32 -> readLE (le_bytes 4 v) = v.
Proof.
  intros Hv. unfold le_bytes. simpl. rewrite !byteAt_div_mod. simpl Z.of_nat.
  change (2 ^ (8 * 0)) with 1.
  change (2 ^ (8 * 1)) with 256. change (2 ^ (8 * 2)) with 65536.
  change (2 ^ (8 * 3)) with 16777216. change (2^32) with 4294967296 in Hv.
  Z.to_euclidean_division_equations. lia.
Qed.

Lemma readLE_le_bytes2 v : 0 <= v < 2 ^ 16 -> readLE (le_bytes 2 v) = v.
Proof.
  intros Hv. unfold le_bytes. simpl. rewrite !byteAt_div_mod. simpl Z.of_nat.
  change (2 ^ (8 * 0)) with 1.
  change (2 ^ (8 * 1)) with 256.  change (2^16) with 65536 in Hv.
  Z.to_euclidean_division_equations. lia.
Qed.

Lemma readInt16LE_byteAt v : int16 v -> readInt16LE (byteAt v 0) (byteAt v 1) = v.
Proof.
  unfold int16, readInt16LE. intros Hv. rewrite !byteAt_div_mod. simpl Z.of_nat.
  change (2 ^ (8 * 0)) with 1. change (2 ^ (8 * 1)) with 256.
  destruct (32768 <=? _) eqn:E; [apply Z.leb_le in E | apply Z.leb_gt in E];
  Z.to_euclidean_division_equations; lia.
Qed.

Lemma bufWrite_at (done rest bs : list Z) off :
  off = length done ->
  bufWrite off bs (done ++ rest) = (done ++ bs) ++ drop (length bs) rest.
Proof.
  intros ->. unfold bufWrite.
  by rewrite take_app_length, drop_app_add, <- app_assoc.
Qed.

Lemma write_at s (done rest : list Z) off :
  off = length done -> (length (utf8 s) <= length rest)%nat ->
  write s off (done ++ rest) = (done ++ utf8 s) ++ drop (length (utf8 s)) rest.
Proof.
  intros -> Hlen. unfold write.
  rewrite length_app, take_ge by lia. by apply bufWrite_at.
Qed.

Lemma writeUIntLE_at width v (done rest : list Z) off :
  off = length done -> 0 <= v < 2 ^ (8 * Z.of_nat width) ->
  (width <= length rest)%nat ->
  writeUIntLE width v off (done ++ rest)
  = Normal ((done ++ le_bytes width v) ++ drop width rest).
Proof.
  intros -> [Hlo Hhi] Hlen. unfold writeUIntLE.
  rewrite (proj2 (Z.leb_le _ _) Hlo), (proj2 (Z.ltb_lt _ _) Hhi). cbv [andb].
  rewrite length_app.
  rewrite (proj2 (Nat.leb_le _ _)) by lia.
  rewrite bufWrite_at by done.
  unfold le_bytes at 2. by rewrite length_map, length_seq.
Qed.

Lemma pcmBytes_length samples : length (pcmBytes samples) = (2 * length samples)%nat.
Proof.
  unfold pcmBytes. induction samples as [|x xs IH]; [done|].
  simpl in *. rewrite IH. lia.
Qed.

Lemma writeSamples_at samples viewLen m : forall k (done rest : list Z),
  length done = (44 + 2 * k)%nat -> (2 * m <= length rest)%nat ->
  (k + m <= length samples)%nat -> viewLen = (length samples * 2)%nat ->
  writeSamples samples viewLen (seq k m) (done ++ rest)
  = Normal (done ++ pcmBytes (take m (drop k samples)) ++ drop (2 * m) rest).
Proof.
  induction m as [|m IH]; intros k done rest Hdone Hrest Hk Hview.
  - simpl. by rewrite drop_0.
  - destruct (lookup_lt_is_Some_2 samples k) as [x Hx]; [lia|].
    simpl seq. simpl writeSamples. unfold setInt16.
    rewrite (proj2 (Nat.leb_le _ _)) by lia.
    rewrite bufWrite_at by lia. simpl mbind. unfold mbind, completion_bind.
    rewrite Hx. simpl default.
    rewrite IH.
    2:{ rewrite length_app. change (length (le_bytes 2 x)) with 2%nat. lia. } 
    2:{ rewrite length_drop. change (length (le_bytes 2 x)) with 2%nat. lia. }
    2,3: lia || done.
    f_equal. rewrite (drop_S _ _ _ Hx). simpl take.
    unfold pcmBytes. simpl concat. rewrite drop_drop.
    rewrite <- !app_assoc. f_equal. replace (2 * S m)%nat with (2 + 2 * m)%nat by lia.
    reflexivity.
Qed.

Ltac wav_len :=
  repeat first [ rewrite length_drop | rewrite length_app ]; simpl length; lia.

(** Whatever the allocated buffer held, the source fills it with the
    header and the samples. *)
Lemma createWavInto_layout (out samples : list Z) (sampleRate : Z) :
  length out = (44 + length samples * 2)%nat ->
  0 <= sampleRate -> sampleRate * 2 < 2 ^ 32 ->
  36 + Z.of_nat (length samples * 2) < 2 ^ 32 ->
  createWavInto out samples sampleRate
  = Normal (wavHeader (length samples * 2) sampleRate ++ pcmBytes samples).
Proof.
  intros Hout Hr0 Hr1 Hlen. unfold createWavInto.
  change out with ([] ++ out) at 1.
  rewrite write_at; [| reflexivity | simpl length; lia].
  cbv zeta.
  repeat first
    [ rewrite write_at; [| reflexivity | wav_len]
    | unfold writeUInt32LE, writeUInt16LE;
      rewrite writeUIntLE_at; [| reflexivity | simpl Z.of_nat; lia | wav_len];
      unfold mbind at 1, completion_bind at 1 ].
  rewrite writeSamples_at; [| reflexivity | wav_len | simpl; lia | reflexivity].
  rewrite drop_0, firstn_all, (drop_ge _ (2 * length samples)) by wav_len.
  rewrite app_nil_r. unfold wavHeader. by rewrite <- !app_assoc.
Qed.

Lemma createWav_layout (samples : list Z) (sampleRate : Z) :
  0 <= sampleRate -> sampleRate * 2 < 2 ^ 32 ->
  36 + Z.of_nat (length samples * 2) < 2 ^ 32 ->
  createWavFromPcm16Mono samples sampleRate
  = Normal (wavHeader (length samples * 2) sampleRate ++ pcmBytes samples).
Proof.
  intros. unfold createWavFromPcm16Mono, allocUnsafe.
  apply createWavInto_layout; auto. by rewrite length_replicate.
Qed.

Lemma int16View_pcmBytes samples :
  Forall int16 samples -> int16View (pcmBytes samples) = samples.
Proof.
  induction 1 as [|x xs Hx _ IH]; [done|].
  unfold pcmBytes in *. simpl. by rewrite IH, readInt16LE_byteAt.
Qed.

Lemma wavHeader_length bl r : length (wavHeader bl r) = 44%nat.
Proof. reflexivity. Qed.

Lemma parseWav_layout (samples : list Z) (sampleRate : Z) :
  0 <= sampleRate < 2 ^ 32 ->
  36 + Z.of_nat (length samples * 2) < 2 ^ 32 ->
  Forall int16 samples ->
  parseWav (wavHeader (length samples * 2) sampleRate ++ pcmBytes samples)
  = Some {| wavFormat := 1; wavChannels := 1; wavSampleRate := sampleRate;
            wavBitsPerSample := 16; wavSamples := samples |}.
Proof.
  intros Hr Hlen Hs. unfold parseWav.
  set (buf := wavHeader _ _ ++ _).
  assert (Hd : drop 44 buf = pcmBytes samples) by reflexivity.
  assert (H40 : readLE (field 40 4 buf) = Z.of_nat (length samples * 2)).
  { change (field 40 4 buf) with (le_bytes 4 (Z.of_nat (length samples * 2))).
    apply readLE_le_bytes4. lia. }
  assert (H4 : readLE (field 4 4 buf) = 36 + Z.of_nat (length samples * 2)).
  { change (field 4 4 buf) with (le_bytes 4 (36 + Z.of_nat (length samples * 2))).
    apply readLE_le_bytes4. lia. }
  assert (H24 : readLE (field 24 4 buf) = sampleRate).
  { change (field 24 4 buf) with (le_bytes 4 sampleRate).
    by apply readLE_le_bytes4. }
  rewrite H40, H4, H24, Hd, int16View_pcmBytes by done.
  assert (Hl : Z.of_nat (length buf) = 44 + Z.of_nat (length samples * 2)).
  { subst buf. rewrite length_app, wavHeader_length, pcmBytes_length. lia. }
  rewrite Hl, !Z.eqb_refl.
  rewrite !bool_decide_eq_true_2 by reflexivity.
  reflexivity.
Qed.

(** C7. For a PCM-16 mono sample array and a sample rate that fit the 32-bit
    header fields, [createWavFromPcm16Mono] returns the 44-byte little-endian
    RIFF/WAVE header (format 1 = PCM, 1 channel, 16 bits per sample, the
    given rate) followed by the sample bytes, and reading the file back
    yields the very samples that were packaged. *)
Theorem wav_round_trip (samples : list Z) (sampleRate : Z) :
  Forall int16 samples ->
  0 <= sampleRate < 2 ^ 31 ->
  36 + Z.of_nat (length samples * 2) < 2 ^ 32 ->
  exists wav,
    createWavFromPcm16Mono samples sampleRate = Normal wav
    /\ take 44 wav = wavHeader (length samples * 2) sampleRate
    /\ length (take 44 wav) = 44%nat
    /\ drop 44 wav = pcmBytes samples
    /\ parseWav wav
       = Some {| wavFormat := 1; wavChannels := 1; wavSampleRate := sampleRate;
                 wavBitsPerSample := 16; wavSamples := samples |}.
Proof.
  intros Hs Hr Hlen. eexists. split; [apply createWav_layout; lia|].
  split; [reflexivity|]. split; [reflexivity|]. split; [reflexivity|].
  apply parseWav_layout; [lia | lia | done].
Qed.

Lemma wav_round_trip_witness :
  exists wav,
    createWavFromPcm16Mono [0; -1; 32767; -32768; 258] 16000 = Normal wav
    /\ take 44 wav = wavHeader 10 16000
    /\ length (take 44 wav) = 44%nat
    /\ drop 44 wav = pcmBytes [0; -1; 32767; -32768; 258]
    /\ parseWav wav
       = Some {| wavFormat := 1; wavChannels := 1; wavSampleRate := 16000;
                 wavBitsPerSample := 16;
                 wavSamples := [0; -1; 32767; -32768; 258] |}.
Proof.
  apply (wav_round_trip [0; -1; 32767; -32768; 258] 16000).
  - repeat constructor; unfold int16; lia.
  - lia.
  - simpl; lia.
Defined.

End WavFacts.

(** The header of a 5-sample file at 16 kHz, byte by byte. *)
Example wavHeader_bytes :
  Audio.wavHeader 10 16000
  = [82; 73; 70; 70; 46; 0; 0; 0; 87; 65; 86; 69; 102; 109; 116; 32;
     16; 0; 0; 0; 1; 0; 1; 0; 128; 62; 0; 0; 0; 125; 0; 0; 2; 0; 16; 0;
     100; 97; 116; 97; 10; 0; 0; 0].
Proof. reflexivity. Qed.

(** ** Chat log *)

Section ChatFacts.

Lemma sliceLast_length {A} n (l : list A) : (length (sliceLast n l) <= n)%nat.
Proof. unfold sliceLast. rewrite length_drop. lia. Qed.

Lemma sliceLast_snoc {A} n (l : list A) x :
  (0 < n)%nat -> sliceLast n (sliceLast n l ++ [x]) = sliceLast n (l ++ [x]).
Proof.
  intros Hn. unfold sliceLast.
  rewrite !length_app, length_drop. simpl length.
  destruct (decide (length l <= n)%nat) as [Hle|Hgt].
  - replace (length l - n)%nat with 0%nat by lia. rewrite drop_0.
    do 2 f_equal. lia.
  - rewrite !drop_app_le by (rewrite ?length_drop; lia).
    rewrite drop_drop. do 2 f_equal. lia.
Qed.

Lemma getChatHistory_addChatEntry roomId room entry w :
  getChatHistory roomId (addChatEntry room entry w)
  = if decide (room = roomId)
    then sliceLast MAX_CHAT_HISTORY (getChatHistory roomId w ++ [entry])
    else getChatHistory roomId w.
Proof.
  unfold getChatHistory, addChatEntry. simpl.
  destruct (decide (room = roomId)) as [->|Hne].
  - by rewrite lookup_insert_eq.
  - by rewrite lookup_insert_ne.
Qed.

Lemma getChatHistory_addAll roomId calls :
  getChatHistory roomId (addAll calls emptyWorld)
  = sliceLast MAX_CHAT_HISTORY (addedTo roomId calls).
Proof.
  induction calls as [|[room entry] calls IH] using rev_ind; [done|].
  unfold addAll in *. rewrite foldl_app. simpl.
  rewrite getChatHistory_addChatEntry, IH.
  unfold addedTo. rewrite filter_app, fmap_app.
  rewrite filter_cons, filter_nil. simpl.
  destruct (decide (room = roomId)) as [->|Hne]; simpl.
  - apply sliceLast_snoc. unfold MAX_CHAT_HISTORY. lia.
  - by rewrite app_nil_r.
Qed.

(** C6. After any sequence of [addChatEntry] calls, the history of a room
    is the entries added to that room, in the order of the calls, cut down
    to the most recent 250: it never holds more than 250 entries, and once
    more than 250 were added the oldest ones are gone. *)
Theorem chat_history_last_250 (roomId : string) (calls : list (string * ChatEntry)) :
  let history := getChatHistory roomId (addAll calls emptyWorld) in
  let added := addedTo roomId calls in
  (length history <= 250)%nat
  /\ history = drop (length added - 250) added
  /\ exists evicted, added = evicted ++ history
       /\ length evicted = (length added - 250)%nat.
Proof.
  cbv zeta. rewrite getChatHistory_addAll. split; [apply sliceLast_length|].
  split; [reflexivity|].
  exists (take (length (addedTo roomId calls) - 250) (addedTo roomId calls)).
  unfold sliceLast, MAX_CHAT_HISTORY. rewrite take_drop.
  split; [done|]. rewrite length_take. lia.
Qed.

(** 260 entries added to one room: 250 are kept, the oldest 10 are gone. *)
Example chat_bound_260 :
  let history :=
    getChatHistory "room"
      (addAll (map (fun n => ("room"%string, numbered n)) (seq 0 260)) emptyWorld) in
  length history = 250%nat
  /\ head history = Some (numbered 10)
  /\ last history = Some (numbered 259).
Proof. vm_compute. done. Qed.

End ChatFacts.

(** ** Reply synthesis *)

Section ReplyFacts.

(** C9. When the language-model call fails (the request throws, the status
    is not ok, or the body cannot be used), [synthesizeAssistantReply]
    does not fail: it returns normally, its text is the literal fallback,
    and the speech synthesisers are run on that very text (the local one
    first, the remote one when the local one yields nothing). *)
Theorem llm_failure_substitutes_fallback (input : string) (c : ReplyCollaborators) (e : Exn) :
  requestLlmReply input (llm c input) = Throw e ->
  exists result calls,
    synthesizeAssistantReply input c = Normal (result, calls)
    /\ text result = "Comms degraded. Retry in a moment."%string
    /\ take 2 calls = [CallLlm input; CallLocalTts fallbackReply]
    /\ audioBuffer result
       = match tryJarvisTtsBuffer fallbackReply c with
         | Some buffer => Some buffer
         | None => fst <$> tryOpenAiTtsBuffer fallbackReply c
         end
    /\ (tryJarvisTtsBuffer fallbackReply c = None -> ttsApiKey c = true ->
        calls = [CallLlm input; CallLocalTts fallbackReply; CallRemoteTts fallbackReply]).
Proof.
  intros Hllm. unfold synthesizeAssistantReply. rewrite Hllm. simpl try_catch.
  fold fallbackReply.
  destruct (tryJarvisTtsBuffer fallbackReply c) as [buffer|] eqn:Hlocal.
  - do 2 eexists. split; [reflexivity|]. simpl. repeat split; congruence.
  - do 2 eexists. split; [reflexivity|]. simpl.
    split; [done|]. split; [by destruct (ttsApiKey c)|]. split; [done|].
    intros _ ->. done.
Qed.

Lemma llm_failure_substitutes_fallback_witness :
  exists result calls,
    synthesizeAssistantReply "status" silentCollaborators = Normal (result, calls)
    /\ text result = "Comms degraded. Retry in a moment."%string
    /\ take 2 calls = [CallLlm "status"; CallLocalTts fallbackReply]
    /\ audioBuffer result
       = match tryJarvisTtsBuffer fallbackReply silentCollaborators with
         | Some buffer => Some buffer
         | None => fst <$> tryOpenAiTtsBuffer fallbackReply silentCollaborators
         end
    /\ (tryJarvisTtsBuffer fallbackReply silentCollaborators = None ->
        ttsApiKey silentCollaborators = true ->
        calls = [CallLlm "status"; CallLocalTts fallbackReply;
                 CallRemoteTts fallbackReply]).
Proof.
  apply (llm_failure_substitutes_fallback "status" silentCollaborators
           (Failure "fetch failed")).
  reflexivity.
Defined.

End ReplyFacts.

(** ** Voice activity detection *)

Section VadFacts.
Import Audio.

Lemma total_length (frames : list (list Z)) (n : nat) :
  foldl (fun sum frame => (sum + length frame)%nat) n frames
  = (n + length (concat frames))%nat.
Proof.
  revert n. induction frames as [|f fs IH]; intros n; simpl; [lia|].
  rewrite IH, length_app. lia.
Qed.

Lemma concat_loop (frames : list (list Z)) : forall (done rest : list Z),
  (length (concat frames) <= length rest)%nat ->
  fst (foldl (fun '(out, offset) frame =>
                (typedSet frame offset out, (offset + length frame)%nat))
             (done ++ rest, length done) frames)
  = done ++ concat frames ++ drop (length (concat frames)) rest.
Proof.
  induction frames as [|f fs IH]; intros done rest Hlen; simpl in *.
  - by rewrite drop_0.
  - unfold typedSet at 2. rewrite bufWrite_at by done.
    rewrite length_app in Hlen.
    replace (length done + length f)%nat with (length (done ++ f))
      by (by rewrite length_app).
    rewrite IH by (rewrite length_drop; lia).
    rewrite drop_drop, length_app, <- !app_assoc. reflexivity.
Qed.

(** [concatInt16] lays the frames end to end in one array. *)
Lemma concatInt16_concat (frames : list (list Z)) : concatInt16 frames = concat frames.
Proof.
  unfold concatInt16. rewrite total_length. simpl.
  pose proof (concat_loop frames [] (replicate (length (concat frames)) 0)) as H.
  simpl in H. rewrite H by (by rewrite length_replicate).
  rewrite drop_ge by (by rewrite length_replicate). apply app_nil_r.
Qed.

Lemma Qltb_false (a b : Q) : Qltb a b = false <-> (b <= a)%Q.
Proof.
  unfold Qltb. rewrite negb_false_iff. apply Qle_bool_iff.
Qed.

Lemma Qltb_true (a b : Q) : Qltb a b = true <-> ~ (b <= a)%Q.
Proof.
  unfold Qltb. rewrite negb_true_iff, <- not_true_iff_false.
  by rewrite Qle_bool_iff.
Qed.

Lemma finaliseDue_guard vad now :
  Qltb (utteranceMs vad) (inject_Z TURN_MAX_MS)
  && ((now - lastVoiceAt vad <? TURN_SILENCE_MS)
      || Qltb (utteranceMs vad) (inject_Z TURN_MIN_MS)) = false
  <-> finaliseDue vad now.
Proof.
  unfold finaliseDue, TURN_MAX_MS, TURN_SILENCE_MS, TURN_MIN_MS.
  rewrite andb_false_iff, orb_false_iff, !Qltb_false, Z.ltb_ge.
  reflexivity.
Qed.

(** C1. For a session in speech with a recorded sample rate and at least
    one sample, [maybeFinalizeUtterance] leaves everything untouched unless
    [utteranceMs >= 18000] or ([now - lastVoiceAt >= 2000] and
    [utteranceMs >= 500]).  In that case the frames are laid end to end in
    one buffer, the detector is reset to idle, and the segment is handed to
    [enqueueTurn] (after the [voice_turn_detected] notice) exactly when
    the buffer is not empty and [utteranceMs >= 500]; otherwise it is
    dropped. *)
Theorem vad_finalisation (w : World) (s : ServerCallSession) (now : Z) :
  inSpeech (vad s) = true ->
  utteranceSampleRate (vad s) <> 0 ->
  utteranceSamples (vad s) <> 0 ->
  let samples := concat (utteranceFrames (vad s)) in
  let idle := set_vad (resetVad (vad s)) s in
  let turn := {| turnSamples := samples;
                 turnSampleRate := utteranceSampleRate (vad s) |} in
  let '(w', s') := maybeFinalizeUtterance now (w, s) in
  (~ finaliseDue (vad s) now -> w' = w /\ s' = s)
  /\ (finaliseDue (vad s) now ->
      vad s' = resetVad (vad s)
      /\ inSpeech (vad s') = false
      /\ utteranceFrames (vad s') = []
      /\ (samples <> [] /\ (500 <= utteranceMs (vad s))%Q ->
          s' = enqueueTurn idle turn
          /\ w' = emitSystem (userPeerId s) (roomId s) "voice_turn_detected" now w)
      /\ (~ (samples <> [] /\ (500 <= utteranceMs (vad s))%Q) ->
          s' = idle /\ w' = w /\ turnQueue s' = turnQueue s)).
Proof.
  intros Hin Hrate Hcount. cbv zeta. unfold maybeFinalizeUtterance.
  rewrite Hin. simpl negb. cbv iota.
  rewrite (proj2 (Z.eqb_neq _ _) Hrate), (proj2 (Z.eqb_neq _ _) Hcount).
  simpl orb. cbv iota.
  destruct (Qltb _ _ && _) eqn:Hguard.
  - split; [done|]. intros Hdue. apply finaliseDue_guard in Hdue. congruence.
  - apply finaliseDue_guard in Hguard.
    rewrite concatInt16_concat.
    destruct ((length _ =? 0)%nat || _) eqn:Hdrop.
    + split; [done|]. intros _.
      assert (Hno : ~ (concat (utteranceFrames (vad s)) <> []
                       /\ (500 <= utteranceMs (vad s))%Q)).
      { intros [Hne Hms]. apply orb_true_iff in Hdrop as [Hz|Hlt].
        - apply Nat.eqb_eq, length_zero_iff_nil in Hz. done.
        - apply Qltb_true in Hlt. done. }
      simpl. do 3 (split; [done|]). split; [intros; done|]. intros _. done.
    + apply orb_false_iff in Hdrop as [Hz Hlt].
      apply Nat.eqb_neq in Hz. apply Qltb_false in Hlt.
      split; [done|]. intros _.
      assert (Hv : forall t, vad (enqueueTurn (set_vad (resetVad (vad s)) s) t)
                             = resetVad (vad s)).
      { intros t. unfold enqueueTurn, drainTurnQueue, drainNext, drainFinally. simpl.
        destruct (processingTurn s); [done|].
        by destruct (if (3 <? _)%nat then _ else _). }
      rewrite Hv. simpl. do 4 (split; [done|]).
      intros Hno. exfalso. apply Hno. split; [|done].
      intros Hnil. apply Hz. by rewrite Hnil.
Qed.


(** The sample utterance is due: 600 ms long, 2000 ms of silence. *)
Example speakingSession_due :
  finaliseDue (vad speakingSession) 3000
  /\ (500 <= utteranceMs (vad speakingSession))%Q.
Proof. split; [right; split; [simpl; lia|]|]; vm_compute; discriminate. Qed.

Lemma vad_finalisation_witness :
  inSpeech (vad speakingSession) = true
  /\ utteranceSampleRate (vad speakingSession) <> 0
  /\ utteranceSamples (vad speakingSession) <> 0
  /\ (let '(w', s') := maybeFinalizeUtterance 3000 (emptyWorld, speakingSession) in
      vad s' = resetVad (vad speakingSession)
      /\ worker s'
         = AwaitTranscript {| turnSamples := replicate 4800 9; turnSampleRate := 8000 |}
      /\ w' = emitSystem "user" "room" "voice_turn_detected" 3000 emptyWorld).
Proof.
  split; [reflexivity|]. split; [discriminate|]. split; [discriminate|].
  pose proof (vad_finalisation emptyWorld speakingSession 3000 eq_refl
                ltac:(discriminate) ltac:(discriminate)) as H.
  cbv zeta in H.
  destruct (maybeFinalizeUtterance 3000 (emptyWorld, speakingSession)) as [w' s'].
  destruct H as [_ H].
  destruct (H (proj1 speakingSession_due)) as (Hvad & _ & _ & Henq & _).
  destruct Henq as [-> ->].
  { split; [|exact (proj2 speakingSession_due)]. simpl. discriminate. }
  split; [reflexivity|]. split; [|reflexivity].
  vm_compute. reflexivity.
Defined.

(** Downmix rounds the mean of the channels, halves up. *)
Example downmix_stereo : downmixToMono [1; 2; 3; 4; -3; -2; 7] 2 = [2; 4; -2].
Proof. reflexivity. Qed.

(** A frame of constant 492 reaches the start threshold, 491 does not. *)
Example rms_threshold :
  rmsAtLeast [492; -492] VAD_START_RMS = true
  /\ rmsAtLeast [491; 491] VAD_START_RMS = false
  /\ rmsAtLeast [] VAD_HOLD_RMS = false.
Proof. split; [|split]; vm_compute; reflexivity. Qed.

End VadFacts.

(** ** Playback pacer *)

Section PacerFacts.
Import Audio.

Lemma frameSize_480 : frameSize = 480%nat.
Proof. reflexivity. Qed.

Lemma padded_frame (n : nat) (samples : list Z) (from : nat) :
  let frame := subarray samples from (Nat.min (length samples) (from + n)) in
  (if (length frame <? n)%nat then typedSet frame 0 (replicate n 0) else frame)
  = take n (drop from samples ++ replicate n 0).
Proof.
  cbv zeta. unfold subarray, typedSet.
  set (rem := drop from samples).
  assert (Hrem : length rem = (length samples - from)%nat) by apply length_drop.
  destruct (decide (n <= length rem)%nat) as [Hge|Hlt].
  - replace (Nat.min (length samples) (from + n) - from)%nat with n by lia.
    rewrite (proj2 (Nat.ltb_ge _ _)) by (rewrite length_take; lia).
    by rewrite take_app_le.
  - replace (Nat.min (length samples) (from + n) - from)%nat with (length rem) by lia.
    rewrite firstn_all.
    rewrite (proj2 (Nat.ltb_lt _ _)) by lia.
    unfold bufWrite. rewrite take_0, Nat.add_0_l, app_nil_l.
    rewrite take_app_ge by lia. f_equal.
    rewrite drop_replicate, take_replicate. f_equal. lia.
Qed.

Lemma tickFrames_logged (s : ServerCallSession) (calls : list EngineCall) s' :
  engineCalls s' = engineCalls s ++ calls ->
  framesOf (drop (length (engineCalls s)) (engineCalls s')) = framesOf calls.
Proof. intros ->. by rewrite drop_app_length. Qed.

Lemma framesFrom_done fuel samples from :
  (length samples <= from)%nat -> framesFrom fuel samples from = [].
Proof.
  intros H. destruct fuel; [done|]. simpl.
  by rewrite (proj2 (Nat.leb_le _ _) H).
Qed.

Lemma framesFrom_fuel fuel samples from :
  (length samples - from <= fuel)%nat ->
  framesFrom fuel samples from = framesFrom (length samples) samples from.
Proof.
  revert from. 
  assert (H : forall f1 f2 from, (length samples - from <= f1)%nat ->
                (length samples - from <= f2)%nat ->
                framesFrom f1 samples from = framesFrom f2 samples from).
  { induction f1 as [|f1 IH]; intros f2 from H1 H2.
    - rewrite !framesFrom_done by lia. done.
    - destruct f2 as [|f2]; [rewrite !framesFrom_done by lia; done|].
      simpl. destruct (length samples <=? from)%nat eqn:E; [done|].
      apply Nat.leb_gt in E. f_equal. apply IH; lia. }
  intros from Hf. apply H; lia.
Qed.

(** Playing one item: a frame per tick while samples are left, then one
    tick that discards the item. *)
Lemma play_item fuel : forall s item rest,
  playbackQueue s = item :: rest ->
  (length (itemSamples item) - cursor item <= fuel)%nat ->
  let frames := framesFrom fuel (itemSamples item) (cursor item) in
  let s' := tickTimes (S (length frames)) s in
  playbackQueue s' = rest
  /\ engineCalls s' = engineCalls s ++ map (fun f => OnData f true) frames
  /\ playbackTimer s' = playbackTimer s.
Proof.
  induction fuel as [|fuel IH]; intros s item rest Hq Hfuel.
  - simpl. unfold playbackTick. rewrite Hq.
    rewrite (proj2 (Nat.leb_le _ _)) by lia. simpl. by rewrite app_nil_r.
  - simpl framesFrom.
    destruct (length (itemSamples item) <=? cursor item)%nat eqn:E.
    + simpl. unfold playbackTick. rewrite Hq, E. simpl. by rewrite app_nil_r.
    + apply Nat.leb_gt in E. cbv zeta. simpl length. 
      change (tickTimes (S (S ?n)) s) with (tickTimes (S n) (playbackTick true s)).
      set (s1 := playbackTick true s).
      set (item1 := {| itemSamples := itemSamples item;
                       itemSampleRate := itemSampleRate item;
                       cursor := Nat.min (length (itemSamples item))
                                         (cursor item + frameSize) |}).
      assert (Hs1 : playbackQueue s1 = item1 :: rest
                    /\ engineCalls s1
                       = engineCalls s
                         ++ [OnData (take 480 (drop (cursor item) (itemSamples item)
                                               ++ replicate 480 0)) true]
                    /\ playbackTimer s1 = playbackTimer s).
      { subst s1. unfold playbackTick. rewrite Hq.
        rewrite (proj2 (Nat.leb_gt _ _)) by lia.
        rewrite padded_frame, !frameSize_480. done. }
      destruct Hs1 as (Hq1 & Hc1 & Ht1).
      assert (Hsame : framesFrom fuel (itemSamples item) (cursor item + 480)
                      = framesFrom fuel (itemSamples item1) (cursor item1)).
      { simpl. rewrite frameSize_480.
        destruct (decide (length (itemSamples item) <= cursor item + 480)%nat).
        - rewrite !framesFrom_done by lia. done.
        - f_equal. lia. }
      rewrite Hsame.
      destruct (IH s1 item1 rest Hq1) as (H1 & H2 & H3).
      { simpl. rewrite frameSize_480. lia. }
      cbv zeta in H1, H2, H3. rewrite H1, H2, H3, Hc1, Ht1.
      split; [done|]. split; [|done]. by rewrite <- app_assoc.
Qed.

Lemma tickTimes_add a b s : tickTimes (a + b) s = tickTimes b (tickTimes a s).
Proof. revert s. induction a as [|a IH]; intros s; [done|]. simpl. apply IH. Qed.

(** Playing a whole queue: the pacer hands over the frames of every item
    in order and ends with an empty queue. *)
Lemma play_queue (queue : list PlaybackItem) : forall s,
  playbackQueue s = queue ->
  let s' := tickTimes (ticksFor queue) s in
  playbackQueue s' = []
  /\ engineCalls s'
     = engineCalls s ++ map (fun f => OnData f true) (concat (map itemFrames queue))
  /\ playbackTimer s' = playbackTimer s.
Proof.
  induction queue as [|item rest IH]; intros s Hq.
  - simpl. by rewrite app_nil_r.
  - cbv zeta.
    change (ticksFor (item :: rest))
      with (S (length (itemFrames item)) + ticksFor rest)%nat.
    rewrite tickTimes_add.
    destruct (play_item (length (itemSamples item)) s item rest Hq) as (H1 & H2 & H3);
      [lia|]. cbv zeta in H1, H2, H3. fold (itemFrames item) in H1, H2, H3.
    destruct (IH _ H1) as (G1 & G2 & G3). cbv zeta in G1, G2, G3.
    rewrite G1, G2, G3, H2, H3. split; [done|]. split; [|done].
    simpl. by rewrite map_app, app_assoc.
Qed.

Lemma framesFrom_480 fuel samples from :
  Forall (fun frame => length frame = 480%nat) (framesFrom fuel samples from).
Proof.
  revert from. induction fuel as [|fuel IH]; intros from; cbn [framesFrom]; [done|].
  destruct (length samples <=? from)%nat; [done|]. constructor; [|apply IH].
  rewrite length_take, length_app, length_replicate. lia.
Qed.

Lemma framesOf_onData frames : framesOf (map (fun f => OnData f true) frames) = frames.
Proof. induction frames as [|f fs IH]; [done|]. simpl. by rewrite IH. Qed.

(** C2, as the code has it.  On a timer tick with a non-empty queue the
    pacer hands the audio source exactly one frame of exactly 480 samples
    when the head item has unread samples (the unread samples, at most 480
    of them, followed by zeros), and advances the cursor; when the head
    item is exhausted it discards the item and hands over nothing on that
    tick.  While the source accepts the frames the timer keeps running,
    and after one tick per frame and one more per item the queue is empty,
    the source having received the frames of all items in order, each of
    480 samples. *)
Theorem playback_tick_frames (s : ServerCallSession) (accepted : bool)
    (current : PlaybackItem) (rest : list PlaybackItem) :
  playbackQueue s = current :: rest ->
  ((cursor current < length (itemSamples current))%nat ->
     exists frame,
       tickFrames accepted s = [frame]
       /\ length frame = 480%nat
       /\ frame = take 480 (drop (cursor current) (itemSamples current) ++ replicate 480 0)
       /\ (accepted = true ->
           playbackTimer (playbackTick accepted s) = playbackTimer s
           /\ playbackQueue (playbackTick accepted s)
              = {| itemSamples := itemSamples current;
                   itemSampleRate := itemSampleRate current;
                   cursor := Nat.min (length (itemSamples current)) (cursor current + 480) |}
                :: rest))
  /\ ((length (itemSamples current) <= cursor current)%nat ->
      tickFrames accepted s = []
      /\ playbackQueue (playbackTick accepted s) = rest
      /\ playbackTimer (playbackTick accepted s) = playbackTimer s)
  /\ (let s' := tickTimes (ticksFor (current :: rest)) s in
      let frames := framesOf (drop (length (engineCalls s)) (engineCalls s')) in
      playbackQueue s' = []
      /\ playbackTimer s' = playbackTimer s
      /\ frames = concat (map itemFrames (current :: rest))
      /\ Forall (fun frame => length frame = 480%nat) frames).
Proof.
  intros Hq. split; [|split].
  - unfold tickFrames, playbackTick. rewrite Hq.
    intros Hlt. rewrite (proj2 (Nat.leb_gt _ _)) by lia.
    rewrite padded_frame, !frameSize_480.
    assert (Hlen : length (take 480 (drop (cursor current) (itemSamples current)
                                     ++ replicate 480 0)) = 480%nat).
    { rewrite length_take, length_app, length_replicate. lia. }
    remember (take 480 _) as frame eqn:Hframe.
    exists frame. split; [|split; [done|split; [done|]]].
    + destruct accepted.
      * by erewrite tickFrames_logged by (simpl; reflexivity).
      * unfold stopPlaybackTimer. simpl.
        destruct (playbackTimer s).
        -- erewrite (tickFrames_logged s [_; ClearInterval]).
           2:{ simpl. by rewrite <- app_assoc. }
           reflexivity.
        -- by erewrite tickFrames_logged by (simpl; reflexivity).
    + intros ->. done.
  - unfold tickFrames, playbackTick. rewrite Hq.
    intros Hge. rewrite (proj2 (Nat.leb_le _ _)) by lia. simpl.
    by rewrite drop_all.
  - destruct (play_queue (current :: rest) s Hq) as (H1 & H2 & H3).
    cbv zeta in H1, H2, H3 |- *. rewrite H1, H2, H3, drop_app_length, framesOf_onData.
    split; [done|]. split; [done|]. split; [done|].
    apply Forall_concat, Forall_map, Forall_forall. intros item _. apply framesFrom_480.
Qed.

Lemma playback_tick_frames_witness :
  playbackQueue (enqueueAssistantAudio (newSession "room" "user" "bot") [1; 2; 3])
  = [{| itemSamples := [1; 2; 3]; itemSampleRate := PLAYBACK_SAMPLE_RATE; cursor := 0 |}]
  /\ (exists frame,
        tickFrames true (enqueueAssistantAudio (newSession "room" "user" "bot") [1; 2; 3])
        = [frame]
        /\ length frame = 480%nat
        /\ frame = take 480 (drop 0 [1; 2; 3] ++ replicate 480 0)).
Proof.
  split; [reflexivity|].
  destruct (playback_tick_frames
              (enqueueAssistantAudio (newSession "room" "user" "bot") [1; 2; 3]) true
              {| itemSamples := [1; 2; 3]; itemSampleRate := PLAYBACK_SAMPLE_RATE;
                 cursor := 0 |}
              [] eq_refl) as [H _].
  destruct H as (frame & H1 & H2 & H3 & _); [simpl; lia|].
  exists frame. by split; [|split].
Defined.

(** C2 as stated fails: the queue of [pacedSession] is not empty and its
    timer runs, yet the next tick hands no frame to the audio source. *)
Lemma playback_tick_without_frame :
  playbackQueue pacedSession <> []
  /\ playbackTimer pacedSession = true
  /\ tickFrames true pacedSession = []
  /\ ~ (forall s accepted, playbackQueue s <> [] ->
        exists frame, tickFrames accepted s = [frame] /\ length frame = 480%nat).
Proof.
  split; [discriminate|]. split; [reflexivity|]. split; [reflexivity|].
  intros H. destruct (H pacedSession true) as [frame [Hf _]]; [discriminate|].
  discriminate Hf.
Qed.

End PacerFacts.

(** ** Session teardown *)

Section CloseFacts.

Lemma onSession_serverSessions ref (g : ServerCallSession -> ServerCallSession) w :
  serverSessions (onSession ref (fun '(w, s) => (w, g s)) w) = serverSessions w.
Proof. unfold onSession. by destruct (sessions w !! ref). Qed.

Lemma closeSession_absent roomId userPeerId w :
  serverSessions w !! roomPeerKey roomId userPeerId = None ->
  closeSession roomId userPeerId w = w.
Proof. intros H. unfold closeSession. by rewrite H. Qed.

Lemma closeSession_forgets roomId userPeerId w :
  serverSessions (closeSession roomId userPeerId w) !! roomPeerKey roomId userPeerId = None.
Proof.
  unfold closeSession.
  destruct (serverSessions w !! roomPeerKey roomId userPeerId) as [ref|] eqn:H; [|done].
  rewrite onSession_serverSessions. simpl. apply lookup_delete_eq.
Qed.

(** C8. Closing twice in succession leaves every table and every session
    object as closing once does: after the first call the session table
    has no entry for the key, and on an absent session [closeSession]
    changes nothing (no table entry, no session object, no engine call). *)
Theorem closeSession_idempotent (roomId userPeerId : string) (w : World) :
  closeSession roomId userPeerId (closeSession roomId userPeerId w)
  = closeSession roomId userPeerId w
  /\ serverSessions (closeSession roomId userPeerId w) !! roomPeerKey roomId userPeerId
     = None
  /\ (serverSessions w !! roomPeerKey roomId userPeerId = None ->
      closeSession roomId userPeerId w = w).
Proof.
  split; [|split].
  - apply closeSession_absent, closeSession_forgets.
  - apply closeSession_forgets.
  - apply closeSession_absent.
Qed.

Lemma closeSession_idempotent_witness :
  closeSession "room" "user" (closeSession "room" "user" liveWorld)
  = closeSession "room" "user" liveWorld
  /\ serverSessions (closeSession "room" "user" liveWorld) !! roomPeerKey "room" "user"
     = None
  /\ (serverSessions liveWorld !! roomPeerKey "room" "user" = None ->
      closeSession "room" "user" liveWorld = liveWorld).
Proof. apply (closeSession_idempotent "room" "user" liveWorld). Defined.

(** What the first call does on [liveWorld]: the session leaves the table,
    the sink is stopped, the track is stopped and the connection closed. *)
Example closeSession_liveWorld :
  serverSessions liveWorld !! roomPeerKey "room" "user" = Some 0%nat
  /\ (engineCalls <$> sessions (closeSession "room" "user" liveWorld) !! 0%nat)
     = Some [AddTrack; SetRemoteDescription; NewSink 0; SinkStop 0; TrackStop; PcClose].
Proof. split; vm_compute; reflexivity. Qed.

End CloseFacts.

(** ** Strings *)

Section TrimFacts.

Lemma trimStart_head cs :
  trimStartChars cs = []
  \/ exists c rest, trimStartChars cs = c :: rest /\ isWhiteSpace c = false.
Proof.
  induction cs as [|c cs IH]; [by left|]. simpl.
  destruct (isWhiteSpace c) eqn:Hc; [done|]. right. eauto.
Qed.

Lemma trimStart_fixed c rest :
  isWhiteSpace c = false -> trimStartChars (c :: rest) = c :: rest.
Proof. intros H. simpl. by rewrite H. Qed.

Lemma trimStart_last cs c :
  isWhiteSpace c = false -> exists front, trimStartChars (cs ++ [c]) = front ++ [c].
Proof.
  intros Hc. induction cs as [|d cs IH]; simpl.
  - rewrite Hc. by exists [].
  - destruct (isWhiteSpace d); [done|]. by exists (d :: cs).
Qed.

Lemma trimChars_idempotent cs : trimChars (trimChars cs) = trimChars cs.
Proof.
  unfold trimChars.
  destruct (trimStart_head cs) as [->|(c & rest & -> & Hc)]; [done|].
  rewrite reverse_cons.
  destruct (trimStart_last (reverse rest) c Hc) as [front Hfront].
  destruct (trimStart_head (reverse rest ++ [c])) as [Hnil|(d & tail & Hd & Hws)].
  - rewrite Hnil in Hfront. by destruct front.
  - rewrite Hd. rewrite Hd in Hfront.
    rewrite Hfront, reverse_app. simpl. rewrite Hc.
    rewrite reverse_cons, reverse_involutive, <- Hfront.
    rewrite (trimStart_fixed d _ Hws), Hfront, reverse_app. done.
Qed.

Lemma trim_idempotent s : trim (trim s) = trim s.
Proof.
  unfold trim. by rewrite list_ascii_of_string_of_list_ascii, trimChars_idempotent.
Qed.

Example trim_hello :
  trim "  hello world " = "hello world"%string /\ trim "   " = ""%string.
Proof. split; reflexivity. Qed.

End TrimFacts.

(** ** Turn worker *)

Section WorkerFacts.

Lemma remoteAttempt_trimmed r t :
  remoteAttempt r = Some t -> truthy t = true /\ trim t = t.
Proof.
  unfold remoteAttempt. destruct r as [| |body]; try done.
  destruct (nullish body); [done|].
  destruct (getField "text" body) as [| | | |text| |]; try done.
  destruct (truthy (trim text)) eqn:Ht; [|done].
  intros [= <-]. split; [done|apply trim_idempotent].
Qed.

Lemma transcribeAudioBuffer_trimmed c t :
  transcribeAudioBuffer c = Some t -> truthy t = true /\ trim t = t.
Proof.
  assert (Hremote : transcribeWithOpenAi c = Some t -> truthy t = true /\ trim t = t).
  { unfold transcribeWithOpenAi. destruct (sttApiKey c); [|done]. simpl.
    destruct (remoteAttempt (sttRemote c 0%nat)) eqn:H0.
    - intros [= <-]. eapply remoteAttempt_trimmed, H0.
    - apply remoteAttempt_trimmed. }
  unfold transcribeAudioBuffer. destruct (sttLocal c) as [|stdout]; [done|].
  destruct (truthy (trim stdout)) eqn:Ht; [|done].
  intros [= <-]. split; [done|apply trim_idempotent].
Qed.

(** A transcript, when there is one, is trimmed and not empty. *)
Lemma transcribePcmTurn_trimmed turn c raw :
  transcribePcmTurn turn c = Normal (Some raw) -> truthy raw = true /\ trim raw = raw.
Proof.
  unfold transcribePcmTurn.
  destruct (Audio.createWavFromPcm16Mono _ _); [|done].
  simpl. intros [= H]. by apply (transcribeAudioBuffer_trimmed c).
Qed.

Lemma synthesizeAssistantReply_returns input c :
  exists result calls, synthesizeAssistantReply input c = Normal (result, calls).
Proof.
  unfold synthesizeAssistantReply.
  destruct (tryJarvisTtsBuffer _ c); eauto.
Qed.

Lemma emitted_enqueueTo line w sink : emitted (enqueueTo line w sink) = emitted w.
Proof.
  unfold enqueueTo. destruct (controllers w !! sink) as [c|]; [|done].
  unfold enqueue. by destruct (ctlOpen c).
Qed.

Lemma emitted_emit peerId roomId event w :
  emitted (emit peerId roomId event w) = emitted w ++ [event].
Proof.
  unfold emit. simpl.
  destruct (subscribers w !! subscriberKey peerId roomId) as [[|sink sinks]|]; try done.
  generalize (sink :: sinks). intros l.
  set (w0 := set_emitted _ w). change (emitted w ++ [event]) with (emitted w0).
  generalize w0. induction l as [|x l IH]; intros w1; [done|].
  simpl. by rewrite IH, emitted_enqueueTo.
Qed.

Lemma roomChat_enqueueTo line w sink : roomChat (enqueueTo line w sink) = roomChat w.
Proof.
  unfold enqueueTo. destruct (controllers w !! sink) as [c|]; [|done].
  unfold enqueue. by destruct (ctlOpen c).
Qed.

Lemma roomChat_emit peerId roomId event w :
  roomChat (emit peerId roomId event w) = roomChat w.
Proof.
  unfold emit.
  destruct (subscribers _ !! _) as [[|sink sinks]|]; try done.
  generalize (sink :: sinks). intros l.
  set (w0 := set_emitted _ w). change (roomChat w) with (roomChat w0).
  generalize w0. induction l as [|x l IH]; intros w1; [done|].
  simpl. by rewrite IH, roomChat_enqueueTo.
Qed.

Lemma enqueueAssistantAudio_lastTranscript s samples :
  lastTranscript (enqueueAssistantAudio s samples) = lastTranscript s.
Proof.
  unfold enqueueAssistantAudio, startPlaybackLoop.
  destruct samples; [done|]. simpl. by destruct (playbackTimer s).
Qed.

Lemma enqueueAssistantAudio_lastTranscriptAt s samples :
  lastTranscriptAt (enqueueAssistantAudio s samples) = lastTranscriptAt s.
Proof.
  unfold enqueueAssistantAudio, startPlaybackLoop.
  destruct samples; [done|]. simpl. by destruct (playbackTimer s).
Qed.

Lemma enqueueAssistantAudio_turnQueue s samples :
  turnQueue (enqueueAssistantAudio s samples) = turnQueue s.
Proof.
  unfold enqueueAssistantAudio, startPlaybackLoop.
  destruct samples; [done|]. simpl. by destruct (playbackTimer s).
Qed.

Lemma enqueueAssistantAudio_worker s samples :
  worker (enqueueAssistantAudio s samples) = worker s.
Proof.
  unfold enqueueAssistantAudio, startPlaybackLoop.
  destruct samples; [done|]. simpl. by destruct (playbackTimer s).
Qed.

Lemma enqueueAssistantAudio_processingTurn s samples :
  processingTurn (enqueueAssistantAudio s samples) = processingTurn s.
Proof.
  unfold enqueueAssistantAudio, startPlaybackLoop.
  destruct samples; [done|]. simpl. by destruct (playbackTimer s).
Qed.

Lemma assistantEvents_addChatEntry roomId entry w :
  assistantEvents (addChatEntry roomId entry w) = assistantEvents w.
Proof. done. Qed.

(** After a turn was published the worker waits for the transcript of the
    next queued turn; a stray decoder answer is ignored, and a transcript
    equal to the last one within the window is dropped. *)
Lemma resume_after_publish w1 s1 userEntry reply now turnId raw now1 turn2 queue c2 now2
    ffmpeg nowDecode id3 id4 :
  lastTranscript s1 = raw -> lastTranscriptAt s1 = now1 ->
  turnQueue s1 = turn2 :: queue ->
  transcribePcmTurn turn2 c2 = Normal (Some raw) ->
  now2 - now1 < 2500 ->
  let ws := publishTurn userEntry reply now turnId (w1, s1) in
  worker ws.2 = AwaitTranscript turn2
  /\ resumeWorker (Decoded ffmpeg) nowDecode id3 ws = ws
  /\ resumeWorker (Transcribed c2) now2 id4 ws = (ws.1, drainNext ws.2)
  /\ exists event, assistantEvents ws.1 = assistantEvents w1 ++ [event].
Proof.
  intros Hl Hat Hq Ht Hwin. cbv zeta. unfold publishTurn.
  destruct (transcribePcmTurn_trimmed _ _ _ Ht) as [Hne Htrim].
  assert (Hd : drainNext s1 = set_worker (AwaitTranscript turn2) (set_turnQueue queue s1))
    by (unfold drainNext; by rewrite Hq).
  rewrite Hd. cbn [fst snd].
  split; [done|]. split; [done|]. split.
  - unfold resumeWorker. simpl worker. cbv iota beta. rewrite Ht.
    simpl fmap. cbv iota beta. rewrite Htrim, Hne. simpl negb. cbv iota.
    simpl lastTranscript. simpl lastTranscriptAt. rewrite Hl, Hat.
    by rewrite String.eqb_refl, (proj2 (Z.ltb_lt _ _) Hwin).
  - eexists. unfold assistantEvents. rewrite emitted_emit, filter_app. simpl.
    reflexivity.
Qed.

(** A turn without transcript is announced as empty and skipped: no chat
    entry, no assistant event, [lastTranscript] untouched. *)
Lemma empty_transcript_skipped (w : World) (s : ServerCallSession) turn c now turnId :
  worker s = AwaitTranscript turn ->
  transcribePcmTurn turn c = Normal None ->
  resumeWorker (Transcribed c) now turnId (w, s)
  = (emitSystem (userPeerId s) (roomId s) "transcription_empty" now w, drainNext s).
Proof. intros Hw Ht. unfold resumeWorker. by rewrite Hw, Ht. Qed.

(** The de-duplication step of one turn. *)
Lemma dedup_step (w : World) (s : ServerCallSession) turn c raw now turnId :
  worker s = AwaitTranscript turn ->
  transcribePcmTurn turn c = Normal (Some raw) ->
  let transcript := trim raw in
  let '(w', s') := resumeWorker (Transcribed c) now turnId (w, s) in
  (transcript = lastTranscript s /\ now - lastTranscriptAt s < 2500 ->
     w' = w /\ roomChat w' = roomChat w /\ emitted w' = emitted w
     /\ lastTranscript s' = lastTranscript s
     /\ lastTranscriptAt s' = lastTranscriptAt s
     /\ s' = drainNext s)
  /\ (~ (transcript = lastTranscript s /\ now - lastTranscriptAt s < 2500) ->
      lastTranscript s' = transcript /\ lastTranscriptAt s' = now
      /\ exists userEntry,
           userEntry = {| role := RoleUser; message := transcript; timestamp := now |}
           /\ w' = addChatEntry (roomId s) userEntry w
           /\ worker s' = AwaitReply transcript userEntry).
Proof.
  intros Hw Ht. cbv zeta.
  destruct (transcribePcmTurn_trimmed _ _ _ Ht) as [Hne Htrim].
  unfold resumeWorker. rewrite Hw, Ht. simpl fmap. cbv iota beta.
  rewrite Htrim, Hne. simpl negb. cbv iota.
  destruct (String.eqb raw (lastTranscript s) && _) eqn:Hdup.
  + apply andb_true_iff in Hdup as [Heq Hlt].
    apply String.eqb_eq in Heq. apply Z.ltb_lt in Hlt.
    split; [|intros Hno; exfalso; by apply Hno].
    intros _. repeat split; try done.
    all: unfold drainNext, drainFinally; by destruct (turnQueue s).
  + apply andb_false_iff in Hdup.
    split.
    * intros [Heq Hlt]. destruct Hdup as [Hd|Hd].
      -- apply String.eqb_neq in Hd. done.
      -- apply Z.ltb_ge in Hd. lia.
    * intros _. split; [done|]. split; [done|]. eexists. repeat split.
Qed.

(** Two back-to-back turns with the same transcript, the second within the
    window of the first. *)
Lemma dedup_pair (w : World) (s : ServerCallSession) turn1 turn2 queue c1 c2 raw
    reply ffmpeg now1 now2 nowReply nowDecode id1 id2 id3 id4 :
  worker s = AwaitTranscript turn1 ->
  turnQueue s = turn2 :: queue ->
  transcribePcmTurn turn1 c1 = Normal (Some raw) ->
  transcribePcmTurn turn2 c2 = Normal (Some raw) ->
  ~ (trim raw = lastTranscript s /\ now1 - lastTranscriptAt s < 2500) ->
  now2 - now1 < 2500 ->
  let ws1 := resumeWorker (Transcribed c1) now1 id1 (w, s) in
  let ws2 := resumeWorker (Replied reply) nowReply id2 ws1 in
  let ws3 := resumeWorker (Decoded ffmpeg) nowDecode id3 ws2 in
  let ws4 := resumeWorker (Transcribed c2) now2 id4 ws3 in
  (exists event, assistantEvents ws4.1 = assistantEvents w ++ [event])
  /\ ws4.1 = ws3.1
  /\ worker ws3.2 = AwaitTranscript turn2.
Proof.
  intros Hw Hq Ht1 Ht2 Hfresh Hwin ws1 ws2 ws3 ws4.
  destruct (transcribePcmTurn_trimmed _ _ _ Ht1) as [Hne Htrim].
  rewrite Htrim in Hfresh.
  assert (Hdup : String.eqb raw (lastTranscript s)
                 && (now1 - lastTranscriptAt s <? 2500) = false).
  { apply not_true_is_false. intros H. apply andb_true_iff in H as [H1 H2].
    apply Hfresh. split; [by apply String.eqb_eq|by apply Z.ltb_lt]. }
  set (userEntry := {| role := RoleUser; message := raw; timestamp := now1 |}).
  set (s1 := set_worker (AwaitReply raw userEntry)
               (set_lastTranscriptAt now1 (set_lastTranscript raw s))).
  assert (E1 : ws1 = (addChatEntry (roomId s) userEntry w, s1)).
  { subst ws1. unfold resumeWorker. rewrite Hw, Ht1. simpl fmap. cbv iota beta.
    rewrite Htrim, Hne. simpl negb. cbv iota. by rewrite Hdup. }
  destruct (synthesizeAssistantReply_returns raw reply) as (result & calls & Hsynth).
  set (replyEntry := {| role := RoleAssistant; message := text result;
                        timestamp := nowReply |}).
  set (w2 := addChatEntry (roomId s) replyEntry (addChatEntry (roomId s) userEntry w)).
  assert (E3 : exists now turnId s2,
             ws3 = publishTurn userEntry replyEntry now turnId (w2, s2)
             /\ lastTranscript s2 = raw /\ lastTranscriptAt s2 = now1
             /\ turnQueue s2 = turn2 :: queue).
  { subst ws3 ws2. rewrite E1. unfold resumeWorker at 2. simpl worker. cbv iota beta.
    rewrite Hsynth. cbv iota beta. fold replyEntry. simpl roomId. fold w2.
    destruct (audioBuffer result) as [buffer|].
    - unfold resumeWorker. simpl worker. cbv iota beta.
      eexists nowDecode, id3, _. split; [reflexivity|].
      destruct (decodeAudioToPcm16Mono _ _ _) as [[|? ?]|]; try done.
      by rewrite enqueueAssistantAudio_lastTranscript,
           enqueueAssistantAudio_lastTranscriptAt, enqueueAssistantAudio_turnQueue.
    - destruct (resume_after_publish w2 s1 userEntry replyEntry nowReply id2
                  raw now1 turn2 queue c2 now2 ffmpeg nowDecode id3 id4)
        as (_ & Hskip & _); try done.
      rewrite Hskip. by exists nowReply, id2, s1. }
  destruct E3 as (now & turnId & s2 & E3 & Hl & Hat & Hq2).
  destruct (resume_after_publish w2 s2 userEntry replyEntry now turnId
              raw now1 turn2 queue c2 now2 ffmpeg nowDecode id3 id4
              Hl Hat Hq2 Ht2 Hwin) as (Hworker & _ & Hnext & event & Hev).
  rewrite <- E3 in Hworker, Hnext, Hev.
  subst ws4. rewrite Hnext. cbn [fst snd].
  split; [|done]. exists event. by rewrite Hev.
Qed.

(** C3.  A turn whose transcription yields a transcript is dropped, with
    no chat entry and no event, when the trimmed transcript equals
    [lastTranscript] and less than 2500 ms have passed since
    [lastTranscriptAt]; otherwise both are updated to the transcript and
    the time, the user entry is appended, and the turn goes on to the
    reply.  If the next queued turn then yields the same transcript within
    the window, it is dropped: the two turns together produce exactly one
    assistant event. *)
Theorem turn_deduplication (w : World) (s : ServerCallSession) turn c raw now turnId :
  worker s = AwaitTranscript turn ->
  transcribePcmTurn turn c = Normal (Some raw) ->
  let transcript := trim raw in
  let ws1 := resumeWorker (Transcribed c) now turnId (w, s) in
  (transcript = lastTranscript s /\ now - lastTranscriptAt s < 2500 ->
     ws1.1 = w /\ roomChat ws1.1 = roomChat w /\ emitted ws1.1 = emitted w
     /\ lastTranscript ws1.2 = lastTranscript s
     /\ lastTranscriptAt ws1.2 = lastTranscriptAt s
     /\ ws1.2 = drainNext s)
  /\ (~ (transcript = lastTranscript s /\ now - lastTranscriptAt s < 2500) ->
      lastTranscript ws1.2 = transcript /\ lastTranscriptAt ws1.2 = now
      /\ (exists userEntry,
            userEntry = {| role := RoleUser; message := transcript; timestamp := now |}
            /\ ws1.1 = addChatEntry (roomId s) userEntry w
            /\ worker ws1.2 = AwaitReply transcript userEntry)
      /\ forall turn2 queue c2 reply ffmpeg now2 nowReply nowDecode id2 id3 id4,
          turnQueue s = turn2 :: queue ->
          transcribePcmTurn turn2 c2 = Normal (Some raw) ->
          now2 - now < 2500 ->
          let ws2 := resumeWorker (Replied reply) nowReply id2 ws1 in
          let ws3 := resumeWorker (Decoded ffmpeg) nowDecode id3 ws2 in
          let ws4 := resumeWorker (Transcribed c2) now2 id4 ws3 in
          (exists event, assistantEvents ws4.1 = assistantEvents w ++ [event])
          /\ ws4.1 = ws3.1 /\ roomChat ws4.1 = roomChat ws3.1
          /\ worker ws3.2 = AwaitTranscript turn2).
Proof.
  intros Hw Ht transcript ws1.
  pose proof (dedup_step w s turn c raw now turnId Hw Ht) as Hstep.
  cbv zeta in Hstep. fold ws1 in Hstep. destruct ws1 as [w1 s1] eqn:E1.
  destruct Hstep as [Hdup Hfresh]. split; [exact Hdup|].
  intros Hno. destruct (Hfresh Hno) as (Hl & Hat & Hentry).
  split; [exact Hl|]. split; [exact Hat|]. split; [exact Hentry|].
  intros turn2 queue c2 reply ffmpeg now2 nowReply nowDecode id2 id3 id4 Hq Ht2 Hwin.
  pose proof (dedup_pair w s turn turn2 queue c c2 raw reply ffmpeg now now2
                nowReply nowDecode turnId id2 id3 id4 Hw Hq Ht Ht2 Hno Hwin) as Hpair.
  cbv zeta in Hpair. fold ws1 in Hpair. rewrite E1 in Hpair.
  destruct Hpair as (Hev & Hsame & Hworker).
  cbv zeta. split; [exact Hev|]. split; [exact Hsame|].
  split; [by rewrite Hsame|exact Hworker].
Qed.

Lemma turn_deduplication_witness :
  worker waitingSession = AwaitTranscript helloTurn
  /\ transcribePcmTurn helloTurn helloStt = Normal (Some "hello"%string)
  /\ turnQueue waitingSession = [helloTurn]
  /\ ~ (trim "hello" = lastTranscript waitingSession
        /\ 1000 - lastTranscriptAt waitingSession < 2500)
  /\ (let ws1 := resumeWorker (Transcribed helloStt) 1000 "t1" (emptyWorld, waitingSession) in
      let ws2 := resumeWorker (Replied silentCollaborators) 1400 "t2" ws1 in
      let ws3 := resumeWorker (Decoded (fun _ _ => None)) 1900 "t3" ws2 in
      let ws4 := resumeWorker (Transcribed helloStt) 2500 "t4" ws3 in
      (exists event, assistantEvents ws4.1 = assistantEvents emptyWorld ++ [event])
      /\ ws4.1 = ws3.1 /\ roomChat ws4.1 = roomChat ws3.1
      /\ worker ws3.2 = AwaitTranscript helloTurn).
Proof.
  assert (Hfresh : ~ (trim "hello" = lastTranscript waitingSession
                      /\ 1000 - lastTranscriptAt waitingSession < 2500)).
  { intros [H _]. vm_compute in H. discriminate H. }
  split; [reflexivity|]. split; [vm_compute; reflexivity|]. split; [reflexivity|].
  split; [exact Hfresh|].
  pose proof (turn_deduplication emptyWorld waitingSession helloTurn helloStt "hello"
                1000 "t1" eq_refl eq_refl) as H.
  cbv zeta in H. destruct H as [_ H]. destruct (H Hfresh) as (_ & _ & _ & Hpair).
  apply (Hpair helloTurn [] helloStt silentCollaborators (fun _ _ => None) 2500 1400 1900
               "t2" "t3" "t4"); [reflexivity | vm_compute; reflexivity | lia].
Defined.

End WorkerFacts.

(** ** Signaling hub *)

Section HubFacts.

Lemma controllers_enqueueTo_other line w sink ctl :
  ctl <> sink -> controllers (enqueueTo line w sink) !! ctl = controllers w !! ctl.
Proof.
  intros Hne. unfold enqueueTo. destruct (controllers w !! sink) as [c|]; [|done].
  unfold enqueue. destruct (ctlOpen c); [|done]. simpl.
  by rewrite lookup_insert_ne.
Qed.

(** [emit] writes to no controller outside the set found under the key. *)
Lemma emit_only_subscribers peerId roomId event w ctl :
  ctl ∉ default [] (subscribers w !! subscriberKey peerId roomId) ->
  controllers (emit peerId roomId event w) !! ctl = controllers w !! ctl.
Proof.
  unfold emit. cbn [subscribers set_emitted].
  destruct (subscribers w !! subscriberKey peerId roomId) as [[|sink sinks]|]; try done.
  cbn [default]. generalize (sink :: sinks). intros l Hnot.
  set (w0 := set_emitted _ w). change (controllers w) with (controllers w0).
  generalize w0. induction l as [|x l IH]; intros w1; [done|].
  simpl. rewrite IH by set_solver. apply controllers_enqueueTo_other. set_solver.
Qed.

Lemma controllers_onSession ref f w :
  (forall w s, controllers (f (w, s)).1 = controllers w) ->
  controllers (onSession ref f w) = controllers w.
Proof.
  intros Hf. unfold onSession. destruct (sessions w !! ref) as [s|]; [|done].
  specialize (Hf w s). by destruct (f (w, s)).
Qed.

Lemma controllers_closeSession roomId peerId w :
  controllers (closeSession roomId peerId w) = controllers w.
Proof.
  unfold closeSession. destruct (serverSessions w !! _); [|done].
  by rewrite controllers_onSession.
Qed.

(** An event without [to] (unset or empty) reaches no controller. *)
Lemma relay_without_to event now w :
  evTo event = None \/ evTo event = Some ""%string ->
  controllers (relaySignal event now w) = controllers w.
Proof.
  intros Hto. unfold relaySignal.
  destruct Hto as [-> | ->]; simpl;
    destruct (evType event); by rewrite ?controllers_closeSession.
Qed.

(** C4 fails on the code: the table key is [roomId::peerId], so peer [b::c]
    of room [a] and peer [c] of room [a::b] share the key [a::b::c].  The
    controller opened for the former receives the event addressed to the
    latter. *)
Theorem relay_reaches_other_subscriber :
  exists c,
    controllers strayRelay !! 0%nat = Some c
    /\ ctlPeerId c = "b::c"%string /\ ctlRoomId c = "a"%string
    /\ evTo strayEvent = Some "c"%string /\ evRoomId strayEvent = "a::b"%string
    /\ last (ctlLines c) = Some (DataLine strayEvent)
    /\ subscriberKey "b::c" "a" = subscriberKey "c" "a::b".
Proof.
  eexists. split; [vm_compute; reflexivity|]. repeat split.
Qed.

(** A candidate addressed to a peer without an open stream: nothing is
    delivered, and a subscriber of the addressed peer receives it. *)
Example relay_delivery :
  controllers (run [RelaySignal strayEvent 2]) = ∅
  /\ (ctlLines <$> controllers (run [OpenEventStream 0 "c" "a::b" 1;
                                      OpenEventStream 1 "d" "a::b" 1;
                                      RelaySignal strayEvent 2]) !! 0%nat)
     = Some [ReadyLine "c" "a::b";
             DataLine {| evType := System; evFrom := "server"; evTo := Some "c";
                         evRoomId := "a::b";
                         evPayload := systemPayload "signaling_connected";
                         evAt := 1 |};
             DataLine strayEvent]
  /\ (length <$> (ctlLines <$> controllers (run [OpenEventStream 0 "c" "a::b" 1;
                                      OpenEventStream 1 "d" "a::b" 1;
                                      RelaySignal strayEvent 2]) !! 1%nat))
     = Some 2%nat.
Proof. split; [|split]; vm_compute; reflexivity. Qed.

End HubFacts.

(** ** Invariants of the transition system *)

Section InvariantFacts.

Lemma tables_enqueueTo line w sink : tables (enqueueTo line w sink) = tables w.
Proof.
  unfold enqueueTo. destruct (controllers w !! sink) as [c|]; [|done].
  unfold enqueue. by destruct (ctlOpen c).
Qed.

Lemma tables_emit peerId roomId event w : tables (emit peerId roomId event w) = tables w.
Proof.
  unfold emit.
  destruct (subscribers _ !! _) as [[|sink sinks]|]; try done.
  generalize (sink :: sinks). intros l.
  set (w0 := set_emitted _ w). change (tables w) with (tables w0).
  generalize w0. induction l as [|x l IH]; intros w1; [done|].
  simpl. by rewrite IH, tables_enqueueTo.
Qed.

Lemma tables_emitSystem peerId roomId message now w :
  tables (emitSystem peerId roomId message now w) = tables w.
Proof. apply tables_emit. Qed.

Lemma tables_addChatEntry roomId entry w : tables (addChatEntry roomId entry w) = tables w.
Proof. done. Qed.

Lemma sessionOk_same s s' :
  turnQueue s' = turnQueue s -> worker s' = worker s ->
  processingTurn s' = processingTurn s -> sessionOk s -> sessionOk s'.
Proof. unfold sessionOk. by intros -> -> ->. Qed.




Lemma sessionOk_enqueueAssistantAudio s samples :
  sessionOk s -> sessionOk (enqueueAssistantAudio s samples).
Proof.
  apply sessionOk_same; unfold enqueueAssistantAudio, startPlaybackLoop;
    destruct samples; try done; simpl; by destruct (playbackTimer s).
Qed.

























End InvariantFacts.
(** ** Invariants of a session object *)

Section SoundFacts.

Local Ltac case_if H :=
  match goal with |- context [if ?b then _ else _] => destruct b eqn:H end.

Lemma utteranceMs_ge k v :
  0 < utteranceSampleRate v ->
  (inject_Z k <= utteranceMs v)%Q <-> k * utteranceSampleRate v <= 1000 * utteranceSamples v.
Proof.
  intros Hr. unfold utteranceMs.
  destruct (utteranceSampleRate v) as [|p|p] eqn:E; try lia.
  unfold Qle, Qdiv, Qmult, Qinv, inject_Z. simpl.
  rewrite Pos.mul_1_r. lia.
Qed.

Lemma pushVadFrame_length v frame :
  (length (preRollFrames v) <= PRE_ROLL_FRAMES)%nat ->
  (length (preRollFrames (pushVadFrame v frame)) <= PRE_ROLL_FRAMES)%nat.
Proof.
  intros H. unfold pushVadFrame. cbn [preRollFrames set_preRollFrames].
  destruct (_ <? _)%nat eqn:E.
  - rewrite length_drop, length_app. simpl. lia.
  - apply Nat.ltb_ge in E. exact E.
Qed.

Lemma totalLength_concat (frames : list (list Z)) (n : Z) :
  foldl (fun sum item => sum + Z.of_nat (length item)) n frames
  = n + Z.of_nat (length (concat frames)).
Proof.
  revert n. induction frames as [|f fs IH]; intros n; simpl; [lia|].
  rewrite IH, length_app. lia.
Qed.


Lemma vadOk_resetVad v :
  (length (preRollFrames v) <= PRE_ROLL_FRAMES)%nat -> vadOk (resetVad v).
Proof. intros H. split; [exact H|]. split; [done|]. split; [discriminate|done]. Qed.

Lemma turnsOk_drainFinally s : Forall turnOk (turnQueue s) -> turnsOk (drainFinally s).
Proof. intros H. unfold turnsOk, inFlight. simpl. by rewrite app_nil_r. Qed.

Lemma turnsOk_drainNext s : Forall turnOk (turnQueue s) -> turnsOk (drainNext s).
Proof.
  intros H. unfold drainNext. destruct (turnQueue s) as [|turn rest] eqn:Hq.
  - apply turnsOk_drainFinally. by rewrite Hq.
  - unfold turnsOk, inFlight. simpl. apply Forall_app. split.
    + by eapply Forall_cons_1.
    + apply Forall_singleton. by eapply Forall_cons_1.
Qed.

Lemma turnsOk_queue s : turnsOk s -> Forall turnOk (turnQueue s).
Proof. unfold turnsOk. rewrite Forall_app. tauto. Qed.

Lemma turnsOk_enqueueTurn s turn : turnsOk s -> turnOk turn -> turnsOk (enqueueTurn s turn).
Proof.
  intros Hs Ht. unfold enqueueTurn, drainTurnQueue.
  set (queue := if (3 <? _)%nat then _ else _).
  assert (Hq : Forall turnOk queue).
  { subst queue. assert (Forall turnOk (turnQueue s ++ [turn])).
    { apply Forall_app. split; [by apply turnsOk_queue|by apply Forall_singleton]. }
    destruct (3 <? _)%nat; [by apply Forall_drop|done]. }
  cbn [processingTurn set_turnQueue].
  destruct (processingTurn s).
  - unfold turnsOk in *. cbn [turnQueue inFlight worker set_turnQueue].
    apply Forall_app. split; [exact Hq|]. apply Forall_app in Hs. tauto.
  - by apply turnsOk_drainNext.
Qed.

Lemma enqueueTurn_other s turn :
  vad (enqueueTurn s turn) = vad s
  /\ playbackQueue (enqueueTurn s turn) = playbackQueue s
  /\ playbackTimer (enqueueTurn s turn) = playbackTimer s.
Proof.
  unfold enqueueTurn, drainTurnQueue. cbn [processingTurn set_turnQueue].
  destruct (processingTurn s); [done|].
  unfold drainNext. cbn [turnQueue set_processingTurn set_turnQueue].
  by destruct (if (3 <? _)%nat then _ else _).
Qed.

Lemma vadOk_fed v :
  vadFed v ->
  (inSpeech v = true -> 1000 * utteranceSamples v < TURN_MAX_MS * utteranceSampleRate v) ->
  vadOk v.
Proof.
  intros (Hpre & Hsum & Hrate & Hidle) Hcap.
  split; [exact Hpre|]. split; [exact Hsum|]. split; [|exact Hidle].
  intros Hin. split; [by apply Hrate|by apply Hcap].
Qed.

Lemma vadFed_ok v : vadOk v -> vadFed v.
Proof.
  intros (Hpre & Hsum & Hrate & Hidle).
  split; [exact Hpre|]. split; [exact Hsum|]. split; [|exact Hidle].
  intros Hin. by apply Hrate.
Qed.

Lemma sound_maybeFinalizeUtterance now w s :
  vadFed (vad s) -> turnsOk s -> pacerOk s ->
  sessionSound (maybeFinalizeUtterance now (w, s)).2.
Proof.
  intros Hfed Hturns Hpacer. pose proof Hfed as (Hpre & Hsum & Hrate & Hidle).
  unfold maybeFinalizeUtterance.
  destruct (inSpeech (vad s)) eqn:Hin; cbn [negb].
  2:{ split; [|done]. apply vadOk_fed; [done|]. cbn [snd]. by rewrite Hin. }
  specialize (Hrate eq_refl).
  case_if Hzero.
  { split; [|done]. apply vadOk_fed; [done|]. cbn [snd]. intros _.
    apply orb_true_iff in Hzero as [Hz|Hz]; apply Z.eqb_eq in Hz; unfold TURN_MAX_MS; lia. }
  apply orb_false_iff in Hzero as [Hz1 Hz2].
  case_if Hguard.
  { split; [|done]. apply vadOk_fed; [done|]. cbn [snd]. intros _.
    apply andb_true_iff in Hguard as [Hmax _].
    apply Qltb_true in Hmax. rewrite utteranceMs_ge in Hmax by lia.
    unfold TURN_MAX_MS in *. lia. }
  assert (Hreset : vadOk (resetVad (vad s))) by by apply vadOk_resetVad.
  case_if Hdrop.
  { split; [exact Hreset|split; [exact Hturns|exact Hpacer]]. }
  cbn [snd]. apply orb_false_iff in Hdrop as [Hlen Hmin].
  destruct (enqueueTurn_other (set_vad (resetVad (vad s)) s)
              {| turnSamples := Audio.concatInt16 (utteranceFrames (vad s));
                 turnSampleRate := utteranceSampleRate (vad s) |}) as (Hv & Hq & Ht).
  split; [|split].
  - by rewrite Hv.
  - apply turnsOk_enqueueTurn; [done|].
    rewrite concatInt16_concat in *.
    split; [|split; [done|]]; cbn [turnSamples turnSampleRate].
    + intros E. rewrite E in Hlen. done.
    + apply Qltb_false in Hmin. rewrite utteranceMs_ge in Hmin by lia.
      rewrite Hsum in Hmin. unfold TURN_MIN_MS in *. lia.
  - unfold pacerOk. by rewrite Hq, Ht.
Qed.


Lemma rmsAtLeast_nonempty samples threshold :
  (0 < threshold)%Q -> Audio.rmsAtLeast samples threshold = true -> samples <> [].
Proof.
  intros Hpos H ->. unfold Audio.rmsAtLeast in H. simpl in H.
  apply Qle_bool_iff in H.
  assert (0 < threshold * threshold)%Q by (by apply Qmult_lt_0_compat).
  apply (Qlt_irrefl 0). eapply Qlt_le_trans; eassumption.
Qed.

Lemma sound_handleInboundAudioFrame frame now w s :
  sessionSound s -> sessionSound (handleInboundAudioFrame frame now (w, s)).2.
Proof.
  intros (Hvad & Hturns & Hpacer). unfold handleInboundAudioFrame.
  case_if Hrange; [by split|].
  apply orb_false_iff in Hrange as [Hlo Hhi].
  apply Z.ltb_ge in Hlo, Hhi.
  set (mono := Audio.downmixToMono _ _).
  set (s1 := set_vad (pushVadFrame (vad s) mono) s).
  set (s2 := if _ && _ then _ else s1).
  assert (Hpre1 : (length (preRollFrames (vad s1)) <= PRE_ROLL_FRAMES)%nat).
  { apply pushVadFrame_length, Hvad. }
  assert (Hs2 : vadFed (vad s2) /\ turnQueue s2 = turnQueue s /\ worker s2 = worker s
                /\ playbackQueue s2 = playbackQueue s
                /\ playbackTimer s2 = playbackTimer s).
  { subst s2. case_if Hstart.
    - split; [|done]. cbn [vad set_vad].
      split; [exact Hpre1|]. split; [|split; [done|discriminate]].
      cbn [utteranceSamples utteranceFrames]. by rewrite totalLength_concat.
    - split; [|done]. apply vadFed_ok in Hvad.
      destruct Hvad as (_ & Hsum & Hrate & Hidle). by split. }
  destruct Hs2 as (Hfed & Hq & Hw & Hpq & Hpt).
  assert (Hturns2 : turnsOk s2) by (unfold turnsOk, inFlight in *; by rewrite Hq, Hw).
  assert (Hpacer2 : pacerOk s2) by (unfold pacerOk in *; by rewrite Hpq, Hpt).
  destruct (inSpeech (vad s2)) eqn:Hin.
  - apply sound_maybeFinalizeUtterance; [|exact Hturns2|exact Hpacer2].
    destruct Hfed as (Hpre & Hsum & Hrate & Hidle).
    cbn [vad set_vad].
    assert (Hbase : vadFed
              (set_utteranceSamples (utteranceSamples (vad s2) + Z.of_nat (length mono))
                 (set_utteranceFrames (utteranceFrames (vad s2) ++ [mono]) (vad s2)))).
    { split; [exact Hpre|]. split; [|split; [exact Hrate|]].
      - cbn [utteranceSamples utteranceFrames set_utteranceSamples set_utteranceFrames].
        rewrite Hsum, concat_app, length_app. simpl. rewrite app_nil_r. lia.
      - cbn [inSpeech set_utteranceSamples set_utteranceFrames]. by rewrite Hin. }
    by destruct (Audio.rmsAtLeast mono VAD_HOLD_RMS).
  - cbn [snd]. split; [|by split].
    apply vadOk_fed; [exact Hfed|]. by rewrite Hin.
Qed.

Lemma sound_teardown s : sessionSound s -> sessionSound (teardown s).
Proof.
  intros (Hvad & Hturns & Hpacer).
  assert (H : vad (teardown s) = resetVad (vad s)
              /\ turnQueue (teardown s) = turnQueue s /\ worker (teardown s) = worker s
              /\ playbackQueue (teardown s) = []).
  { unfold teardown, stopPlaybackTimer. cbn. destruct (sink s); cbn;
      by destruct (playbackTimer s). }
  destruct H as (Hv & Hq & Hw & Hp).
  split; [|split].
  - rewrite Hv. apply vadOk_resetVad, Hvad.
  - unfold turnsOk, inFlight in *. by rewrite Hq, Hw.
  - unfold pacerOk. rewrite Hp. by split.
Qed.

Lemma sound_engine s calls sk ns :
  sessionSound s ->
  sessionSound (set_nextSink ns (set_sink sk (set_engineCalls (engineCalls s ++ calls) s))).
Proof. done. Qed.

Lemma pacerOk_stop s :
  playbackQueue s = [] -> pacerOk (stopPlaybackTimer s).
Proof.
  intros H. unfold stopPlaybackTimer, pacerOk.
  destruct (playbackTimer s); cbn; rewrite H; by split.
Qed.

Lemma sound_playbackTick accepted s :
  playbackTimer s = true -> sessionSound s -> sessionSound (playbackTick accepted s).
Proof.
  intros Htimer (Hvad & Hturns & Hitems & Hrun).
  assert (H : vad (playbackTick accepted s) = vad s
              /\ turnQueue (playbackTick accepted s) = turnQueue s
              /\ worker (playbackTick accepted s) = worker s).
  { unfold playbackTick, stopPlaybackTimer.
    destruct (playbackQueue s) as [|current rest]; cbn;
      repeat (match goal with |- context [if ?b then _ else _] => destruct b end; cbn);
      done. }
  destruct H as (Hv & Hq & Hw).
  split; [by rewrite Hv|]. split; [unfold turnsOk, inFlight in *; by rewrite Hq, Hw|].
  unfold playbackTick.
  destruct (playbackQueue s) as [|current rest] eqn:Hqueue.
  { by apply pacerOk_stop. }
  apply Forall_cons_1 in Hitems as [(Hne & Hsr & Hcur) Hrest].
  case_if Hdone.
  { split; cbn; [exact Hrest|done]. }
  apply Nat.leb_gt in Hdone.
  destruct accepted.
  - split; cbn; [|done]. apply Forall_cons. split; [|exact Hrest].
    split; [exact Hne|]. split; [exact Hsr|]. cbn. lia.
  - apply pacerOk_stop. done.
Qed.


Lemma drainNext_other s :
  vad (drainNext s) = vad s
  /\ playbackQueue (drainNext s) = playbackQueue s
  /\ playbackTimer (drainNext s) = playbackTimer s.
Proof. unfold drainNext. by destruct (turnQueue s). Qed.

Lemma sound_drainNext s : sessionSound s -> sessionSound (drainNext s).
Proof.
  intros (Hvad & Hturns & Hpacer). destruct (drainNext_other s) as (Hv & Hq & Ht).
  split; [by rewrite Hv|]. split; [by apply turnsOk_drainNext, turnsOk_queue|].
  unfold pacerOk. by rewrite Hq, Ht.
Qed.

Lemma sound_drainFinally s : sessionSound s -> sessionSound (drainFinally s).
Proof.
  intros (Hvad & Hturns & Hpacer).
  split; [exact Hvad|]. split; [by apply turnsOk_drainFinally, turnsOk_queue|exact Hpacer].
Qed.

(** A change of the worker to a state that holds no turn, of the
    transcript fields and of nothing else. *)
Lemma sound_suspend s s' :
  vad s' = vad s -> turnQueue s' = turnQueue s -> inFlight s' = [] ->
  playbackQueue s' = playbackQueue s -> playbackTimer s' = playbackTimer s ->
  sessionSound s -> sessionSound s'.
Proof.
  intros Hv Hq Hw Hpq Hpt (Hvad & Hturns & Hpacer).
  split; [by rewrite Hv|]. split.
  - unfold turnsOk. rewrite Hq, Hw, app_nil_r. by apply turnsOk_queue.
  - unfold pacerOk. by rewrite Hpq, Hpt.
Qed.

Lemma sound_enqueueAssistantAudio s samples :
  sessionSound s -> sessionSound (enqueueAssistantAudio s samples).
Proof.
  intros (Hvad & Hturns & Hitems & Hrun). unfold enqueueAssistantAudio.
  destruct samples as [|x samples]; [by split|].
  unfold startPlaybackLoop. cbn [playbackTimer set_playbackQueue].
  assert (Hnew : Forall itemOk
            (playbackQueue s ++ [{| itemSamples := x :: samples;
                                    itemSampleRate := PLAYBACK_SAMPLE_RATE;
                                    cursor := 0 |}])).
  { apply Forall_app. split; [exact Hitems|]. apply Forall_singleton.
    split; [done|]. split; [done|]. cbn. lia. }
  destruct (playbackTimer s) eqn:Ht.
  - split; [exact Hvad|]. split; [exact Hturns|]. split; [exact Hnew|]. by intros _.
  - split; [exact Hvad|]. split; [exact Hturns|]. split; [exact Hnew|]. by intros _.
Qed.

Lemma sound_publishTurn userEntry reply now turnId w s :
  sessionSound s -> sessionSound (publishTurn userEntry reply now turnId (w, s)).2.
Proof. apply sound_drainNext. Qed.

Lemma sound_resumeWorker r now turnId w s :
  sessionSound s -> sessionSound (resumeWorker r now turnId (w, s)).2.
Proof.
  intros Hs. unfold resumeWorker.
  destruct (worker s) as [|turn|transcript userEntry|userEntry reply buffer format] eqn:Hw;
    [done|..].
  all: destruct r as [c|c|ffmpeg|e]; try exact Hs; try (by apply sound_drainFinally).
  - destruct (transcribePcmTurn turn c) as [result|e]; [|by apply sound_drainFinally].
    destruct (trim <$> result) as [transcript|]; [|by apply sound_drainNext].
    destruct (negb (truthy transcript)); [by apply sound_drainNext|].
    destruct (_ && _); [by apply sound_drainNext|].
    by eapply sound_suspend; [..|exact Hs].
  - destruct (synthesizeAssistantReply transcript c) as [[result calls]|e];
      [|by apply sound_drainFinally].
    destruct (audioBuffer result).
    + by eapply sound_suspend; [..|exact Hs].
    + by apply sound_publishTurn.
  - apply sound_publishTurn.
    destruct (decodeAudioToPcm16Mono _ _ _) as [[|? ?]|]; try exact Hs.
    by apply sound_enqueueAssistantAudio.
Qed.

Lemma sound_move s s' : sessionMove s s' -> sessionSound s -> sessionSound s'.
Proof.
  intros [| | | |]; intros.
  - by apply sound_teardown.
  - by apply sound_engine.
  - by apply sound_handleInboundAudioFrame.
  - by apply sound_playbackTick.
  - by apply sound_resumeWorker.
Qed.

Lemma sound_moves s s' : rtc sessionMove s s' -> sessionSound s -> sessionSound s'.
Proof. induction 1; eauto using sound_move. Qed.

Lemma sound_newSession roomId userPeerId botPeerId :
  sessionSound (logCall SetRemoteDescription (newSession roomId userPeerId botPeerId)).
Proof.
  split; [|split].
  - split; [cbn; lia|]. split; [done|]. split; [discriminate|done].
  - apply Forall_nil_2.
  - split; [apply Forall_nil_2|done].
Qed.

End SoundFacts.

(** ** How an operation changes the session objects *)

Section MoveFacts.

Lemma tables_maybeFinalizeUtterance now w s :
  tables (maybeFinalizeUtterance now (w, s)).1 = tables w.
Proof.
  unfold maybeFinalizeUtterance.
  repeat (match goal with |- context [if ?b then _ else _] => destruct b end; try done).
  apply tables_emitSystem.
Qed.

Lemma tables_handleInboundAudioFrame frame now w s :
  tables (handleInboundAudioFrame frame now (w, s)).1 = tables w.
Proof.
  unfold handleInboundAudioFrame.
  destruct (_ || _); [done|].
  set (s2 := if _ && _ then _ else _).
  destruct (inSpeech (vad s2)); [|done].
  apply tables_maybeFinalizeUtterance.
Qed.

Lemma tables_resumeWorker r now turnId w s :
  tables (resumeWorker r now turnId (w, s)).1 = tables w.
Proof.
  unfold resumeWorker, publishTurn.
  destruct (worker s) as [|turn|transcript userEntry|userEntry reply buffer format];
    [done|..]; destruct r as [c|c|ffmpeg|e]; try done.
  - destruct (transcribePcmTurn turn c) as [result|e]; [|done].
    destruct (trim <$> result) as [transcript|]; [|apply tables_emitSystem].
    destruct (negb (truthy transcript)); [apply tables_emitSystem|].
    by destruct (_ && _).
  - destruct (synthesizeAssistantReply transcript c) as [[result calls]|e]; [|done].
    destruct (audioBuffer result); [done|]. cbn [fst]. by rewrite tables_emit.
  - cbn [fst]. apply tables_emit.
Qed.

Lemma tables_sessions w w' : tables w' = tables w -> sessions w' = sessions w.
Proof. unfold tables. by intros [= _ _ ->]. Qed.

Lemma movesTo_refl w : movesTo w w.
Proof. intros ref s H. exists s. by split. Qed.

Lemma movesTo_trans w1 w2 w3 : movesTo w1 w2 -> movesTo w2 w3 -> movesTo w1 w3.
Proof.
  intros H12 H23 ref s3 H3.
  destruct (H23 _ _ H3) as (s2 & H2 & Hm23).
  destruct (H12 _ _ H2) as (s1 & H1 & Hm12).
  exists s1. split; [done|]. by etrans.
Qed.

Lemma movesTo_sessions w w' : sessions w' = sessions w -> movesTo w w'.
Proof. intros E ref s H. rewrite E in H. exists s. by split. Qed.

Lemma movesTo_tables w w' : tables w' = tables w -> movesTo w w'.
Proof. intros H. by apply movesTo_sessions, tables_sessions. Qed.

Lemma movesTo_onSession ref f w :
  (forall w s, rtc sessionMove s (f (w, s)).2 /\ sessions (f (w, s)).1 = sessions w) ->
  movesTo w (onSession ref f w).
Proof.
  intros Hf. unfold onSession.
  destruct (sessions w !! ref) as [s|] eqn:Href; [|apply movesTo_refl].
  destruct (Hf w s) as [Hmove Hsame]. destruct (f (w, s)) as [w' s']. simpl in *.
  intros ref' s''. cbn [sessions set_sessions]. rewrite Hsame, lookup_insert. case_decide as Hd.
  - subst ref'. intros [= <-]. exists s. by split.
  - intros H. exists s''. by split.
Qed.

Lemma move_log s c : signallingCall c -> sessionMove s (logCall c s).
Proof.
  intros Hc. apply (move_engine s [c] (sink s) (nextSink s)).
  by apply Forall_singleton.
Qed.

Lemma movesTo_closeSession roomId userPeerId w : movesTo w (closeSession roomId userPeerId w).
Proof.
  unfold closeSession. destruct (serverSessions w !! _) as [ref|]; [|apply movesTo_refl].
  eapply movesTo_trans; [|apply movesTo_onSession].
  - by apply movesTo_sessions.
  - intros w' s. split; [apply rtc_once, move_teardown|done].
Qed.

Lemma movesTo_emit peerId roomId event w : movesTo w (emit peerId roomId event w).
Proof. apply movesTo_tables, tables_emit. Qed.

Lemma movesTo_emitSystem peerId roomId message now w :
  movesTo w (emitSystem peerId roomId message now w).
Proof. apply movesTo_emit. Qed.

Lemma movesTo_handleServerBotSignal event now w :
  movesTo w (handleServerBotSignal event now w).
Proof.
  unfold handleServerBotSignal, createServerSession.
  destruct (evType event); try apply movesTo_refl.
  - destruct (asSessionDescription _) as [offer|]; [|apply movesTo_emitSystem].
    destruct (String.eqb _ _); [apply movesTo_closeSession|apply movesTo_emitSystem].
  - destruct (asIceCandidate _) as [candidate|]; [|apply movesTo_refl].
    destruct (getServerSession _ _ _) as [ref|]; [|by apply movesTo_sessions].
    apply movesTo_onSession. intros w' s. split; [by apply rtc_once, move_log|done].
  - apply movesTo_closeSession.
Qed.

Lemma movesTo_relaySignal event now w : movesTo w (relaySignal event now w).
Proof.
  unfold relaySignal.
  set (w1 := match evType event with Bye => _ | _ => w end).
  assert (Hw1 : movesTo w w1).
  { subst w1. destruct (evType event); try apply movesTo_refl.
    destruct (evTo event) as [to|]; [|apply movesTo_closeSession].
    destruct (truthy to); [|apply movesTo_closeSession].
    eapply movesTo_trans; apply movesTo_closeSession. }
  eapply movesTo_trans; [exact Hw1|].
  destruct (evTo event) as [to|]; [|apply movesTo_refl].
  destruct (_ && _); [apply movesTo_handleServerBotSignal|].
  destruct (negb _); [apply movesTo_refl|apply movesTo_emit].
Qed.

(** Every operation moves the session objects it finds and, at most,
    creates one new session object. *)
Lemma step_moves w op ref s' :
  sessions (step w op) !! ref = Some s' ->
  (exists s, sessions w !! ref = Some s /\ rtc sessionMove s s')
  \/ (sessions w !! ref = None
      /\ exists roomId userPeerId botPeerId,
           s' = logCall SetRemoteDescription (newSession roomId userPeerId botPeerId)).
Proof.
  assert (Hkeep : movesTo w (step w op) ->
                  sessions (step w op) !! ref = Some s' ->
                  (exists s, sessions w !! ref = Some s /\ rtc sessionMove s s')
                  \/ (sessions w !! ref = None
                      /\ exists roomId userPeerId botPeerId,
                           s' = logCall SetRemoteDescription
                                  (newSession roomId userPeerId botPeerId))).
  { intros Hm H. left. by apply Hm. }
  destruct op; cbn [step] in *.
  - apply Hkeep. destruct (controllers w !! ctl); [apply movesTo_refl|].
    unfold createSignalEventStream. eapply movesTo_trans; [|apply movesTo_emitSystem].
    by apply movesTo_sessions.
  - apply Hkeep. unfold cancelStream. destruct (controllers w !! ctl) as [c|]; [|apply movesTo_refl].
    destruct (subscribers w !! _) as [set|]; [|apply movesTo_refl].
    by destruct (filter _ set); apply movesTo_sessions.
  - apply Hkeep. unfold breakStream. destruct (controllers w !! ctl); [|apply movesTo_refl].
    by apply movesTo_sessions.
  - apply Hkeep, movesTo_relaySignal.
  - apply Hkeep. by apply movesTo_sessions.
  - apply Hkeep, movesTo_emitSystem.
  - destruct (sessions w !! ref0) as [s0|] eqn:Href0; [apply Hkeep, movesTo_refl|].
    unfold sessionCreated. cbn. rewrite lookup_insert. case_decide as Hd.
    + subst ref0. intros [= <-]. right. split; [done|]. eauto.
    + intros H. left. exists s'. by split.
  - apply Hkeep. unfold applyQueuedCandidates.
    destruct (pendingServerCandidates w !! _) as [[|c queued]|]; try apply movesTo_refl.
    apply movesTo_onSession. intros w' s. split; [|done].
    generalize (c :: queued). intros l.
    assert (Hl : foldl (fun s c => logCall (AddIceCandidate c) s) s l
                 = set_nextSink (nextSink s) (set_sink (sink s)
                     (set_engineCalls (engineCalls s ++ (AddIceCandidate <$> l)) s))).
    { revert s. induction l as [|x l IH]; intros s.
      - destruct s. cbn. by rewrite app_nil_r.
      - cbn [foldl]. rewrite IH. unfold logCall. cbn. by rewrite <- app_assoc. }
    rewrite Hl. apply rtc_once, move_engine.
    by apply Forall_fmap, Forall_true.
  - apply Hkeep. by apply movesTo_sessions.
  - apply Hkeep. unfold sendAnswer. apply movesTo_onSession.
    intros w' s. split; [|apply tables_sessions, tables_emit].
    cbn [snd]. eapply rtc_l; [|apply rtc_once]; by apply move_log.
  - apply Hkeep. unfold offerFailed.
    eapply movesTo_trans; [apply movesTo_emitSystem|apply movesTo_closeSession].
  - apply Hkeep. unfold onicecandidate. destruct candidate; [|apply movesTo_refl].
    apply movesTo_onSession. intros w' s. split; [done|apply tables_sessions, tables_emit].
  - apply Hkeep. unfold onconnectionstatechange.
    destruct (sessions w !! ref0) as [s|]; [|apply movesTo_refl].
    destruct state; try apply movesTo_refl; try apply movesTo_closeSession.
    apply movesTo_emitSystem.
  - apply Hkeep. unfold ontrack. destruct (negb isAudio); [apply movesTo_refl|].
    apply movesTo_onSession. intros w' s. split; [|done].
    assert (Hnew : forall s0, sessionMove s0
              (set_nextSink (S (nextSink s0))
                 (set_sink (Some (nextSink s0)) (logCall (NewSink (nextSink s0)) s0)))).
    { intros s0. apply (move_engine s0 [NewSink (nextSink s0)]).
      by apply Forall_singleton. }
    cbn [snd]. destruct (sink s) as [k|].
    + eapply rtc_l; [by apply (move_log s (SinkStop k))|]. apply rtc_once, Hnew.
    + apply rtc_once, Hnew.
  - apply Hkeep. unfold ontrackended. apply movesTo_onSession. intros w' s. split; [|done].
    cbn [snd]. apply rtc_once. case_bool_decide.
    + apply (move_engine s [SinkStop k] None (nextSink s)).
      by apply Forall_singleton.
    + by apply move_log.
  - apply Hkeep. unfold verifyVoiceTooling.
    destruct (sessions w !! ref0) as [s|]; [|apply movesTo_refl].
    apply movesTo_tables.
    repeat (match goal with |- context [if ?b then _ else _] => destruct b end);
      rewrite ?tables_emitSystem; done.
  - apply Hkeep. apply movesTo_onSession. intros w' s. destruct (sink s) eqn:Hsink.
    + split; [apply rtc_once, move_frame
             |apply tables_sessions, tables_handleInboundAudioFrame].
    + by split.
  - apply Hkeep. apply movesTo_onSession. intros w' s. destruct (playbackTimer s) eqn:Ht.
    + split; [by apply rtc_once, move_tick|done].
    + by split.
  - apply Hkeep. apply movesTo_onSession. intros w' s.
    split; [apply rtc_once, move_worker|apply tables_sessions, tables_resumeWorker].
Qed.

(** What holds of a new session object and is kept by every move holds
    of every session object the server ever has. *)
Lemma run_sessions (P : ServerCallSession -> Prop) :
  (forall roomId userPeerId botPeerId,
     P (logCall SetRemoteDescription (newSession roomId userPeerId botPeerId))) ->
  (forall s s', sessionMove s s' -> P s -> P s') ->
  forall ops ref s, sessions (run ops) !! ref = Some s -> P s.
Proof.
  intros Hnew Hmove ops. unfold run.
  induction ops as [|op ops IH] using rev_ind; intros ref s.
  - simpl. by rewrite lookup_empty.
  - rewrite foldl_app. cbn [foldl]. intros H.
    apply step_moves in H as [(s0 & H0 & Hm)|(_ & r & u & b & ->)]; [|apply Hnew].
    apply IH in H0. induction Hm; eauto.
Qed.

Lemma sound_run ops ref s : sessions (run ops) !! ref = Some s -> sessionSound s.
Proof. apply run_sessions; [apply sound_newSession|apply sound_move]. Qed.

End MoveFacts.

(** ** Engine calls and the session table *)

Section RegistryFacts.

Lemma grows_refl ok s : grows ok s s.
Proof. repeat split; try done. exists []. by rewrite app_nil_r. Qed.

Lemma grows_trans ok s1 s2 s3 : grows ok s1 s2 -> grows ok s2 s3 -> grows ok s1 s3.
Proof.
  intros (Hr & Hu & Hb & c1 & Hc1 & Hok1) (Hr' & Hu' & Hb' & c2 & Hc2 & Hok2).
  split; [congruence|]. split; [congruence|]. split; [congruence|].
  exists (c1 ++ c2). split; [by rewrite Hc2, Hc1, app_assoc|by apply Forall_app].
Qed.

Lemma grows_same ok s s' :
  roomId s' = roomId s -> userPeerId s' = userPeerId s -> botPeerId s' = botPeerId s ->
  engineCalls s' = engineCalls s -> grows ok s s'.
Proof. intros ? ? ? Hc. repeat split; try done. exists []. by rewrite app_nil_r. Qed.

Lemma grows_log (ok : EngineCall -> Prop) c s : ok c -> grows ok s (logCall c s).
Proof. intros Hc. repeat split; try done. exists [c]. split; [done|by apply Forall_singleton]. Qed.

Lemma grows_weaken (ok ok' : EngineCall -> Prop) s s' :
  (forall c, ok c -> ok' c) -> grows ok s s' -> grows ok' s s'.
Proof.
  intros Hw (Hr & Hu & Hb & calls & Hc & Hok). repeat split; try done.
  exists calls. split; [done|]. eapply Forall_impl; eauto.
Qed.

Lemma grows_stopPlaybackTimer s : grows pacerCall s (stopPlaybackTimer s).
Proof.
  unfold stopPlaybackTimer. destruct (playbackTimer s); [|apply grows_refl].
  eapply grows_trans; [by apply (grows_log pacerCall ClearInterval)|].
  by apply grows_same.
Qed.

Lemma grows_playbackTick accepted s : grows pacerCall s (playbackTick accepted s).
Proof.
  unfold playbackTick. destruct (playbackQueue s) as [|current rest].
  { apply grows_stopPlaybackTimer. }
  destruct (_ <=? _)%nat eqn:Hdone; [by apply grows_same|].
  apply Nat.leb_gt in Hdone.
  set (frame := if (_ <? frameSize)%nat then _ else _).
  assert (Hlen : length frame = frameSize).
  { subst frame. rewrite (padded_frame frameSize (itemSamples current) (cursor current)).
    rewrite length_take, length_app, length_replicate. lia. }
  set (s1 := set_playbackQueue _ s).
  assert (H1 : grows pacerCall s (logCall (OnData frame accepted) s1)).
  { eapply grows_trans; [by apply (grows_same pacerCall s s1)|]. by apply grows_log. }
  destruct accepted; [exact H1|].
  eapply grows_trans; [exact H1|].
  eapply grows_trans; [|apply grows_stopPlaybackTimer]. by apply grows_same.
Qed.

Lemma grows_drainNext ok s : grows ok s (drainNext s).
Proof. unfold drainNext. destruct (turnQueue s); by apply grows_same. Qed.

Lemma grows_enqueueTurn ok s turn : grows ok s (enqueueTurn s turn).
Proof.
  unfold enqueueTurn, drainTurnQueue. cbn [processingTurn set_turnQueue].
  destruct (processingTurn s); [by apply grows_same|].
  eapply grows_trans; [|apply grows_drainNext]. by apply grows_same.
Qed.

Lemma grows_maybeFinalizeUtterance ok now w s :
  grows ok s (maybeFinalizeUtterance now (w, s)).2.
Proof.
  unfold maybeFinalizeUtterance.
  repeat (match goal with |- context [if ?b then _ else _] => destruct b end;
          try apply grows_refl; try (by apply grows_same)).
  cbn [snd]. eapply grows_trans; [|apply grows_enqueueTurn]. by apply grows_same.
Qed.

Lemma grows_handleInboundAudioFrame ok frame now w s :
  grows ok s (handleInboundAudioFrame frame now (w, s)).2.
Proof.
  unfold handleInboundAudioFrame.
  destruct (_ || _); [apply grows_refl|].
  set (s1 := set_vad (pushVadFrame _ _) s).
  set (s2 := if _ && _ then _ else s1).
  assert (H2 : grows ok s s2).
  { subst s2. destruct (_ && _); by apply grows_same. }
  destruct (inSpeech (vad s2)); [|exact H2].
  eapply grows_trans; [|apply grows_maybeFinalizeUtterance].
  eapply grows_trans; [exact H2|]. by apply grows_same.
Qed.

Lemma grows_enqueueAssistantAudio s samples :
  grows pacerCall s (enqueueAssistantAudio s samples).
Proof.
  unfold enqueueAssistantAudio, startPlaybackLoop. destruct samples; [apply grows_refl|].
  cbn [playbackTimer set_playbackQueue].
  destruct (playbackTimer s); [by apply grows_same|].
  eapply grows_trans; [|by apply grows_same].
  eapply grows_trans; [|by apply (grows_log pacerCall SetInterval)].
  by apply grows_same.
Qed.

Lemma grows_resumeWorker r now turnId w s :
  grows pacerCall s (resumeWorker r now turnId (w, s)).2.
Proof.
  unfold resumeWorker, publishTurn.
  destruct (worker s) as [|turn|transcript userEntry|userEntry reply buffer format];
    [apply grows_refl|..];
    destruct r as [c|c|ffmpeg|e]; try apply grows_refl; try (by apply grows_same).
  - destruct (transcribePcmTurn turn c) as [result|e]; [|by apply grows_same].
    destruct (trim <$> result) as [transcript|]; [|apply grows_drainNext].
    destruct (negb (truthy transcript)); [apply grows_drainNext|].
    destruct (_ && _); [apply grows_drainNext|by apply grows_same].
  - destruct (synthesizeAssistantReply transcript c) as [[result calls]|e];
      [|by apply grows_same].
    destruct (audioBuffer result); [by apply grows_same|apply grows_drainNext].
  - cbn [snd]. eapply grows_trans; [|apply grows_drainNext].
    destruct (decodeAudioToPcm16Mono _ _ _) as [[|? ?]|]; try apply grows_refl.
    apply grows_enqueueAssistantAudio.
Qed.

Lemma grows_quiet ok s s' : ~ ok PcClose -> grows ok s s' -> quietMove s s'.
Proof.
  intros Hno (Hr & Hu & Hb & calls & Hc & Hok). repeat split; try done.
  unfold closed. rewrite Hc, elem_of_app. intros [H|H]; [done|].
  rewrite Forall_forall in Hok. by apply Hok in H.
Qed.

(** Every move but the teardown is quiet. *)
Lemma move_quiet s s' : sessionMove s s' -> s' = teardown s \/ quietMove s s'.
Proof.
  intros [|calls sk ns Hcalls|frame now w|accepted Ht|r now turnId w]; [by left|right..].
  - apply (grows_quiet signallingCall); [by intros []|].
    repeat split; try done. by exists calls.
  - apply (grows_quiet pacerCall); [by intros []|apply grows_handleInboundAudioFrame].
  - apply (grows_quiet pacerCall); [by intros []|apply grows_playbackTick].
  - apply (grows_quiet pacerCall); [by intros []|apply grows_resumeWorker].
Qed.

Lemma quiet_refl s : quietMove s s.
Proof. by repeat split. Qed.

Lemma quiet_trans s1 s2 s3 : quietMove s1 s2 -> quietMove s2 s3 -> quietMove s1 s3.
Proof.
  intros (Hr & Hu & Hb & Hc) (Hr' & Hu' & Hb' & Hc').
  split; [congruence|]. split; [congruence|]. split; [congruence|]. auto.
Qed.


Lemma registryOk_tables w w' : tables w' = tables w -> registryOk w -> registryOk w'.
Proof. unfold registryOk, tables. intros [= -> _ ->]. done. Qed.

Lemma registryOk_pending pending w :
  registryOk w -> registryOk (set_pendingServerCandidates pending w).
Proof. done. Qed.

Lemma registryOk_onSession ref f w :
  (forall w s, quietMove s (f (w, s)).2 /\ tables (f (w, s)).1 = tables w) ->
  registryOk w -> registryOk (onSession ref f w).
Proof.
  intros Hf Hok. unfold onSession.
  destruct (sessions w !! ref) as [s|] eqn:Href; [|done].
  destruct (Hf w s) as [(Hr & Hu & _ & Hc) Ht]. destruct (f (w, s)) as [w' s'].
  cbn [fst snd] in *. unfold tables in Ht. injection Ht as Hss _ Hs.
  intros key ref'. cbn [serverSessions sessions set_sessions]. rewrite Hss, Hs.
  intros Hkey. destruct (Hok _ _ Hkey) as (s0 & H0 & Hk0 & Hc0).
  rewrite lookup_insert. case_decide as Hd.
  - subst ref'. exists s'. rewrite Href in H0. injection H0 as ->.
    split; [done|]. split; [by rewrite Hr, Hu|]. intros H. by apply Hc0, Hc.
  - by exists s0.
Qed.

Lemma registryOk_closeSession roomId userPeerId w :
  registryOk w -> registryOk (closeSession roomId userPeerId w).
Proof.
  intros Hok. unfold closeSession.
  destruct (serverSessions w !! roomPeerKey roomId userPeerId) as [ref|] eqn:Hkey0; [|done].
  unfold onSession. cbn [sessions set_serverSessions set_pendingServerCandidates].
  destruct (sessions w !! ref) as [s|] eqn:Href.
  2:{ intros key ref'. cbn. rewrite lookup_delete. case_decide; [done|]. apply Hok. }
  intros key ref'. cbn. rewrite lookup_delete. case_decide as Hd; [done|].
  intros Hkey. destruct (Hok _ _ Hkey) as (s1 & H1 & Hk1 & Hc1).
  destruct (Hok _ _ Hkey0) as (s0 & H0 & Hk0 & _).
  rewrite lookup_insert. case_decide as Hr.
  - subst ref'. rewrite H0 in H1. injection H1 as ->. congruence.
  - by exists s1.
Qed.

Lemma registryOk_emit peerId roomId event w :
  registryOk w -> registryOk (emit peerId roomId event w).
Proof. apply registryOk_tables, tables_emit. Qed.

Lemma registryOk_emitSystem peerId roomId message now w :
  registryOk w -> registryOk (emitSystem peerId roomId message now w).
Proof. apply registryOk_emit. Qed.

Lemma quiet_log c s : c <> PcClose -> quietMove s (logCall c s).
Proof.
  intros Hc. repeat split; try done. unfold closed, logCall. cbn.
  rewrite elem_of_app, list_elem_of_singleton. intros [H|H]; [done|congruence].
Qed.

Lemma registryOk_handleServerBotSignal event now w :
  registryOk w -> registryOk (handleServerBotSignal event now w).
Proof.
  intros Hok. unfold handleServerBotSignal, createServerSession.
  destruct (evType event); try done.
  - destruct (asSessionDescription _) as [offer|]; [|by apply registryOk_emitSystem].
    destruct (String.eqb _ _); [by apply registryOk_closeSession|by apply registryOk_emitSystem].
  - destruct (asIceCandidate _) as [candidate|]; [|done].
    destruct (getServerSession _ _ _) as [ref|]; [|done].
    apply registryOk_onSession; [|done]. intros w' s. split; [by apply quiet_log|done].
  - by apply registryOk_closeSession.
Qed.

Lemma registryOk_relaySignal event now w :
  registryOk w -> registryOk (relaySignal event now w).
Proof.
  intros Hok. unfold relaySignal.
  set (w1 := match evType event with Bye => _ | _ => w end).
  assert (Hw1 : registryOk w1).
  { subst w1. destruct (evType event); try done.
    destruct (evTo event) as [to|]; [|by apply registryOk_closeSession].
    destruct (truthy to); [|by apply registryOk_closeSession].
    by do 2 apply registryOk_closeSession. }
  destruct (evTo event) as [to|]; [|done].
  destruct (_ && _); [by apply registryOk_handleServerBotSignal|].
  destruct (negb _); [done|by apply registryOk_emit].
Qed.

Lemma registryOk_step w op : registryOk w -> registryOk (step w op).
Proof.
  intros Hok. destruct op; cbn [step].
  - destruct (controllers w !! ctl); [done|].
    unfold createSignalEventStream. by apply registryOk_emitSystem.
  - unfold cancelStream. destruct (controllers w !! ctl) as [c|]; [|done].
    destruct (subscribers w !! _) as [set|]; [|done]. by destruct (filter _ set).
  - unfold breakStream. by destruct (controllers w !! ctl).
  - by apply registryOk_relaySignal.
  - done.
  - by apply registryOk_emitSystem.
  - destruct (sessions w !! ref) as [s0|] eqn:Href; [done|].
    unfold sessionCreated. intros key ref'. cbn.
    rewrite !lookup_insert. case_decide as Hk.
    + intros [= <-]. rewrite decide_True by done. eexists. split; [done|].
      split; [by subst key|]. unfold closed. cbn. intros H.
      repeat (apply elem_of_cons in H as [H|H]; [done|]). by apply elem_of_nil in H.
    + intros Hkey. destruct (Hok _ _ Hkey) as (s1 & H1 & Hk1 & Hc1).
      case_decide as Hr; [congruence|]. by exists s1.
  - unfold applyQueuedCandidates.
    destruct (pendingServerCandidates w !! _) as [[|c queued]|]; try done.
    apply registryOk_onSession; [|done]. intros w' s. split; [|done].
    generalize (c :: queued). intros l. cbn [snd]. revert s.
    induction l as [|x l IH] using rev_ind; intros s; [apply quiet_refl|].
    rewrite foldl_app. cbn [foldl]. eapply quiet_trans; [apply IH|by apply quiet_log].
  - done.
  - unfold sendAnswer. apply registryOk_onSession; [|done].
    intros w' s. split; [|apply tables_emit]. cbn [snd].
    eapply quiet_trans; by apply quiet_log.
  - unfold offerFailed. by apply registryOk_closeSession, registryOk_emitSystem.
  - unfold onicecandidate. destruct candidate; [|done].
    apply registryOk_onSession; [|done]. intros w' s.
    split; [apply quiet_refl|apply tables_emit].
  - unfold onconnectionstatechange. destruct (sessions w !! ref) as [s|]; [|done].
    destruct state; try done; try (by apply registryOk_closeSession).
    by apply registryOk_emitSystem.
  - unfold ontrack. destruct (negb isAudio); [done|].
    apply registryOk_onSession; [|done]. intros w' s. split; [|done]. cbn [snd].
    assert (Hnew : forall s0, quietMove s0
              (set_nextSink (S (nextSink s0))
                 (set_sink (Some (nextSink s0)) (logCall (NewSink (nextSink s0)) s0)))).
    { intros s0. by apply (quiet_log (NewSink (nextSink s0))). }
    destruct (sink s) as [k|]; [|apply Hnew].
    eapply quiet_trans; [by apply (quiet_log (SinkStop k))|apply Hnew].
  - unfold ontrackended. apply registryOk_onSession; [|done]. intros w' s.
    split; [|done]. cbn [snd]. case_bool_decide; by apply (quiet_log (SinkStop k)).
  - unfold verifyVoiceTooling. destruct (sessions w !! ref) as [s|]; [|done].
    repeat (match goal with |- context [if ?b then _ else _] => destruct b end);
      repeat apply registryOk_emitSystem; done.
  - apply registryOk_onSession; [|done]. intros w' s. destruct (sink s).
    + split; [|apply tables_handleInboundAudioFrame].
      apply (grows_quiet pacerCall); [by intros []|apply grows_handleInboundAudioFrame].
    + split; [apply quiet_refl|done].
  - apply registryOk_onSession; [|done]. intros w' s. split; [|done]. cbn [snd].
    destruct (playbackTimer s); [|apply quiet_refl].
    apply (grows_quiet pacerCall); [by intros []|apply grows_playbackTick].
  - apply registryOk_onSession; [|done]. intros w' s.
    split; [|apply tables_resumeWorker].
    apply (grows_quiet pacerCall); [by intros []|apply grows_resumeWorker].
Qed.

Lemma registryOk_run ops : registryOk (run ops).
Proof.
  unfold run. induction ops as [|op ops IH] using rev_ind.
  - intros key ref. simpl. by rewrite lookup_empty.
  - rewrite foldl_app. by apply registryOk_step.
Qed.

End RegistryFacts.

(** ** The shape of the hub *)

Section HubShapeFacts.

Lemma shape_enqueueTo line w sink : hubShape (enqueueTo line w sink) = hubShape w.
Proof.
  unfold enqueueTo. destruct (controllers w !! sink) as [c|] eqn:Hc; [|done].
  unfold enqueue. destruct (ctlOpen c); [|done]. unfold hubShape. cbn.
  f_equal. rewrite fmap_insert. cbn. apply insert_id. by rewrite lookup_fmap, Hc.
Qed.

Lemma shape_emit peerId roomId event w : hubShape (emit peerId roomId event w) = hubShape w.
Proof.
  unfold emit.
  destruct (subscribers _ !! _) as [[|sink sinks]|]; try done.
  generalize (sink :: sinks). intros l.
  set (w0 := set_emitted _ w). change (hubShape w) with (hubShape w0).
  generalize w0. induction l as [|x l IH]; intros w1; [done|].
  simpl. by rewrite IH, shape_enqueueTo.
Qed.

Lemma shape_emitSystem peerId roomId message now w :
  hubShape (emitSystem peerId roomId message now w) = hubShape w.
Proof. apply shape_emit. Qed.

Lemma shape_onSession ref f w :
  (forall w s, hubShape (f (w, s)).1 = hubShape w) ->
  hubShape (onSession ref f w) = hubShape w.
Proof.
  intros Hf. unfold onSession. destruct (sessions w !! ref) as [s|]; [|done].
  specialize (Hf w s). by destruct (f (w, s)).
Qed.

Lemma shape_closeSession roomId userPeerId w :
  hubShape (closeSession roomId userPeerId w) = hubShape w.
Proof.
  unfold closeSession. destruct (serverSessions w !! _); [|done].
  by rewrite shape_onSession.
Qed.

Lemma shape_maybeFinalizeUtterance now w s :
  hubShape (maybeFinalizeUtterance now (w, s)).1 = hubShape w.
Proof.
  unfold maybeFinalizeUtterance.
  repeat (match goal with |- context [if ?b then _ else _] => destruct b end; try done).
  apply shape_emitSystem.
Qed.

Lemma shape_handleInboundAudioFrame frame now w s :
  hubShape (handleInboundAudioFrame frame now (w, s)).1 = hubShape w.
Proof.
  unfold handleInboundAudioFrame.
  destruct (_ || _); [done|].
  set (s2 := if _ && _ then _ else _).
  destruct (inSpeech (vad s2)); [|done].
  apply shape_maybeFinalizeUtterance.
Qed.

Lemma shape_resumeWorker r now turnId w s :
  hubShape (resumeWorker r now turnId (w, s)).1 = hubShape w.
Proof.
  unfold resumeWorker, publishTurn.
  destruct (worker s) as [|turn|transcript userEntry|userEntry reply buffer format];
    [done|..]; destruct r as [c|c|ffmpeg|e]; try done.
  - destruct (transcribePcmTurn turn c) as [result|e]; [|done].
    destruct (trim <$> result) as [transcript|]; [|apply shape_emitSystem].
    destruct (negb (truthy transcript)); [apply shape_emitSystem|].
    by destruct (_ && _).
  - destruct (synthesizeAssistantReply transcript c) as [[result calls]|e]; [|done].
    destruct (audioBuffer result); [done|]. cbn [fst]. by rewrite shape_emit.
  - cbn [fst]. apply shape_emit.
Qed.

Lemma shape_handleServerBotSignal event now w :
  hubShape (handleServerBotSignal event now w) = hubShape w.
Proof.
  unfold handleServerBotSignal, createServerSession.
  destruct (evType event); try done.
  - destruct (asSessionDescription _) as [offer|]; [|apply shape_emitSystem].
    destruct (String.eqb _ _); [apply shape_closeSession|apply shape_emitSystem].
  - destruct (asIceCandidate _) as [candidate|]; [|done].
    destruct (getServerSession _ _ _) as [ref|]; [|done].
    by apply shape_onSession.
  - apply shape_closeSession.
Qed.

Lemma shape_relaySignal event now w : hubShape (relaySignal event now w) = hubShape w.
Proof.
  unfold relaySignal.
  set (w1 := match evType event with Bye => _ | _ => w end).
  assert (Hw1 : hubShape w1 = hubShape w).
  { subst w1. destruct (evType event); try done.
    destruct (evTo event) as [to|]; [|apply shape_closeSession].
    destruct (truthy to); [|apply shape_closeSession].
    by rewrite !shape_closeSession. }
  rewrite <- Hw1.
  destruct (evTo event) as [to|]; [|done].
  destruct (_ && _); [apply shape_handleServerBotSignal|].
  destruct (negb _); [done|apply shape_emit].
Qed.

(** Only opening and cancelling a stream change the shape of the hub. *)
Lemma shape_step w op :
  (forall ctl peerId roomId now, op <> OpenEventStream ctl peerId roomId now) ->
  (forall ctl, op <> CancelEventStream ctl) ->
  hubShape (step w op) = hubShape w.
Proof.
  intros Hopen Hcancel. destruct op; cbn [step].
  - exfalso. by eapply Hopen.
  - exfalso. by eapply Hcancel.
  - unfold breakStream. destruct (controllers w !! ctl) as [c|] eqn:Hc; [|done].
    unfold hubShape. cbn. f_equal. rewrite fmap_insert. cbn.
    apply insert_id. by rewrite lookup_fmap, Hc.
  - apply shape_relaySignal.
  - done.
  - apply shape_emitSystem.
  - by destruct (sessions w !! ref).
  - unfold applyQueuedCandidates.
    destruct (pendingServerCandidates w !! _) as [[|c queued]|]; try done.
    by apply shape_onSession.
  - done.
  - unfold sendAnswer. apply shape_onSession. intros w' s. apply shape_emit.
  - unfold offerFailed. by rewrite shape_closeSession, shape_emitSystem.
  - unfold onicecandidate. destruct candidate; [|done].
    apply shape_onSession. intros w' s. apply shape_emit.
  - unfold onconnectionstatechange. destruct (sessions w !! ref) as [s|]; [|done].
    destruct state; try done; try apply shape_closeSession. apply shape_emitSystem.
  - unfold ontrack. destruct (negb isAudio); [done|]. by apply shape_onSession.
  - unfold ontrackended. by apply shape_onSession.
  - unfold verifyVoiceTooling. destruct (sessions w !! ref) as [s|]; [|done].
    repeat (match goal with |- context [if ?b then _ else _] => destruct b end);
      rewrite ?shape_emitSystem; done.
  - apply shape_onSession. intros w' s. destruct (sink s); [|done].
    apply shape_handleInboundAudioFrame.
  - by apply shape_onSession.
  - apply shape_onSession. intros w' s. apply shape_resumeWorker.
Qed.

Lemma hubOk_shape w w' : hubShape w' = hubShape w -> hubOk w -> hubOk w'.
Proof.
  unfold hubShape. intros [= Hs Hc] Hok key set. rewrite Hs. intros Hset.
  destruct (Hok _ _ Hset) as (Hne & Hnd & Hin).
  split; [exact Hne|]. split; [exact Hnd|]. intros ctl Hctl.
  destruct (Hin _ Hctl) as (c & Hl & Hk).
  assert (H : ((fun c => (ctlPeerId c, ctlRoomId c)) <$> controllers w') !! ctl
              = Some (ctlPeerId c, ctlRoomId c)).
  { by rewrite Hc, lookup_fmap, Hl. }
  rewrite lookup_fmap in H. destruct (controllers w' !! ctl) as [c'|]; [|done].
  injection H as Hp Hr. exists c'. split; [done|]. by rewrite Hp, Hr.
Qed.

Lemma hubOk_open ctl peerId roomId now w :
  controllers w !! ctl = None -> hubOk w ->
  hubOk (createSignalEventStream ctl peerId roomId now w).
Proof.
  intros Hfresh Hok. unfold createSignalEventStream.
  eapply hubOk_shape; [apply shape_emitSystem|].
  assert (Hnot : forall key set, subscribers w !! key = Some set -> ctl ∉ set).
  { intros key set Hset Hin. destruct (Hok _ _ Hset) as (_ & _ & H).
    destruct (H _ Hin) as (c & Hc & _). congruence. }
  set (key0 := subscriberKey peerId roomId).
  intros key set. cbn. rewrite lookup_insert. case_decide as Hk.
  - intros [= <-]. subst key.
    destruct (subscribers w !! key0) as [set0|] eqn:Hset0; cbn [default].
    + rewrite bool_decide_eq_false_2 by by eapply Hnot.
      destruct (Hok _ _ Hset0) as (Hne & Hnd & Hin).
      split; [by destruct set0|]. split.
      * apply NoDup_app. split; [done|]. split; [|apply NoDup_singleton].
        intros x Hx Hx'. apply list_elem_of_singleton in Hx'. subst x.
        by eapply Hnot.
      * intros x Hx. apply elem_of_app in Hx as [Hx|Hx].
        -- destruct (Hin _ Hx) as (c & Hc & Hkc). exists c. split; [|done].
           rewrite lookup_insert_ne; [done|]. intros ->. congruence.
        -- apply list_elem_of_singleton in Hx. subst x. eexists.
           rewrite lookup_insert_eq. by split.
    + rewrite bool_decide_eq_false_2 by apply not_elem_of_nil.
      split; [done|]. split; [apply NoDup_singleton|].
      intros x Hx. apply list_elem_of_singleton in Hx. subst x. eexists.
      rewrite lookup_insert_eq. by split.
  - intros Hset. destruct (Hok _ _ Hset) as (Hne & Hnd & Hin).
    split; [done|]. split; [done|]. intros x Hx.
    destruct (Hin _ Hx) as (c & Hc & Hkc). exists c. split; [|done].
    rewrite lookup_insert_ne; [done|]. intros ->. congruence.
Qed.

Lemma hubOk_cancel ctl w : hubOk w -> hubOk (cancelStream ctl w).
Proof.
  intros Hok. unfold cancelStream.
  destruct (controllers w !! ctl) as [c|] eqn:Hc; [|done].
  destruct (subscribers w !! _) as [set|] eqn:Hset; [|done].
  destruct (Hok _ _ Hset) as (Hne & Hnd & Hin).
  destruct (filter _ set) as [|x rest] eqn:Hf.
  - intros key set'. cbn. rewrite lookup_delete. case_decide; [done|]. apply Hok.
  - intros key set'. cbn. rewrite lookup_insert. case_decide as Hk; [|apply Hok].
    intros [= <-]. split; [done|]. rewrite <- Hf. split; [by apply NoDup_filter|].
    intros y Hy. apply list_elem_of_filter in Hy as [_ Hy].
    subst key. by apply Hin.
Qed.

Lemma hubOk_step w op : hubOk w -> hubOk (step w op).
Proof.
  intros Hok.
  destruct op;
    try (eapply hubOk_shape; [by apply shape_step|exact Hok]).
  - cbn [step]. destruct (controllers w !! ctl) eqn:Hc; [done|by apply hubOk_open].
  - by apply hubOk_cancel.
Qed.

Lemma hubOk_run ops : hubOk (run ops).
Proof.
  unfold run. induction ops as [|op ops IH] using rev_ind.
  - intros key set. simpl. by rewrite lookup_empty.
  - rewrite foldl_app. by apply hubOk_step.
Qed.

End HubShapeFacts.

(** ** What every session object satisfies *)

Section SampleRuns.

Lemma turn_session : sessions (run turnOps) !! 0%nat = Some turnSession.
Proof. vm_compute. reflexivity. Qed.

Lemma talking_session :
  exists s, sessions (run talkingOps) !! 0%nat = Some s /\ inSpeech (vad s) = true
            /\ utteranceSamples (vad s) = 16.
Proof. eexists. split; [vm_compute; reflexivity|]. by split. Qed.

Lemma turn_transcribes c :
  transcribePcmTurn turnSegment c = Normal (transcribeAudioBuffer c).
Proof.
  unfold transcribePcmTurn. rewrite createWav_layout; [done|done|done|].
  cbn [turnSamples turnSegment]. rewrite length_app, length_replicate. cbn [length]. lia.
Qed.

(** The session a worker stretch leaves does not depend on the world. *)
Lemma resumeWorker_session r now turnId w w' s :
  (resumeWorker r now turnId (w, s)).2 = (resumeWorker r now turnId (w', s)).2.
Proof.
  unfold resumeWorker, publishTurn.
  destruct (worker s) as [|turn|transcript userEntry|userEntry reply buffer format];
    [done|..]; destruct r as [c|c|ffmpeg|e]; try done.
  - destruct (transcribePcmTurn turn c) as [result|e]; [|done].
    destruct (trim <$> result) as [transcript|]; [|done].
    destruct (negb (truthy transcript)); [done|]. by destruct (_ && _).
  - destruct (synthesizeAssistantReply transcript c) as [[result calls]|e]; [|done].
    by destruct (audioBuffer result).
Qed.

Lemma worker_step w ref s r now turnId :
  sessions w !! ref = Some s ->
  sessions (step w (WorkerResumed ref r now turnId)) !! ref
  = Some (resumeWorker r now turnId (emptyWorld, s)).2.
Proof.
  intros Hs. cbn [step]. unfold onSession. rewrite Hs.
  rewrite (resumeWorker_session r now turnId emptyWorld w).
  destruct (resumeWorker r now turnId (w, s)) as [w' s']. cbn.
  by rewrite lookup_insert_eq.
Qed.

Lemma worker_run ops ref s r now turnId :
  sessions (run ops) !! ref = Some s ->
  sessions (run (ops ++ [WorkerResumed ref r now turnId])) !! ref
  = Some (resumeWorker r now turnId (emptyWorld, s)).2.
Proof.
  intros Hs. unfold run. rewrite foldl_app. by apply worker_step.
Qed.

Lemma turn_transcribed :
  (resumeWorker (Transcribed helloStt) 3100 "t1" (emptyWorld, turnSession)).2
  = set_worker (AwaitReply "hello"
                  {| role := RoleUser; message := "hello"; timestamp := 3100 |})
      (set_lastTranscriptAt 3100 (set_lastTranscript "hello" turnSession)).
Proof.
  unfold resumeWorker. cbn [worker turnSession]. rewrite turn_transcribes.
  reflexivity.
Qed.

Lemma reply_queued :
  (resumeWorker (Decoded (fun buffer _ => Some buffer)) 3300 "t1"
     (emptyWorld,
      (resumeWorker (Replied silentCollaborators) 3200 "t1"
         (emptyWorld,
          set_worker (AwaitReply "hello"
                        {| role := RoleUser; message := "hello"; timestamp := 3100 |})
            (set_lastTranscriptAt 3100 (set_lastTranscript "hello" turnSession)))).2)).2
  = playingSession.
Proof. reflexivity. Qed.

Lemma playing_session : sessions (run playingOps) !! 0%nat = Some playingSession.
Proof.
  unfold playingOps.
  rewrite (worker_run _ _ _ _ _ _
             (worker_run _ _ _ _ _ _ (worker_run _ _ _ _ _ _ turn_session))).
  apply (f_equal Some). rewrite turn_transcribed. apply reply_queued.
Qed.

End SampleRuns.

(** X1. In every state the server reaches, the pre-roll buffer of a session
    holds at most 22 frames, and [pushVadFrame] leaves in it the newest 22
    of the frames it held followed by the new one. *)
Theorem preroll_window (ops : list Op) (ref : nat) (s : ServerCallSession)
    (frame : list Z) :
  sessions (run ops) !! ref = Some s ->
  (length (preRollFrames (vad s)) <= 22)%nat
  /\ preRollFrames (pushVadFrame (vad s) frame)
     = sliceLast 22 (preRollFrames (vad s) ++ [frame]).
Proof.
  intros Hs. apply sound_run in Hs as ((Hpre & _) & _).
  unfold PRE_ROLL_FRAMES in Hpre. split; [exact Hpre|].
  unfold pushVadFrame, sliceLast, PRE_ROLL_FRAMES. cbn [preRollFrames set_preRollFrames].
  rewrite length_app. cbn [length].
  destruct (_ <? _)%nat eqn:E.
  - apply Nat.ltb_lt in E. by replace (length (preRollFrames (vad s)) + 1 - 22)%nat with 1%nat by lia.
  - apply Nat.ltb_ge in E. by replace (length (preRollFrames (vad s)) + 1 - 22)%nat with 0%nat by lia.
Qed.

Lemma preroll_window_witness :
  sessions (run turnOps) !! 0%nat = Some turnSession
  /\ length (preRollFrames (vad turnSession)) = 22%nat
  /\ preRollFrames (pushVadFrame (vad turnSession) [1; 2])
     = sliceLast 22 (preRollFrames (vad turnSession) ++ [[1; 2]]).
Proof.
  split; [exact turn_session|]. split; [reflexivity|].
  exact (proj2 (preroll_window turnOps 0%nat turnSession [1; 2] turn_session)).
Defined.

(** X2. In every state the server reaches, the sample counter of the
    detector equals the number of samples [concatInt16] makes of the
    buffered utterance frames; outside speech the buffer is empty and the
    counter and the rate are 0. *)
Theorem utterance_bookkeeping (ops : list Op) (ref : nat) (s : ServerCallSession) :
  sessions (run ops) !! ref = Some s ->
  utteranceSamples (vad s)
  = Z.of_nat (length (Audio.concatInt16 (utteranceFrames (vad s))))
  /\ (inSpeech (vad s) = false ->
        utteranceFrames (vad s) = [] /\ utteranceSamples (vad s) = 0
        /\ utteranceSampleRate (vad s) = 0).
Proof.
  intros Hs. apply sound_run in Hs as ((_ & Hsum & _ & Hidle) & _).
  rewrite concatInt16_concat. split; [exact Hsum|].
  intros Hin. destruct (Hidle Hin) as [Hr Hf]. rewrite Hsum, Hf. done.
Qed.

Lemma utterance_bookkeeping_witness :
  exists s,
    sessions (run talkingOps) !! 0%nat = Some s
    /\ inSpeech (vad s) = true
    /\ utteranceSamples (vad s) = 16
    /\ utteranceSamples (vad s)
       = Z.of_nat (length (Audio.concatInt16 (utteranceFrames (vad s)))).
Proof.
  destruct talking_session as (s & Hs & Hin & Hn). exists s.
  split; [exact Hs|]. split; [exact Hin|]. split; [exact Hn|].
  exact (proj1 (utterance_bookkeeping talkingOps 0%nat s Hs)).
Defined.

(** X3. In every state the server reaches, an utterance in progress has a
    sample rate between 8000 and 96000 and is shorter than 18 seconds: the
    frame that reaches the cap finalises it in the same stretch. *)
Theorem utterance_capped (ops : list Op) (ref : nat) (s : ServerCallSession) :
  sessions (run ops) !! ref = Some s ->
  inSpeech (vad s) = true ->
  8000 <= utteranceSampleRate (vad s) <= 96000
  /\ (utteranceMs (vad s) < 18000)%Q.
Proof.
  intros Hs Hin. apply sound_run in Hs as ((_ & _ & Hcap & _) & _).
  destruct (Hcap Hin) as [Hrate Hms]. split; [exact Hrate|].
  apply Qnot_le_lt. change 18000%Q with (inject_Z 18000).
  rewrite utteranceMs_ge by lia. unfold TURN_MAX_MS in Hms. lia.
Qed.

Lemma utterance_capped_witness :
  exists s,
    sessions (run talkingOps) !! 0%nat = Some s
    /\ inSpeech (vad s) = true
    /\ 8000 <= utteranceSampleRate (vad s) <= 96000
    /\ (utteranceMs (vad s) < 18000)%Q.
Proof.
  destruct talking_session as (s & Hs & Hin & _). exists s.
  split; [exact Hs|]. split; [exact Hin|].
  exact (utterance_capped talkingOps 0%nat s Hs Hin).
Defined.

Lemma turns_ok (ops : list Op) (ref : nat) (s : ServerCallSession) (turn : TurnSegment) :
  sessions (run ops) !! ref = Some s ->
  turn ∈ turnQueue s \/ worker s = AwaitTranscript turn ->
  turnOk turn.
Proof.
  intros Hs Hturn. apply sound_run in Hs as (_ & Hturns & _).
  unfold turnsOk in Hturns. rewrite Forall_forall in Hturns.
  apply (Hturns turn). apply elem_of_app. destruct Hturn as [H|H]; [by left|right].
  unfold inFlight. rewrite H. by apply list_elem_of_singleton.
Qed.

(** X4. Every turn that waits in a turn queue or is being transcribed has
    samples, a sample rate between 8000 and 96000, and lasts at least
    500 ms at that rate. *)
Theorem turns_well_formed (ops : list Op) (ref : nat) (s : ServerCallSession)
    (turn : TurnSegment) :
  sessions (run ops) !! ref = Some s ->
  turn ∈ turnQueue s \/ worker s = AwaitTranscript turn ->
  turnSamples turn <> []
  /\ 8000 <= turnSampleRate turn <= 96000
  /\ 500 * turnSampleRate turn <= 1000 * Z.of_nat (length (turnSamples turn)).
Proof.
  intros Hs Hturn. exact (turns_ok ops ref s turn Hs Hturn).
Qed.

Lemma turns_well_formed_witness :
  sessions (run turnOps) !! 0%nat = Some turnSession
  /\ worker turnSession = AwaitTranscript turnSegment
  /\ turnSamples turnSegment <> []
  /\ 8000 <= turnSampleRate turnSegment <= 96000
  /\ 500 * turnSampleRate turnSegment
     <= 1000 * Z.of_nat (length (turnSamples turnSegment)).
Proof.
  split; [exact turn_session|]. split; [reflexivity|].
  exact (turns_well_formed turnOps 0%nat turnSession turnSegment turn_session
           (or_intror eq_refl)).
Defined.


(** X5. For the turn a worker is transcribing, of fewer than 2^31 - 18
    samples, [createWavFromPcm16Mono] does not throw: it yields the 44
    header bytes followed by the sample bytes, and [transcribePcmTurn]
    returns what [transcribeAudioBuffer] finds. *)
Theorem detected_turn_packs (ops : list Op) (ref : nat) (s : ServerCallSession)
    (turn : TurnSegment) (c : SttCollaborators) :
  sessions (run ops) !! ref = Some s ->
  worker s = AwaitTranscript turn ->
  Z.of_nat (length (turnSamples turn)) < 2 ^ 31 - 18 ->
  Audio.createWavFromPcm16Mono (turnSamples turn) (turnSampleRate turn)
  = Normal (Audio.wavHeader (length (turnSamples turn) * 2) (turnSampleRate turn)
            ++ Audio.pcmBytes (turnSamples turn))
  /\ transcribePcmTurn turn c = Normal (transcribeAudioBuffer c).
Proof.
  intros Hs Hw Hlen.
  destruct (turns_ok ops ref s turn Hs (or_intror Hw)) as (_ & Hrate & _).
  assert (Hwav : Audio.createWavFromPcm16Mono (turnSamples turn) (turnSampleRate turn)
                 = Normal (Audio.wavHeader (length (turnSamples turn) * 2)
                             (turnSampleRate turn)
                           ++ Audio.pcmBytes (turnSamples turn))).
  { apply createWav_layout; lia. }
  split; [exact Hwav|]. unfold transcribePcmTurn. by rewrite Hwav.
Qed.

Lemma detected_turn_packs_witness :
  sessions (run turnOps) !! 0%nat = Some turnSession
  /\ worker turnSession = AwaitTranscript turnSegment
  /\ Z.of_nat (length (turnSamples turnSegment)) < 2 ^ 31 - 18
  /\ transcribePcmTurn turnSegment helloStt = Normal (transcribeAudioBuffer helloStt).
Proof.
  assert (Hlen : Z.of_nat (length (turnSamples turnSegment)) < 2 ^ 31 - 18).
  { cbn [turnSamples turnSegment]. rewrite length_app, length_replicate. cbn [length]. lia. }
  split; [exact turn_session|]. split; [reflexivity|]. split; [exact Hlen|].
  exact (proj2 (detected_turn_packs turnOps 0%nat turnSession turnSegment helloStt
                  turn_session eq_refl Hlen)).
Defined.

(** X6. In every state the server reaches, the playback timer of a session
    is set while its playback queue is not empty, and every queued item
    has samples, the rate 48000 and a cursor within its samples. *)
Theorem pacer_runs_while_queued (ops : list Op) (ref : nat) (s : ServerCallSession) :
  sessions (run ops) !! ref = Some s ->
  (playbackQueue s <> [] -> playbackTimer s = true)
  /\ Forall (fun item =>
               itemSamples item <> []
               /\ itemSampleRate item = 48000
               /\ (cursor item <= length (itemSamples item))%nat)
            (playbackQueue s).
Proof.
  intros Hs. apply sound_run in Hs as (_ & _ & Hitems & Hrun).
  split; [exact Hrun|exact Hitems].
Qed.

Lemma pacer_runs_while_queued_witness :
  sessions (run playingOps) !! 0%nat = Some playingSession
  /\ length (playbackQueue playingSession) = 1%nat
  /\ (playbackQueue playingSession <> [] -> playbackTimer playingSession = true)
  /\ Forall (fun item =>
               itemSamples item <> []
               /\ itemSampleRate item = 48000
               /\ (cursor item <= length (itemSamples item))%nat)
            (playbackQueue playingSession).
Proof.
  split; [exact playing_session|]. split; [reflexivity|].
  exact (pacer_runs_while_queued playingOps 0%nat playingSession playing_session).
Defined.

(** ** Delivery to subscribers *)

Section DeliveryFacts.

Lemma controllers_foldl_other line l : forall w ctl,
  ctl ∉ l -> controllers (foldl (enqueueTo line) w l) !! ctl = controllers w !! ctl.
Proof.
  induction l as [|x l IH]; intros w ctl Hnot; [done|].
  apply not_elem_of_cons in Hnot as [Hne Hnot]. cbn [foldl].
  rewrite IH by done. by apply controllers_enqueueTo_other.
Qed.

Lemma controllers_enqueueTo_self line w ctl c :
  controllers w !! ctl = Some c ->
  controllers (enqueueTo line w ctl) !! ctl = Some (deliver line c).
Proof.
  intros Hc. unfold enqueueTo, enqueue, deliver. rewrite Hc.
  destruct (ctlOpen c); [|done]. cbn. by rewrite lookup_insert_eq.
Qed.

Lemma controllers_foldl_member line l : forall w ctl c,
  NoDup l -> ctl ∈ l -> controllers w !! ctl = Some c ->
  controllers (foldl (enqueueTo line) w l) !! ctl = Some (deliver line c).
Proof.
  induction l as [|x l IH]; intros w ctl c Hnd Hin Hc.
  { by apply elem_of_nil in Hin. }
  apply NoDup_cons in Hnd as [Hx Hnd]. cbn [foldl].
  apply elem_of_cons in Hin as [->|Hin].
  - rewrite controllers_foldl_other by done. by apply controllers_enqueueTo_self.
  - apply IH; [done..|]. rewrite controllers_enqueueTo_other; [done|].
    intros ->. done.
Qed.

Lemma emit_member peerId roomId event w set ctl c :
  subscribers w !! subscriberKey peerId roomId = Some set ->
  NoDup set -> ctl ∈ set -> controllers w !! ctl = Some c ->
  controllers (emit peerId roomId event w) !! ctl = Some (deliver (DataLine event) c).
Proof.
  intros Hset Hnd Hin Hc. unfold emit. cbn [subscribers set_emitted]. rewrite Hset.
  destruct set as [|x set]; [by apply elem_of_nil in Hin|].
  by apply controllers_foldl_member.
Qed.

Lemma subscribers_emit peerId roomId event w :
  subscribers (emit peerId roomId event w) = subscribers w.
Proof. pose proof (shape_emit peerId roomId event w) as H. by injection H. Qed.

End DeliveryFacts.



(** X8. [emit] reaches every controller of the set under its key exactly
    once: an open stream gets the event as its last line, a dead stream
    is left as it is and does not keep the others from getting it. *)
Theorem emit_reaches_each_subscriber (ops : list Op) (peerId roomId : string)
    (event : SignalEvent) (set : list nat) (ctl : nat) :
  subscribers (run ops) !! subscriberKey peerId roomId = Some set ->
  ctl ∈ set ->
  exists c,
    controllers (run ops) !! ctl = Some c
    /\ controllers (emit peerId roomId event (run ops)) !! ctl
       = Some (deliver (DataLine event) c)
    /\ (ctlOpen c = true ->
          ctlLines (deliver (DataLine event) c) = ctlLines c ++ [DataLine event])
    /\ (ctlOpen c = false -> deliver (DataLine event) c = c).
Proof.
  intros Hset Hin. destruct (hubOk_run ops _ _ Hset) as (_ & Hnd & Hmem).
  destruct (Hmem _ Hin) as (c & Hc & _). exists c. split; [exact Hc|].
  split; [by eapply emit_member|].
  unfold deliver. split; intros ->; done.
Qed.

Lemma emit_reaches_each_subscriber_witness :
  exists set c0 c1,
    subscribers listeningWorld !! subscriberKey "user" "room" = Some set
    /\ set = [0; 1]%nat
    /\ controllers listeningWorld !! 0%nat = Some c0 /\ ctlOpen c0 = false
    /\ controllers listeningWorld !! 1%nat = Some c1 /\ ctlOpen c1 = true
    /\ controllers (emit "user" "room" strayEvent listeningWorld) !! 0%nat = Some c0
    /\ exists c,
         controllers listeningWorld !! 1%nat = Some c
         /\ controllers (emit "user" "room" strayEvent listeningWorld) !! 1%nat
            = Some (deliver (DataLine strayEvent) c).
Proof.
  eexists. eexists. eexists. split; [vm_compute; reflexivity|]. split; [reflexivity|].
  split; [vm_compute; reflexivity|]. split; [reflexivity|].
  split; [vm_compute; reflexivity|]. split; [reflexivity|].
  split; [vm_compute; reflexivity|].
  destruct (emit_reaches_each_subscriber
              listeningOps "user" "room" strayEvent [0; 1]%nat 1%nat)
    as (c & Hc & Hd & _).
  - vm_compute. reflexivity.
  - apply elem_of_cons. right. apply list_elem_of_singleton. reflexivity.
  - exists c. split; [exact Hc|exact Hd].
Defined.

(** X9. After the [cancel] callback of a stream its controller is in no
    set of the subscriber table, and no [emit] writes to it. *)
Theorem cancelled_stream_receives_nothing (ops : list Op) (ctl : nat) :
  let w := cancelStream ctl (run ops) in
  (forall key set, subscribers w !! key = Some set -> ctl ∉ set)
  /\ (forall peerId roomId event,
        controllers (emit peerId roomId event w) !! ctl = controllers w !! ctl).
Proof.
  intros w.
  assert (Hgone : forall key set, subscribers w !! key = Some set -> ctl ∉ set).
  { subst w. pose proof (hubOk_run ops) as Hok. unfold cancelStream.
    destruct (controllers (run ops) !! ctl) as [c|] eqn:Hc.
    2:{ intros key set Hset Hin. destruct (Hok _ _ Hset) as (_ & _ & Hmem).
        destruct (Hmem _ Hin) as (c & Hc' & _). congruence. }
    assert (Hother : forall key set,
              key <> subscriberKey (ctlPeerId c) (ctlRoomId c) ->
              subscribers (run ops) !! key = Some set -> ctl ∉ set).
    { intros key set Hne Hset Hin. destruct (Hok _ _ Hset) as (_ & _ & Hmem).
      destruct (Hmem _ Hin) as (c' & Hc' & Hk). congruence. }
    destruct (subscribers (run ops) !! subscriberKey (ctlPeerId c) (ctlRoomId c))
      as [set0|] eqn:Hset0.
    2:{ intros key set Hset. apply (Hother key); [|done]. intros ->. congruence. }
    destruct (filter _ set0) as [|x rest] eqn:Hf.
    - intros key set. cbn. rewrite lookup_delete. case_decide as Hk; [done|].
      apply Hother. congruence.
    - intros key set. cbn. rewrite lookup_insert. case_decide as Hk.
      + intros [= <-]. rewrite <- Hf. intros Hin.
        apply list_elem_of_filter in Hin as [Hne _]. done.
      + apply Hother. congruence. }
  split; [exact Hgone|].
  intros peerId roomId event. apply emit_only_subscribers.
  destruct (subscribers w !! subscriberKey peerId roomId) as [set|] eqn:Hset.
  - cbn [default]. by eapply Hgone.
  - apply not_elem_of_nil.
Qed.

(** X10. [GET /api/webrtc/events] with a non-empty [peerId] registers the
    new controller under the peer and the room (the default room when
    the parameter is missing); the first lines of the stream are [ready]
    and the [signaling_connected] event.  Without [peerId] nothing
    changes. *)
Theorem events_route_opens_stream (ops : list Op) (ctl : nat)
    (peerId room : option string) (now : Z) :
  controllers (run ops) !! ctl = None ->
  let w := run ops in
  let roomId := default DEFAULT_ROOM room in
  match peerId with
  | Some peer =>
      if truthy peer then
        exists set,
          (eventsGet ctl peerId room now w).2 = true
          /\ subscribers (eventsGet ctl peerId room now w).1 !! subscriberKey peer roomId
             = Some set
          /\ ctl ∈ set
          /\ controllers (eventsGet ctl peerId room now w).1 !! ctl
             = Some {| ctlPeerId := peer; ctlRoomId := roomId; ctlOpen := true;
                       ctlLines := [ReadyLine peer roomId;
                                    DataLine (connectedEvent peer roomId now)] |}
      else eventsGet ctl peerId room now w = (w, false)
  | None => eventsGet ctl peerId room now w = (w, false)
  end.
Proof.
  intros Hfresh w roomId. unfold eventsGet.
  destruct peerId as [peer|]; [|done]. destruct (truthy peer); [|done].
  cbn [fst snd]. fold roomId.
  pose proof (hubOk_open ctl peer roomId now w Hfresh (hubOk_run ops)) as Hok.
  unfold createSignalEventStream in *. unfold emitSystem in *.
  set (key := subscriberKey peer roomId) in *.
  set (set0 := default [] (subscribers w !! key)) in *.
  set (set1 := if bool_decide (ctl ∈ set0) then set0 else set0 ++ [ctl]) in *.
  set (w1 := set_controllers _ (set_subscribers _ w)) in *.
  assert (Hset1 : subscribers w1 !! key = Some set1).
  { subst w1. cbn. by rewrite lookup_insert_eq. }
  assert (Hin : ctl ∈ set1).
  { subst set1. case_bool_decide; [done|]. apply elem_of_app. right.
    by apply list_elem_of_singleton. }
  exists set1. split; [done|]. split; [by rewrite subscribers_emit|].
  split; [exact Hin|].
  assert (Hnd : NoDup set1).
  { match type of Hok with
    | hubOk ?w' => assert (Hset1' : subscribers w' !! key = Some set1)
                     by (by rewrite subscribers_emit)
    end.
    by destruct (Hok _ _ Hset1') as (_ & Hnd & _). }
  assert (Hc : controllers w1 !! ctl
               = Some {| ctlPeerId := peer; ctlRoomId := roomId; ctlOpen := true;
                         ctlLines := [ReadyLine peer roomId] |}).
  { subst w1. cbn. by rewrite lookup_insert_eq. }
  by rewrite (emit_member _ _ _ _ _ _ _ Hset1 Hnd Hin Hc).
Qed.

Lemma events_route_opens_stream_witness :
  controllers listeningWorld !! 7%nat = None
  /\ exists set,
       (eventsGet 7 (Some "guest"%string) None 9 listeningWorld).2 = true
       /\ subscribers (eventsGet 7 (Some "guest"%string) None 9 listeningWorld).1
            !! subscriberKey "guest" DEFAULT_ROOM = Some set
       /\ 7%nat ∈ set
       /\ controllers (eventsGet 7 (Some "guest"%string) None 9 listeningWorld).1 !! 7%nat
          = Some {| ctlPeerId := "guest"; ctlRoomId := DEFAULT_ROOM; ctlOpen := true;
                    ctlLines := [ReadyLine "guest" DEFAULT_ROOM;
                                 DataLine (connectedEvent "guest" DEFAULT_ROOM 9)] |}.
Proof.
  split; [vm_compute; reflexivity|].
  apply (events_route_opens_stream
           listeningOps 7%nat (Some "guest"%string) None 9).
  vm_compute. reflexivity.
Defined.

(** ** The engine and the session table *)

Section EngineFacts.

Lemma grows_teardown s : grows frameCallOk s (teardown s).
Proof.
  unfold teardown, stopPlaybackTimer, logCall.
  destruct (sink s) as [k|] eqn:Hk; cbn; rewrite ?Hk; cbn;
    destruct (playbackTimer s) eqn:Ht; cbn;
    (split; [done|]); (split; [done|]); (split; [done|]);
    eexists; (split; [rewrite <- ?app_assoc; reflexivity|]); by repeat constructor.
Qed.

Lemma pacerCall_frame c : pacerCall c -> frameCallOk c.
Proof. by destruct c. Qed.

Lemma move_grows s s' : sessionMove s s' -> grows frameCallOk s s'.
Proof.
  intros [|calls sk ns Hcalls|frame now w|accepted Ht|r now turnId w].
  - apply grows_teardown.
  - repeat split; try done. exists calls. split; [done|].
    eapply Forall_impl; [exact Hcalls|]. by intros [].
  - apply grows_handleInboundAudioFrame.
  - eapply grows_weaken; [apply pacerCall_frame|apply grows_playbackTick].
  - eapply grows_weaken; [apply pacerCall_frame|apply grows_resumeWorker].
Qed.

Lemma engine_run ops ref s :
  sessions (run ops) !! ref = Some s ->
  exists rest,
    engineCalls s = [AddTrack; SetRemoteDescription] ++ rest /\ Forall frameCallOk rest.
Proof.
  apply (run_sessions (fun s => exists rest,
           engineCalls s = [AddTrack; SetRemoteDescription] ++ rest
           /\ Forall frameCallOk rest)).
  - intros. by exists [].
  - intros s0 s' Hm (rest & Hc & Hok).
    apply move_grows in Hm as (_ & _ & _ & calls & Hc' & Hok').
    exists (rest ++ calls). split; [by rewrite Hc', Hc, app_assoc|by apply Forall_app].
Qed.

End EngineFacts.

(** X11. The calls a session makes on the engine start with [addTrack]
    and [setRemoteDescription], and every frame ever handed to
    [source.onData] has exactly 480 samples. *)
Theorem engine_call_protocol (ops : list Op) (ref : nat) (s : ServerCallSession) :
  sessions (run ops) !! ref = Some s ->
  take 2 (engineCalls s) = [AddTrack; SetRemoteDescription]
  /\ forall frame accepted,
       OnData frame accepted ∈ engineCalls s -> length frame = 480%nat.
Proof.
  intros Hs. apply engine_run in Hs as (rest & Hc & Hok). rewrite Hc.
  split; [done|]. intros frame accepted Hin.
  apply elem_of_app in Hin as [Hin|Hin].
  - repeat (apply elem_of_cons in Hin as [Hin|Hin]; [done|]). by apply elem_of_nil in Hin.
  - rewrite Forall_forall in Hok. by apply Hok in Hin.
Qed.

Lemma engine_call_protocol_witness :
  sessions (run playingOps) !! 0%nat = Some playingSession
  /\ take 2 (engineCalls playingSession) = [AddTrack; SetRemoteDescription]
  /\ forall frame accepted,
       OnData frame accepted ∈ engineCalls playingSession -> length frame = 480%nat.
Proof.
  split; [exact playing_session|].
  exact (engine_call_protocol playingOps 0%nat playingSession playing_session).
Defined.

(** X12. In every state the server reaches, a key of [serverSessions] maps
    to a session object of the room and peer of that key, on which
    [pc.close()] has not been called; no session object is filed under
    two keys. *)
Theorem registered_sessions_open (ops : list Op) (key : string) (ref : nat) :
  serverSessions (run ops) !! key = Some ref ->
  exists s,
    sessions (run ops) !! ref = Some s
    /\ roomPeerKey (roomId s) (userPeerId s) = key
    /\ (PcClose ∉ engineCalls s)
    /\ forall key', serverSessions (run ops) !! key' = Some ref -> key' = key.
Proof.
  intros Hkey. destruct (registryOk_run ops _ _ Hkey) as (s & Hs & Hk & Hc).
  exists s. split; [exact Hs|]. split; [exact Hk|]. split; [exact Hc|].
  intros key' Hkey'. destruct (registryOk_run ops _ _ Hkey') as (s' & Hs' & Hk' & _).
  congruence.
Qed.

Lemma registered_sessions_open_witness :
  exists s,
    serverSessions liveWorld !! roomPeerKey "room" "user" = Some 0%nat
    /\ sessions liveWorld !! 0%nat = Some s
    /\ roomPeerKey (roomId s) (userPeerId s) = roomPeerKey "room" "user"
    /\ PcClose ∉ engineCalls s.
Proof.
  destruct (registered_sessions_open
              liveOps
              (roomPeerKey "room" "user") 0%nat) as (s & Hs & Hk & Hc & _).
  - vm_compute. reflexivity.
  - exists s. split; [vm_compute; reflexivity|]. split; [exact Hs|]. by split.
Defined.

(** X13. [closeSession] on a registered call tears down the session object
    of that call (sink detached, playback queue empty, timer cleared,
    detector idle, [pc.close()] called) and removes its key and its
    buffered candidates; every other session object, key and buffer is
    left as it is. *)
Theorem closeSession_closes_one (ops : list Op) (room user : string) (ref : nat) :
  serverSessions (run ops) !! roomPeerKey room user = Some ref ->
  let w := run ops in
  let w' := closeSession room user w in
  (exists s,
     sessions w !! ref = Some s
     /\ sessions w' !! ref = Some (teardown s)
     /\ PcClose ∈ engineCalls (teardown s)
     /\ sink (teardown s) = None
     /\ playbackQueue (teardown s) = []
     /\ playbackTimer (teardown s) = false
     /\ inSpeech (vad (teardown s)) = false)
  /\ (forall ref', ref' <> ref -> sessions w' !! ref' = sessions w !! ref')
  /\ (forall key, key <> roomPeerKey room user ->
        serverSessions w' !! key = serverSessions w !! key
        /\ pendingServerCandidates w' !! key = pendingServerCandidates w !! key)
  /\ serverSessions w' !! roomPeerKey room user = None
  /\ pendingServerCandidates w' !! roomPeerKey room user = None.
Proof.
  intros Hkey w w'. destruct (registryOk_run ops _ _ Hkey) as (s & Hs & _ & _).
  subst w'. unfold closeSession. fold w in Hkey, Hs. rewrite Hkey.
  unfold onSession. cbn [sessions set_serverSessions set_pendingServerCandidates].
  rewrite Hs. cbn.
  split.
  { exists s. split; [done|]. split; [by rewrite lookup_insert_eq|].
    unfold teardown, stopPlaybackTimer, logCall.
    destruct (sink s) as [k|] eqn:Hk; cbn; rewrite ?Hk; cbn;
      destruct (playbackTimer s) eqn:Hpt; cbn; (split; [|done]);
      apply elem_of_app; right; by apply list_elem_of_singleton. }
  split; [intros ref' Hne; by rewrite lookup_insert_ne|].
  split; [intros key Hne; by rewrite !lookup_delete_ne|].
  by rewrite !lookup_delete_eq.
Qed.

Lemma closeSession_closes_one_witness :
  serverSessions liveWorld !! roomPeerKey "room" "user" = Some 0%nat
  /\ serverSessions (closeSession "room" "user" liveWorld) !! roomPeerKey "room" "user" = None
  /\ exists s,
       sessions liveWorld !! 0%nat = Some s
       /\ sessions (closeSession "room" "user" liveWorld) !! 0%nat = Some (teardown s).
Proof.
  split; [vm_compute; reflexivity|].
  destruct (closeSession_closes_one
              liveOps
              "room" "user" 0%nat) as ((s & Hs & Hs' & _) & _ & _ & Hgone & _).
  - vm_compute. reflexivity.
  - split; [exact Hgone|]. exists s. by split.
Defined.

(** ** Frames and levels *)

Section FrameFacts.
Import Audio.

Lemma roundedMean_int16 sum channelCount : int16 (roundedMean sum channelCount).
Proof. unfold roundedMean, int16. lia. Qed.

Lemma downmix_length samples channelCount :
  1 < channelCount ->
  Z.of_nat (length (downmixToMono samples channelCount))
  = Z.of_nat (length samples) / channelCount.
Proof.
  intros Hc. unfold downmixToMono. rewrite (proj2 (Z.leb_gt _ _)) by lia.
  rewrite length_map, length_seq. apply Z2Nat.id. apply Z.div_pos; lia.
Qed.

Lemma lookup_channels (n : nat) (mono : list Z) (i j : nat) :
  (j < n)%nat ->
  (mono ≫= replicate n) !! (i * n + j)%nat = mono !! i.
Proof.
  intros Hj. revert i. induction mono as [|v mono IH]; intros i.
  { by destruct i. }
  cbn [mbind list_bind]. fold (mono ≫= replicate n).
  destruct i as [|i].
  - rewrite lookup_app_l by (rewrite length_replicate; lia).
    cbn. by rewrite lookup_replicate_2.
  - rewrite lookup_app_r by (rewrite length_replicate; lia).
    rewrite length_replicate.
    replace (S i * n + j - n)%nat with (i * n + j)%nat by lia. apply IH.
Qed.

Lemma sum_channels (n : nat) (mono : list Z) (i : nat) (v : Z) (k : nat) :
  mono !! i = Some v -> (k <= n)%nat ->
  foldl (fun sum channel =>
           sum + default 0 ((mono ≫= replicate n) !! (i * n + channel)%nat))
        0 (seq 0 k)
  = Z.of_nat k * v.
Proof.
  intros Hv. induction k as [|k IH]; intros Hk; [done|].
  rewrite seq_S, foldl_app. cbn [foldl]. rewrite IH by lia.
  rewrite Nat.add_0_l, lookup_channels by lia. rewrite Hv. cbn. lia.
Qed.

Lemma length_channels (n : nat) (mono : list Z) :
  length (mono ≫= replicate n) = (length mono * n)%nat.
Proof.
  induction mono as [|v mono IH]; [done|].
  cbn [mbind list_bind]. fold (mono ≫= replicate n).
  rewrite length_app, length_replicate, IH. cbn. lia.
Qed.

End FrameFacts.

(** X14. [downmixToMono] returns the samples as they are for at most one
    channel; for more channels it returns one sample per complete frame,
    each within the 16-bit range, and a frame whose channels all carry
    the same 16-bit value yields that value. *)
Theorem downmix_averages_channels (samples mono : list Z) (channelCount : Z) (n : nat) :
  (channelCount <= 1 -> Audio.downmixToMono samples channelCount = samples)
  /\ (1 < channelCount ->
        Z.of_nat (length (Audio.downmixToMono samples channelCount))
        = Z.of_nat (length samples) / channelCount
        /\ Forall Audio.int16 (Audio.downmixToMono samples channelCount))
  /\ ((1 < n)%nat -> Forall Audio.int16 mono ->
        Audio.downmixToMono (mono ≫= replicate n) (Z.of_nat n) = mono).
Proof.
  split; [|split].
  - intros Hc. unfold Audio.downmixToMono. by rewrite (proj2 (Z.leb_le _ _)) by lia.
  - intros Hc. split; [by apply downmix_length|].
    unfold Audio.downmixToMono. rewrite (proj2 (Z.leb_gt _ _)) by lia.
    apply Forall_forall. intros x Hx. apply list_elem_of_fmap in Hx as (i & -> & _).
    apply roundedMean_int16.
  - intros Hn Hmono. unfold Audio.downmixToMono.
    rewrite (proj2 (Z.leb_gt _ _)) by lia.
    rewrite length_channels, Nat2Z.id.
    replace (Z.to_nat (Z.of_nat (length mono * n) / Z.of_nat n)) with (length mono).
    2:{ rewrite Nat2Z.inj_mul, Z.div_mul by lia. by rewrite Nat2Z.id. }
    apply list_eq. intros i. rewrite list_lookup_fmap.
    destruct (mono !! i) as [v|] eqn:Hv.
    + rewrite lookup_seq_lt by (by eapply lookup_lt_Some). cbn.
      f_equal. rewrite (sum_channels n mono i v n Hv) by lia.
      rewrite Forall_forall in Hmono.
      assert (Hr : Audio.int16 v) by (eapply Hmono, list_elem_of_lookup_2, Hv).
      unfold Audio.roundedMean, Audio.int16 in *.
      replace (2 * (Z.of_nat n * v) + Z.of_nat n) with (Z.of_nat n + v * (2 * Z.of_nat n)) by lia.
      rewrite Z.div_add by lia. rewrite Z.div_small by lia. lia.
    + rewrite lookup_seq_ge; [done|]. by apply lookup_ge_None.
Qed.

(** X15. [concatInt16] lays the frames end to end: its result is their
    concatenation, as long as the sum of their lengths, and joining two
    lists of frames joins the results. *)
Theorem concatInt16_joins (frames more : list (list Z)) :
  Audio.concatInt16 frames = concat frames
  /\ length (Audio.concatInt16 frames) = sum_list (length <$> frames)
  /\ Audio.concatInt16 (frames ++ more)
     = Audio.concatInt16 frames ++ Audio.concatInt16 more.
Proof.
  rewrite !concatInt16_concat. split; [done|]. split; [|apply concat_app].
  induction frames as [|f fs IH]; [done|]. cbn. by rewrite length_app, IH.
Qed.

Section LevelFacts.

Lemma rmsAtLeast_mono samples (lo hi : Q) :
  (0 <= lo)%Q -> (lo <= hi)%Q ->
  Audio.rmsAtLeast samples hi = true -> Audio.rmsAtLeast samples lo = true.
Proof.
  unfold Audio.rmsAtLeast. intros H0 Hle H. apply Qle_bool_iff in H.
  apply Qle_bool_iff. eapply Qle_trans; [|exact H].
  eapply Qle_trans; [apply Qmult_le_compat_r; [exact Hle|exact H0]|].
  rewrite (Qmult_comm hi lo). apply Qmult_le_compat_r; [exact Hle|].
  eapply Qle_trans; eassumption.
Qed.

End LevelFacts.

(** X16. A frame loud enough to start speech is loud enough to hold it; a
    frame that holds speech is not empty, and an empty frame does not
    start it. *)
Theorem vad_thresholds_nest (samples : list Z) :
  (Audio.rmsAtLeast samples VAD_START_RMS = true ->
   Audio.rmsAtLeast samples VAD_HOLD_RMS = true)
  /\ (Audio.rmsAtLeast samples VAD_HOLD_RMS = true -> samples <> [])
  /\ Audio.rmsAtLeast [] VAD_START_RMS = false.
Proof.
  split; [|split].
  - apply rmsAtLeast_mono; by vm_compute.
  - by apply rmsAtLeast_nonempty.
  - reflexivity.
Qed.

(** ** Speech start and the collaborators *)

Section StartFacts.

Lemma maybeFinalizeUtterance_cases now w s :
  maybeFinalizeUtterance now (w, s) = (w, s)
  \/ inSpeech (vad (maybeFinalizeUtterance now (w, s)).2) = false.
Proof.
  unfold maybeFinalizeUtterance.
  repeat (match goal with |- context [if ?b then _ else _] => destruct b end;
          try (by left); try (by right)).
  right. cbn [snd].
  by destruct (enqueueTurn_other (set_vad (resetVad (vad s)) s)
                 {| turnSamples := Audio.concatInt16 (utteranceFrames (vad s));
                    turnSampleRate := utteranceSampleRate (vad s) |}) as (-> & _).
Qed.

Lemma pushVadFrame_last v frame :
  last (preRollFrames (pushVadFrame v frame)) = Some frame.
Proof.
  unfold pushVadFrame. cbn [preRollFrames set_preRollFrames].
  destruct (_ <? _)%nat eqn:E; [|apply last_snoc].
  apply Nat.ltb_lt in E. rewrite length_app in E. cbn in E.
  destruct (preRollFrames v) as [|f pre]; [cbn in E; unfold PRE_ROLL_FRAMES in E; lia|].
  cbn. apply last_snoc.
Qed.

End StartFacts.

(** X17. The frame that starts speech enters the utterance twice: the
    utterance begins with the pre-roll, whose last frame it already is,
    and the frame is appended once more.  The utterance takes the sample
    rate of that frame and the current time as its start and last
    voice. *)
Theorem speech_start_repeats_frame (frame : AudioFrameLike) (now : Z) (w : World)
    (s : ServerCallSession) :
  8000 <= frameSampleRate frame <= 96000 ->
  inSpeech (vad s) = false ->
  let mono :=
    Audio.downmixToMono (frameSamples frame) (default 1 (frameChannelCount frame)) in
  Audio.rmsAtLeast mono VAD_START_RMS = true ->
  let s' := (handleInboundAudioFrame frame now (w, s)).2 in
  inSpeech (vad s') = true ->
  utteranceFrames (vad s') = preRollFrames (pushVadFrame (vad s) mono) ++ [mono]
  /\ last (preRollFrames (pushVadFrame (vad s) mono)) = Some mono
  /\ utteranceSampleRate (vad s') = frameSampleRate frame
  /\ utteranceStartedAt (vad s') = now
  /\ lastVoiceAt (vad s') = now.
Proof.
  intros Hrate Hidle mono Hloud s' Hin. subst s'. revert Hin.
  unfold handleInboundAudioFrame.
  rewrite (proj2 (orb_false_iff _ _)) by (split; apply Z.ltb_ge; lia).
  fold mono. set (s1 := set_vad (pushVadFrame (vad s) mono) s).
  assert (Hs1 : inSpeech (vad s1) = false) by exact Hidle.
  assert (Hhold : Audio.rmsAtLeast mono VAD_HOLD_RMS = true).
  { revert Hloud. apply rmsAtLeast_mono; by vm_compute. }
  rewrite Hloud, Hs1. cbn [andb negb]. cbn [vad set_vad inSpeech]. rewrite Hhold.
  match goal with
  | |- context [maybeFinalizeUtterance now (w, ?s2)] =>
      destruct (maybeFinalizeUtterance_cases now w s2) as [-> | ->]; [|done]
  end.
  intros _. cbn. split; [done|]. split; [apply pushVadFrame_last|done].
Qed.

Lemma speech_start_repeats_frame_witness :
  let s := newSession "room" "user" "friday-voice-bot-user" in
  let s' := (handleInboundAudioFrame loudFrame 20 (emptyWorld, s)).2 in
  utteranceFrames (vad s') = [frameSamples loudFrame; frameSamples loudFrame]
  /\ utteranceSamples (vad s') = 8.
Proof.
  cbv zeta.
  destruct (speech_start_repeats_frame loudFrame 20 emptyWorld
              (newSession "room" "user" "friday-voice-bot-user"))
    as (Hframes & _).
  - vm_compute. split; discriminate.
  - reflexivity.
  - vm_compute. reflexivity.
  - vm_compute. reflexivity.
  - split; [|vm_compute; reflexivity]. rewrite Hframes. reflexivity.
Defined.

Section ReplyShape.

Lemma requestLlmReply_truthy input res t :
  requestLlmReply input res = Normal t -> truthy t = true.
Proof.
  unfold requestLlmReply. destruct res as [|ok body]; [done|].
  destruct ok; [|done]. cbn [negb]. destruct body as [json|]; [|done].
  destruct (replyTextOf json) as [[text|]|]; cbn; try done.
  - destruct (truthy text) eqn:E; by intros [= <-].
  - by intros [= <-].
Qed.

Lemma replyText_truthy input c :
  truthy (try_catch (requestLlmReply input (llm c input))
                    (fun _ => "Comms degraded. Retry in a moment."%string)) = true.
Proof.
  destruct (requestLlmReply input (llm c input)) as [t|e] eqn:E; [|done].
  by eapply requestLlmReply_truthy.
Qed.

End ReplyShape.

(** X18. [synthesizeAssistantReply] always returns, with a text that is
    not empty.  The audio is what the local synthesiser yields (format
    [ogg], the remote one is not called); failing that and with an API key
    what the remote one yields (in its format, or none and [ogg]); without
    a key there is no audio.  [audioBase64] is present exactly when the
    audio is. *)
Theorem reply_synthesis_shape (input : string) (c : ReplyCollaborators) :
  exists result calls,
    synthesizeAssistantReply input c = Normal (result, calls)
    /\ truthy (text result) = true
    /\ audioBase64 result = audioBuffer result
    /\ (forall buffer, ttsLocal c (text result) = Some buffer ->
          audioBuffer result = Some buffer /\ audioFormat result = "ogg"%string
          /\ calls = [CallLlm input; CallLocalTts (text result)])
    /\ (ttsLocal c (text result) = None -> ttsApiKey c = false ->
          audioBuffer result = None /\ audioFormat result = "ogg"%string
          /\ calls = [CallLlm input; CallLocalTts (text result)])
    /\ (ttsLocal c (text result) = None -> ttsApiKey c = true ->
          audioBuffer result = ttsRemote c (text result)
          /\ audioFormat result
             = match ttsRemote c (text result) with
               | Some _ => ttsFormat c
               | None => "ogg"%string
               end
          /\ calls = [CallLlm input; CallLocalTts (text result);
                      CallRemoteTts (text result)]).
Proof.
  unfold synthesizeAssistantReply, tryJarvisTtsBuffer, tryOpenAiTtsBuffer.
  pose proof (replyText_truthy input c) as Ht.
  set (t := try_catch _ _) in *.
  destruct (ttsLocal c t) as [buffer|] eqn:Hlocal.
  - eexists. eexists. split; [reflexivity|]. cbn [text audioBuffer audioFormat audioBase64].
    split; [exact Ht|]. split; [done|]. rewrite Hlocal.
    split; [by intros ? [= <-]|]. split; discriminate.
  - destruct (ttsApiKey c) eqn:Hkey; cbn [negb].
    + destruct (ttsRemote c t) as [remote|] eqn:Hremote;
        (eexists; eexists; split; [reflexivity|]);
        cbn [text audioBuffer audioFormat audioBase64 fmap option_fmap option_map
               default fst snd];
        (split; [exact Ht|]); (split; [done|]); rewrite Hlocal, Hremote;
        (split; [discriminate|]); by split.
    + eexists. eexists. split; [reflexivity|].
      cbn [text audioBuffer audioFormat audioBase64 fmap option_fmap option_map
             default fst snd].
      split; [exact Ht|]. split; [done|]. rewrite Hlocal.
      split; [discriminate|]. by split.
Qed.

(** X19. [transcribeAudioBuffer] returns the trimmed output of the local
    binary when that is not blank, whatever the remote service would say;
    otherwise it returns what the remote service yields: nothing without
    an API key, else the answer of the first model, else that of the
    second.  A transcript is trimmed and not empty. *)
Theorem transcription_precedence (c : SttCollaborators) :
  (forall stdout, sttLocal c = SttStdout stdout -> truthy (trim stdout) = true ->
     transcribeAudioBuffer c = Some (trim stdout))
  /\ ((sttLocal c = SttFailed
       \/ exists stdout, sttLocal c = SttStdout stdout /\ truthy (trim stdout) = false) ->
      transcribeAudioBuffer c = transcribeWithOpenAi c
      /\ (sttApiKey c = false -> transcribeAudioBuffer c = None)
      /\ (sttApiKey c = true ->
          forall t, remoteAttempt (sttRemote c 0%nat) = Some t ->
                    transcribeAudioBuffer c = Some t)
      /\ (sttApiKey c = true -> remoteAttempt (sttRemote c 0%nat) = None ->
          transcribeAudioBuffer c = remoteAttempt (sttRemote c 1%nat)))
  /\ (forall t, transcribeAudioBuffer c = Some t -> truthy t = true /\ trim t = t).
Proof.
  split; [|split].
  - intros stdout Hl Ht. unfold transcribeAudioBuffer. by rewrite Hl, Ht.
  - intros Hlocal.
    assert (Hr : transcribeAudioBuffer c = transcribeWithOpenAi c).
    { unfold transcribeAudioBuffer.
      destruct Hlocal as [-> | (stdout & -> & ->)]; done. }
    rewrite Hr. unfold transcribeWithOpenAi. split; [done|].
    split; [by intros ->|]. split.
    + intros -> t Ht. cbn. by rewrite Ht.
    + intros -> Hn. cbn. by rewrite Hn.
  - apply transcribeAudioBuffer_trimmed.
Qed.

Section DecodeFacts.
Import Audio.

Lemma int16View_length_le n : forall bs,
  (length bs <= n)%nat -> length (int16View bs) = (length bs / 2)%nat.
Proof.
  induction n as [n IH] using lt_wf_ind. intros bs Hn.
  destruct bs as [|lo [|hi rest]]; [done..|].
  cbn [int16View length]. rewrite (IH (length rest)); [|cbn in Hn; lia|lia].
  change (S (S (length rest))) with (1 * 2 + length rest)%nat.
  rewrite Nat.div_add_l by lia. lia.
Qed.

Lemma int16View_range_le n : forall bs,
  (length bs <= n)%nat -> Forall (fun b => 0 <= b <= 255) bs -> Forall int16 (int16View bs).
Proof.
  induction n as [n IH] using lt_wf_ind. intros bs Hn Hb.
  destruct bs as [|lo [|hi rest]]; [constructor..|].
  cbn [int16View]. apply Forall_cons_1 in Hb as [Hlo Hb].
  apply Forall_cons_1 in Hb as [Hhi Hb]. constructor.
  - unfold readInt16LE, int16. destruct (32768 <=? lo + 256 * hi) eqn:E; lia.
  - apply (IH (length rest)); [cbn in Hn; lia|lia|done].
Qed.

Lemma int16View_odd samples b :
  Forall int16 samples -> int16View (pcmBytes samples ++ [b]) = samples.
Proof.
  induction 1 as [|x xs Hx _ IH]; [done|].
  unfold pcmBytes in *. cbn [map concat]. rewrite <- app_assoc.
  change (le_bytes 2 x) with [byteAt x 0; byteAt x 1]. cbn [app int16View].
  by rewrite IH, readInt16LE_byteAt.
Qed.

End DecodeFacts.

(** X20. [decodeAudioToPcm16Mono] yields nothing when the decoder fails;
    otherwise one sample per complete pair of bytes of its output, each
    within the 16-bit range, an odd last byte being dropped: from the
    little-endian bytes of 16-bit samples it recovers those samples. *)
Theorem decode_reads_int16 (audioBuffer : list Z) (inputExt : string)
    (ffmpeg : list Z -> string -> option (list Z)) :
  (ffmpeg audioBuffer inputExt = None ->
     decodeAudioToPcm16Mono audioBuffer inputExt ffmpeg = None)
  /\ (forall raw, ffmpeg audioBuffer inputExt = Some raw ->
        exists pcm,
          decodeAudioToPcm16Mono audioBuffer inputExt ffmpeg = Some pcm
          /\ length pcm = (length raw / 2)%nat
          /\ (Forall (fun b => 0 <= b <= 255) raw -> Forall Audio.int16 pcm))
  /\ (forall samples, Forall Audio.int16 samples ->
        (ffmpeg audioBuffer inputExt = Some (Audio.pcmBytes samples) ->
           decodeAudioToPcm16Mono audioBuffer inputExt ffmpeg = Some samples)
        /\ (forall b, ffmpeg audioBuffer inputExt = Some (Audio.pcmBytes samples ++ [b]) ->
              decodeAudioToPcm16Mono audioBuffer inputExt ffmpeg = Some samples)).
Proof.
  unfold decodeAudioToPcm16Mono. split; [by intros ->|]. split.
  - intros raw ->. eexists. split; [reflexivity|].
    split; [by eapply int16View_length_le|by eapply int16View_range_le].
  - intros samples Hs. split.
    + intros ->. cbn. by rewrite int16View_pcmBytes.
    + intros b ->. cbn. by rewrite int16View_odd.
Qed.

(** ** Signals to the server bot and teardown *)

Section SignalFacts.

Lemma emitted_onSession ref f w :
  (forall w s, emitted (f (w, s)).1 = emitted w) ->
  emitted (onSession ref f w) = emitted w.
Proof.
  intros Hf. unfold onSession. destruct (sessions w !! ref) as [s|]; [|done].
  specialize (Hf w s). by destruct (f (w, s)).
Qed.

Lemma emitted_closeSession roomId peerId w :
  emitted (closeSession roomId peerId w) = emitted w.
Proof.
  unfold closeSession. destruct (serverSessions w !! _); [|done].
  by rewrite emitted_onSession.
Qed.

Lemma roomChat_closeSession roomId peerId w :
  roomChat (closeSession roomId peerId w) = roomChat w.
Proof.
  unfold closeSession. destruct (serverSessions w !! _); [|done].
  unfold onSession. cbn. by destruct (sessions w !! _).
Qed.

Lemma serverSessions_closeSession roomId peerId w :
  serverSessions (closeSession roomId peerId w)
  = delete (roomPeerKey roomId peerId) (serverSessions w).
Proof.
  unfold closeSession.
  destruct (serverSessions w !! _) as [ref|] eqn:Hkey; [|by rewrite delete_id].
  by rewrite onSession_serverSessions.
Qed.

Lemma serverSessions_emit peerId roomId event w :
  serverSessions (emit peerId roomId event w) = serverSessions w.
Proof. pose proof (tables_emit peerId roomId event w) as H. by injection H. Qed.

Lemma botPeer_truthy to : isServerBotPeer to = true -> truthy to = true.
Proof. by destruct to. Qed.

Lemma foldl_logCall (l : list Value) : forall s,
  foldl (fun s c => logCall (AddIceCandidate c) s) s l
  = set_engineCalls (engineCalls s ++ (AddIceCandidate <$> l)) s.
Proof.
  induction l as [|x l IH]; intros s.
  - destruct s. cbn. by rewrite app_nil_r.
  - cbn [foldl]. rewrite IH. unfold logCall. cbn. by rewrite <- app_assoc.
Qed.

End SignalFacts.

(** X21. An offer whose payload is not a session description of type
    [offer] changes no session, key or candidate buffer and no chat log:
    the sender is sent [invalid_offer_payload] and nothing else
    happens. *)
Theorem invalid_offer_rejected (event : SignalEvent) (now : Z) (w : World) :
  evType event = Offer ->
  (forall d, asSessionDescription (evPayload event) = Some d ->
             sdType d <> "offer"%string) ->
  let w' := handleServerBotSignal event now w in
  tables w' = tables w
  /\ roomChat w' = roomChat w
  /\ emitted w' = emitted w ++ [invalidOfferNotice event now].
Proof.
  intros Hty Hbad w'. subst w'. unfold handleServerBotSignal. rewrite Hty.
  assert (Hnotice : forall w0,
            tables (emitSystem (evFrom event) (evRoomId event) "invalid_offer_payload" now w0)
            = tables w0
            /\ roomChat (emitSystem (evFrom event) (evRoomId event)
                           "invalid_offer_payload" now w0) = roomChat w0
            /\ emitted (emitSystem (evFrom event) (evRoomId event)
                          "invalid_offer_payload" now w0)
               = emitted w0 ++ [invalidOfferNotice event now]).
  { intros w0. split; [apply tables_emitSystem|]. split; [apply roomChat_emit|].
    apply emitted_emit. }
  destruct (asSessionDescription (evPayload event)) as [d|] eqn:Hd; [|apply Hnotice].
  destruct (String.eqb (sdType d) "offer") eqn:E; [|apply Hnotice].
  apply String.eqb_eq in E. by destruct (Hbad d).
Qed.

Lemma invalid_offer_rejected_witness :
  asSessionDescription (evPayload answerAsOffer)
  = Some {| sdType := "answer"; sdp := "v=0" |}
  /\ tables (handleServerBotSignal answerAsOffer 7 liveWorld) = tables liveWorld
  /\ emitted (handleServerBotSignal answerAsOffer 7 liveWorld)
     = emitted liveWorld ++ [invalidOfferNotice answerAsOffer 7].
Proof.
  split; [reflexivity|].
  destruct (invalid_offer_rejected answerAsOffer 7 liveWorld) as (Ht & _ & He).
  - reflexivity.
  - intros d [= <-]. discriminate.
  - by split.
Defined.

(** X22. A [bye] with a recipient removes the sessions of both the sender
    and the recipient in that room from [serverSessions]; it is passed on
    to the subscribers of the recipient unless the recipient is a
    server bot. *)
Theorem bye_closes_both_sessions (event : SignalEvent) (now : Z) (w : World)
    (to : string) :
  evType event = Bye ->
  evTo event = Some to ->
  truthy to = true ->
  let w' := relaySignal event now w in
  serverSessions w'
  = delete (roomPeerKey (evRoomId event) to)
      (delete (roomPeerKey (evRoomId event) (evFrom event)) (serverSessions w))
  /\ emitted w' = (if isServerBotPeer to then emitted w else emitted w ++ [event]).
Proof.
  intros Hty Hto Htruthy w'. subst w'. unfold relaySignal. rewrite Hty, Hto, Htruthy.
  cbn [andb negb].
  destruct (isServerBotPeer to).
  - unfold handleServerBotSignal. rewrite Hty.
    rewrite !serverSessions_closeSession, !emitted_closeSession. split; [|done].
    rewrite (delete_id _ (roomPeerKey (evRoomId event) (evFrom event))); [done|].
    rewrite lookup_delete. case_decide; [done|]. apply lookup_delete_eq.
  - by rewrite serverSessions_emit, emitted_emit, !serverSessions_closeSession,
      !emitted_closeSession.
Qed.

Lemma bye_closes_both_sessions_witness :
  serverSessions liveWorld !! roomPeerKey "room" "user" = Some 0%nat
  /\ serverSessions (relaySignal byeEvent 8 liveWorld)
     = delete (roomPeerKey "room" "friday-voice-bot-user")
         (delete (roomPeerKey "room" "user") (serverSessions liveWorld))
  /\ emitted (relaySignal byeEvent 8 liveWorld) = emitted liveWorld.
Proof.
  split; [vm_compute; reflexivity|].
  apply (bye_closes_both_sessions byeEvent 8 liveWorld "friday-voice-bot-user");
    reflexivity.
Defined.

(** X23. [relaySignal] does not pass a signal addressed to a server bot on
    to subscribers: up to its first suspension it emits nothing but,
    for an offer, the [invalid_offer_payload] notice to the sender.  It
    touches no chat log. *)
Theorem bot_signals_stay_on_server (event : SignalEvent) (now : Z) (w : World)
    (to : string) :
  evTo event = Some to ->
  isServerBotPeer to = true ->
  let w' := relaySignal event now w in
  roomChat w' = roomChat w
  /\ (emitted w' = emitted w
      \/ (evType event = Offer
          /\ emitted w' = emitted w ++ [invalidOfferNotice event now])).
Proof.
  intros Hto Hbot w'. subst w'.
  unfold relaySignal. rewrite Hto, Hbot, (botPeer_truthy to Hbot). cbn [andb].
  set (w1 := match evType event with Bye => _ | _ => w end).
  assert (Hw1 : roomChat w1 = roomChat w /\ emitted w1 = emitted w).
  { subst w1. destruct (evType event); try done.
    by rewrite !roomChat_closeSession, !emitted_closeSession. }
  destruct Hw1 as [Hc He]. rewrite <- Hc, <- He.
  unfold handleServerBotSignal, createServerSession.
  destruct (evType event) eqn:Hty; try (split; [done|by left]).
  - assert (Hnotice :
      roomChat (emitSystem (evFrom event) (evRoomId event) "invalid_offer_payload" now w1)
      = roomChat w1
      /\ (emitted (emitSystem (evFrom event) (evRoomId event)
                     "invalid_offer_payload" now w1) = emitted w1
          \/ Offer = Offer
             /\ emitted (emitSystem (evFrom event) (evRoomId event)
                           "invalid_offer_payload" now w1)
                = emitted w1 ++ [invalidOfferNotice event now])).
    { split; [apply roomChat_emit|]. right. split; [done|apply emitted_emit]. }
    destruct (asSessionDescription _) as [offer|]; [|exact Hnotice].
    destruct (String.eqb _ _); [|exact Hnotice].
    rewrite roomChat_closeSession, emitted_closeSession. split; [done|by left].
  - destruct (asIceCandidate _) as [candidate|]; [|split; [done|by left]].
    destruct (getServerSession _ _ _) as [ref|]; [|split; [done|by left]].
    unfold onSession. destruct (sessions w1 !! ref); split; try done; by left.
  - rewrite roomChat_closeSession, emitted_closeSession. split; [done|by left].
Qed.

Lemma bot_signals_stay_on_server_witness :
  isServerBotPeer "friday-voice-bot-user" = true
  /\ roomChat (relaySignal answerAsOffer 7 liveWorld) = roomChat liveWorld
  /\ (emitted (relaySignal answerAsOffer 7 liveWorld) = emitted liveWorld
      \/ (evType answerAsOffer = Offer
          /\ emitted (relaySignal answerAsOffer 7 liveWorld)
             = emitted liveWorld ++ [invalidOfferNotice answerAsOffer 7])).
Proof.
  split; [reflexivity|].
  apply (bot_signals_stay_on_server answerAsOffer 7 liveWorld "friday-voice-bot-user");
    reflexivity.
Defined.

Section CandidateFacts.

Lemma buffer_candidates room from bot now (cs : list Value) : forall w,
  Forall (fun c => asIceCandidate c = Some c) cs ->
  (length cs <= 80)%nat ->
  serverSessions w !! roomPeerKey room from = None ->
  pendingServerCandidates w !! roomPeerKey room from = None ->
  let w1 := foldl (fun w c => handleServerBotSignal (candidateSignal room from bot now c) now w)
                  w cs in
  serverSessions w1 = serverSessions w /\ sessions w1 = sessions w
  /\ pendingServerCandidates w1 !! roomPeerKey room from
     = (match cs with [] => None | _ => Some cs end).
Proof.
  induction cs as [|c cs IH] using rev_ind; intros w Hvalid Hlen Hss Hp; [done|].
  apply Forall_app in Hvalid as [Hvalid Hc]. rewrite Forall_singleton in Hc.
  rewrite length_app in Hlen. cbn in Hlen.
  cbv zeta. rewrite foldl_app. cbn [foldl].
  destruct (IH w Hvalid ltac:(lia) Hss Hp) as (Hs1 & Hs2 & Hp1).
  set (w1 := foldl _ w cs) in *.
  unfold handleServerBotSignal, getServerSession. cbn [evType candidateSignal evPayload
    evRoomId evFrom]. rewrite Hc, Hs1, Hss. cbn [serverSessions sessions
    pendingServerCandidates set_pendingServerCandidates].
  split; [done|]. split; [done|]. rewrite lookup_insert_eq, Hp1.
  assert (Hq : default [] (match cs with [] => None | _ :: _ => Some cs end) = cs)
    by by destruct cs.
  rewrite Hq.
  assert (Hlt : (MAX_PENDING_SERVER_CANDIDATES <? length (cs ++ [c]))%nat = false).
  { apply Nat.ltb_ge. rewrite length_app. cbn. unfold MAX_PENDING_SERVER_CANDIDATES. lia. }
  rewrite Hlt. by destruct cs.
Qed.

End CandidateFacts.

(** X24. Up to 80 valid candidates that arrive before the session exists
    are buffered in order of arrival.  The offer that follows finds no
    session to close and leaves the buffer as it is; once the session
    is created the candidates are handed to its peer connection in that
    order, after [setRemoteDescription], and the buffer is dropped. *)
Theorem buffered_candidates_reach_session (ref : nat) (room from bot : string)
    (now : Z) (cs : list Value) (description : Value) (sd : string) (w : World) :
  Forall (fun c => asIceCandidate c = Some c) cs ->
  (0 < length cs <= 80)%nat ->
  asSessionDescription description = Some {| sdType := "offer"; sdp := sd |} ->
  serverSessions w !! roomPeerKey room from = None ->
  pendingServerCandidates w !! roomPeerKey room from = None ->
  sessions w !! ref = None ->
  let w1 := foldl (fun w c => handleServerBotSignal (candidateSignal room from bot now c) now w)
                  w cs in
  let offer := {| evType := Offer; evFrom := from; evTo := Some bot; evRoomId := room;
                  evPayload := description; evAt := now |} in
  let w2 := applyQueuedCandidates ref room from
              (sessionCreated ref room from bot (handleServerBotSignal offer now w1)) in
  pendingServerCandidates w1 !! roomPeerKey room from = Some cs
  /\ handleServerBotSignal offer now w1 = w1
  /\ (exists s, sessions w2 !! ref = Some s
                /\ engineCalls s
                   = [AddTrack; SetRemoteDescription] ++ (AddIceCandidate <$> cs))
  /\ pendingServerCandidates (forgetQueuedCandidates room from w2) !! roomPeerKey room from
     = None.
Proof.
  intros Hvalid [Hpos Hlen] Hoffer Hss Hp Href w1 offer w2.
  destruct (buffer_candidates room from bot now cs w Hvalid Hlen Hss Hp)
    as (Hs1 & Hs2 & Hp1). fold w1 in Hs1, Hs2, Hp1.
  assert (Hp1' : pendingServerCandidates w1 !! roomPeerKey room from = Some cs).
  { rewrite Hp1. destruct cs; [cbn in Hpos; lia|done]. }
  assert (Hsame : handleServerBotSignal offer now w1 = w1).
  { unfold handleServerBotSignal, createServerSession. cbn [evType offer evPayload].
    rewrite Hoffer. cbn [sdType String.eqb Ascii.eqb Bool.eqb andb].
    cbn [evRoomId evFrom]. apply closeSession_absent. by rewrite Hs1. }
  split; [exact Hp1'|]. split; [exact Hsame|]. split.
  - subst w2. rewrite Hsame. unfold applyQueuedCandidates.
    cbn [pendingServerCandidates sessionCreated set_serverSessions set_sessions].
    rewrite Hp1'. destruct cs as [|c cs']; [cbn in Hpos; lia|].
    unfold onSession. cbn [sessions sessionCreated set_serverSessions set_sessions].
    rewrite lookup_insert_eq. cbn [sessions set_sessions set_serverSessions].
    rewrite lookup_insert_eq. eexists. split; [reflexivity|].
    by rewrite foldl_logCall.
  - unfold forgetQueuedCandidates. cbn. apply lookup_delete_eq.
Qed.

Lemma buffered_candidates_reach_session_witness :
  let c1 := VObject {[ "candidate"%string := VString "c1" ]} in
  let c2 := VObject {[ "candidate"%string := VString "c2" ]} in
  let w1 := foldl (fun w c => handleServerBotSignal
                                (candidateSignal "room" "user" "friday-voice-bot-user" 3 c) 3 w)
                  emptyWorld [c1; c2] in
  let offer := {| evType := Offer; evFrom := "user"; evTo := Some "friday-voice-bot-user";
                  evRoomId := "room"; evPayload := offerDescription; evAt := 3 |} in
  let w2 := applyQueuedCandidates 0 "room" "user"
              (sessionCreated 0 "room" "user" "friday-voice-bot-user"
                 (handleServerBotSignal offer 3 w1)) in
  exists s, sessions w2 !! 0%nat = Some s
            /\ engineCalls s
               = [AddTrack; SetRemoteDescription; AddIceCandidate c1; AddIceCandidate c2].
Proof.
  cbv zeta.
  destruct (buffered_candidates_reach_session 0 "room" "user" "friday-voice-bot-user" 3
              [VObject {[ "candidate"%string := VString "c1" ]};
               VObject {[ "candidate"%string := VString "c2" ]}]
              offerDescription "v=0" emptyWorld)
    as (_ & _ & (s & Hs & Hc) & _).
  - repeat constructor.
  - cbn. lia.
  - reflexivity.
  - reflexivity.
  - reflexivity.
  - reflexivity.
  - exists s. by split.
Defined.

(** X25. [closeSession] leaves the turn queue, the guard and the worker of
    the session as they are: the turn in flight goes on, and what the
    worker then does to the chat log and the subscribers is what it would
    have done had the session not been closed. *)
Theorem close_does_not_cancel_turn (r : Resumption) (now : Z) (turnId : string)
    (w : World) (s : ServerCallSession) :
  worker (teardown s) = worker s
  /\ turnQueue (teardown s) = turnQueue s
  /\ processingTurn (teardown s) = processingTurn s
  /\ (resumeWorker r now turnId (w, teardown s)).1 = (resumeWorker r now turnId (w, s)).1.
Proof.
  assert (H : worker (teardown s) = worker s /\ turnQueue (teardown s) = turnQueue s
              /\ processingTurn (teardown s) = processingTurn s
              /\ roomId (teardown s) = roomId s /\ userPeerId (teardown s) = userPeerId s
              /\ lastTranscript (teardown s) = lastTranscript s
              /\ lastTranscriptAt (teardown s) = lastTranscriptAt s).
  { unfold teardown, stopPlaybackTimer, logCall.
    destruct (sink s) as [k|] eqn:Hk; cbn; rewrite ?Hk; cbn;
      by destruct (playbackTimer s). }
  destruct H as (Hw & Hq & Hp & Hroom & Huser & Hlt & Hlta).
  split; [exact Hw|]. split; [exact Hq|]. split; [exact Hp|].
  unfold resumeWorker, publishTurn. rewrite Hw.
  destruct (worker s) as [|turn|transcript userEntry|userEntry reply buffer format];
    [done|..]; destruct r as [c|c|ffmpeg|e]; try done.
  - destruct (transcribePcmTurn turn c) as [result|e]; [|done].
    destruct (trim <$> result) as [transcript|]; cbn [fst]; rewrite ?Hroom, ?Huser; [|done].
    destruct (negb (truthy transcript)); [done|].
    rewrite Hlt, Hlta. destruct (_ && _); [done|].
    cbn [fst roomId set_lastTranscriptAt set_lastTranscript]. by rewrite Hroom.
  - destruct (synthesizeAssistantReply transcript c) as [[result calls]|e]; [|done].
    destruct (audioBuffer result); cbn [fst]; by rewrite ?Hroom, ?Huser.
  - cbn [fst].
    assert (He : forall s0 pcm, roomId (enqueueAssistantAudio s0 pcm) = roomId s0
                                /\ userPeerId (enqueueAssistantAudio s0 pcm) = userPeerId s0).
    { intros s0 pcm. unfold enqueueAssistantAudio, startPlaybackLoop.
      destruct pcm; [done|]. cbn. by destruct (playbackTimer s0). }
    destruct (decodeAudioToPcm16Mono _ _ _) as [[|x pcm]|]; rewrite ?Hroom, ?Huser; try done.
    destruct (He (teardown s) (x :: pcm)) as [-> ->].
    destruct (He s (x :: pcm)) as [-> ->]. by rewrite Hroom, Huser.
Qed.




(** ** Routes *)

(** X27. [POST /api/webrtc/chat] throws only on a [null] body, and a
    request it rejects changes nothing.  A request it accepts has one of
    the three role names as its role and a string with a non-blank
    character as its message; it appends one entry, with the message as
    sent (not trimmed) and the current time, to the room the body names
    (the default room when it names none), which [GET] then returns as
    the last entry; other rooms are unchanged and no event is
    emitted. *)
Theorem chat_route_appends_valid_entries (body : option Value) (now : Z) (w : World) :
  match chatPost body now w with
  | Throw _ => exists candidate, body = Some candidate /\ nullish candidate = true
  | Normal (w', ChatBadRequest _) => w' = w
  | Normal (w', ChatPosted entry) =>
      exists candidate,
        body = Some candidate
        /\ getField "message" candidate = VString (message entry)
        /\ truthy (trim (message entry)) = true
        /\ getField "role" candidate = VString (roleName (role entry))
        /\ timestamp entry = now
        /\ w' = addChatEntry (roomOfBody candidate) entry w
        /\ chatGet (Some (roomOfBody candidate)) w'
           = sliceLast 250 (chatGet (Some (roomOfBody candidate)) w ++ [entry])
        /\ (forall other, other <> roomOfBody candidate ->
              chatGet (Some other) w' = chatGet (Some other) w)
        /\ emitted w' = emitted w
  end.
Proof.
  unfold chatPost. destruct body as [candidate|]; [|done].
  destruct (nullish candidate) eqn:Hn; [by exists candidate|].
  destruct (roleOf (getField "role" candidate)) as [r|] eqn:Hr; [|done].
  destruct (getField "message" candidate) as [| | | |msg| |] eqn:Hm; try done.
  destruct (truthy (trim msg)) eqn:Ht; [|done]. cbn [negb].
  exists candidate. fold (roomOfBody candidate). cbn [message role timestamp].
  split; [done|]. split; [done|]. split; [done|]. split.
  { unfold roleOf in Hr. destruct (getField "role" candidate) as [| | | |name| |]; try done.
    destruct (String.eqb name "user") eqn:E1.
    { apply String.eqb_eq in E1. injection Hr as <-. by subst. }
    destruct (String.eqb name "assistant") eqn:E2.
    { apply String.eqb_eq in E2. injection Hr as <-. by subst. }
    destruct (String.eqb name "system") eqn:E3; [|done].
    apply String.eqb_eq in E3. injection Hr as <-. by subst. }
  split; [done|]. split; [done|]. unfold chatGet. cbn [default].
  split; [|split; [|done]].
  - rewrite getChatHistory_addChatEntry. by rewrite decide_True.
  - intros other Hne. rewrite getChatHistory_addChatEntry. by rewrite decide_False.
Qed.

Section RouteFacts.

Lemma reply_shape input c :
  exists result calls,
    synthesizeAssistantReply input c = Normal (result, calls)
    /\ truthy (text result) = true.
Proof.
  unfold synthesizeAssistantReply, tryJarvisTtsBuffer.
  pose proof (replyText_truthy input c) as Ht.
  set (t := try_catch _ _) in *.
  destruct (ttsLocal c t); eexists; eexists; (split; [reflexivity|exact Ht]).
Qed.

Lemma roomOfBody_truthy candidate : truthy (roomOfBody candidate) = true.
Proof.
  unfold roomOfBody, nonEmptyString.
  destruct (getField "roomId" candidate) as [| | | |room| |]; try done.
  by destruct (truthy room) eqn:E.
Qed.

End RouteFacts.

(** X28. [GET /api/webrtc/chat] without [roomId] reads the default room.
    With an empty [roomId] it reads the room of the empty name, which no
    [POST] writes: an empty [roomId] in a body stands for the default
    room. *)
Theorem chat_route_never_writes_unnamed_room (body : option Value) (now : Z) (w : World) :
  chatGet None w = chatGet (Some DEFAULT_ROOM) w
  /\ match chatPost body now w with
     | Normal (w', _) => chatGet (Some ""%string) w' = chatGet (Some ""%string) w
     | Throw _ => True
     end.
Proof.
  split; [done|]. unfold chatPost. destruct body as [candidate|]; [|done].
  destruct (nullish candidate); [done|].
  destruct (roleOf (getField "role" candidate)) as [r|]; [|done].
  destruct (getField "message" candidate) as [| | | |msg| |]; try done.
  destruct (truthy (trim msg)); [|done]. cbn [negb]. fold (roomOfBody candidate).
  unfold chatGet. cbn [default]. rewrite getChatHistory_addChatEntry.
  rewrite decide_False; [done|]. intros E.
  pose proof (roomOfBody_truthy candidate) as H. by rewrite E in H.
Qed.

(** X29. [POST /api/webrtc/assistant] takes as transcript what the audio
    transcribes to, else the trimmed [transcript] of the body, else the
    trimmed [fallbackTranscript]; with none of them it rejects the request
    without any change.  Otherwise it appends one entry to the chat log
    of the room, the reply of the assistant, which is not empty (the
    transcript is not logged), emits no event, and labels the audio
    [audio/ogg] whatever its format. *)
Theorem assistant_route_answers (base64 : string -> list Z) (body : option Value)
    (stt : SttCollaborators) (c : ReplyCollaborators) (now : Z) (w : World) :
  match assistantPost base64 body stt c now w with
  | Throw _ => exists candidate, body = Some candidate /\ nullish candidate = true
  | Normal (w', AssistantBadRequest _) =>
      w' = w
      /\ forall candidate, body = Some candidate ->
           heardTranscript base64 candidate stt = ""%string
           /\ trimmedString (getField "transcript" candidate) = ""%string
           /\ trimmedString (getField "fallbackTranscript" candidate) = ""%string
  | Normal (w', AssistantOk answer) =>
      exists candidate,
        body = Some candidate
        /\ truthy (answerTranscript answer) = true
        /\ answerTranscript answer
           = (if truthy (heardTranscript base64 candidate stt)
              then heardTranscript base64 candidate stt
              else if truthy (trimmedString (getField "transcript" candidate))
                   then trimmedString (getField "transcript" candidate)
                   else trimmedString (getField "fallbackTranscript" candidate))
        /\ role (answerReply answer) = RoleAssistant
        /\ truthy (message (answerReply answer)) = true
        /\ timestamp (answerReply answer) = now
        /\ w' = addChatEntry (roomOfBody candidate) (answerReply answer) w
        /\ getChatHistory (roomOfBody candidate) w'
           = sliceLast 250 (getChatHistory (roomOfBody candidate) w ++ [answerReply answer])
        /\ emitted w' = emitted w
        /\ answerAudioMimeType answer
           = match answerAudioBase64 answer with
             | Some _ => Some "audio/ogg"%string
             | None => None
             end
  end.
Proof.
  unfold assistantPost. destruct body as [candidate|]; [|done].
  destruct (nullish candidate) eqn:Hn; [by exists candidate|].
  fold (heardTranscript base64 candidate stt). fold (roomOfBody candidate).
  set (heard := heardTranscript base64 candidate stt).
  set (typed := trimmedString (getField "transcript" candidate)).
  set (fallback := trimmedString (getField "fallbackTranscript" candidate)).
  set (transcript := if negb (truthy heard) then _ else heard).
  assert (Ht : transcript = if truthy heard then heard
                            else if truthy typed then typed else fallback).
  { subst transcript. by destruct (truthy heard). }
  destruct (truthy transcript) eqn:Htruthy; cbn [negb].
  2:{ split; [done|]. intros ? [= <-]. rewrite Ht in Htruthy.
      destruct (truthy heard) eqn:E1; [congruence|].
      destruct (truthy typed) eqn:E2; [congruence|].
      unfold truthy in *. rewrite negb_false_iff in *.
      by rewrite !String.eqb_eq in *. }
  destruct (reply_shape transcript c) as (result & calls & Hsynth & Htext).
  rewrite Hsynth. cbn [mbind completion_bind]. exists candidate.
  cbn [answerTranscript answerReply answerAudioBase64 answerAudioMimeType role message
         timestamp].
  split; [done|]. split; [done|]. split; [done|]. split; [done|]. split; [done|].
  split; [done|]. split; [done|].
  split; [|done]. rewrite getChatHistory_addChatEntry. by rewrite decide_True.
Qed.

(** ** Callbacks of a replaced session *)

(** X30. The [connectionstatechange] callback closes by key: when the
    connection of a session object that has been replaced fails, the
    session now registered for the same room and peer is torn down and
    unregistered, and the replaced object itself is left as it is. *)
Theorem stale_state_change_closes_current_session (ops : list Op) (old current : nat)
    (s : ServerCallSession) (now : Z) :
  sessions (run ops) !! old = Some s ->
  serverSessions (run ops) !! roomPeerKey (roomId s) (userPeerId s) = Some current ->
  current <> old ->
  let w' := step (run ops) (ConnectionStateChanged old StateFailed now) in
  serverSessions w' !! roomPeerKey (roomId s) (userPeerId s) = None
  /\ sessions w' !! old = Some s
  /\ exists s', sessions (run ops) !! current = Some s'
                /\ sessions w' !! current = Some (teardown s').
Proof.
  intros Hold Hkey Hne w'. subst w'. cbn [step]. unfold onconnectionstatechange.
  rewrite Hold. split; [apply closeSession_forgets|].
  destruct (registryOk_run ops _ _ Hkey) as (s' & Hs' & _ & _).
  unfold closeSession. rewrite Hkey. unfold onSession.
  cbn [sessions set_serverSessions set_pendingServerCandidates]. rewrite Hs'. cbn.
  split; [by rewrite lookup_insert_ne|].
  exists s'. split; [done|]. by rewrite lookup_insert_eq.
Qed.

Lemma stale_state_change_closes_current_session_witness :
  exists s s',
    sessions (run replacedOps) !! 0%nat = Some s
    /\ PcClose ∈ engineCalls s
    /\ serverSessions (run replacedOps) !! roomPeerKey "room" "user" = Some 1%nat
    /\ sessions (run replacedOps) !! 1%nat = Some s'
    /\ sessions (step (run replacedOps) (ConnectionStateChanged 0 StateFailed 6)) !! 1%nat
       = Some (teardown s')
    /\ serverSessions (step (run replacedOps) (ConnectionStateChanged 0 StateFailed 6))
         !! roomPeerKey "room" "user" = None.
Proof.
  eexists. eexists. split; [vm_compute; reflexivity|].
  split; [vm_compute; set_solver|].
  split; [vm_compute; reflexivity|]. split; [vm_compute; reflexivity|].
  destruct (stale_state_change_closes_current_session replacedOps 0%nat 1%nat
              (teardown (logCall SetRemoteDescription
                 (newSession "room" "user" "friday-voice-bot-user"))) 6)
    as (Hgone & _ & s' & Hs' & Ht).
  - vm_compute. reflexivity.
  - vm_compute. reflexivity.
  - discriminate.
  - split; [|exact Hgone]. rewrite Ht. f_equal. f_equal.
    vm_compute in Hs'. by injection Hs'.
Defined.

